(** * git log --graph: the log parser ([parse] of the web view's log utilities)

    A shallow embedding of [git_ref_sort] and [parse], and the properties of
    the parser that its specification states.

    Conventions of the embedding.
    - A JavaScript string is a [string]: a sequence of code units, here the
      8-bit ones.  A number is an IEEE 754 binary64 [float], as in JavaScript,
      unless it is an array index, a length or the result of the comparator
      of the refs, which are [Z].  A coordinate of a line is a [JS.value], a
      number or a string: [+] is [JS.add], which concatenates as soon as one
      operand is a string, with [String(x)] as [JS.number_to_string]; [-],
      [*] and [/] convert with [Number(s)], which is [JS.string_to_number].
    - Objects that the source shares and mutates (Branch and VisLine objects)
      live in a heap, a list indexed by address; arrays and records hold
      addresses, and [===] on objects is equality of addresses.
    - The loop variable of [for (let [i, char] of Object.entries(vis_chars).reverse())]
      is a key of the array, the string of the decimal digits of the column.
      The functions of a cell take the column as the number [i : Z] that
      [i - 1] and [i - 2] compute with, and write the key as [JS.key i]
      wherever the source uses [i] as a string: [i + 1] and [i + 2] are the
      keys [JS.key i ++ "1"] and [JS.key i ++ "2"], and [x0 += i] appends
      the key to the string of [x0].
    - [Object.prototype] is a part of the state: the run writes the
      properties [xn] and [xce] on it when a branch has the id "__proto__",
      and every object without such a property of its own reads them from
      there.  [parse] is entered with an [Object.prototype] that has neither.
    - A [throw] is the [inl] of a sum; [console.warn] has no effect on the
      result and is left out. *)

From Stdlib Require Import ZArith List String Ascii Bool Floats Lia.
From Stdlib Require Import Numbers.DecimalString Sorting.Permutation Sorting.Sorted.
Import ListNotations.

Open Scope string_scope.
Open Scope list_scope.
Open Scope Z_scope.

(** ** JavaScript built-ins used by the parser *)

Module JS.

(** [s.startsWith(p)] *)
Definition startsWith (s p : string) : bool := String.prefix p s.

(** [s.slice(n)] for a non-negative [n] *)
Fixpoint slice_from (n : nat) (s : string) : string :=
  match n, s with
  | O, _ => s
  | S _, EmptyString => EmptyString
  | S k, String _ s' => slice_from k s'
  end.

(** [s.slice(0, n)] for a non-negative [n] *)
Fixpoint slice_to (n : nat) (s : string) : string :=
  match n, s with
  | O, _ => EmptyString
  | S _, EmptyString => EmptyString
  | S k, String c s' => String c (slice_to k s')
  end.

(** [s.indexOf(p)]: the first position of [p] in [s], or -1 *)
Definition indexOf (s p : string) : Z :=
  match String.index 0 p s with
  | Some n => Z.of_nat n
  | None => -1
  end.

(** [s.split(sep)].  [split_pieces sep skip s] scans [s] from the left and
    returns the piece under construction and the pieces after it; [skip]
    counts the code units of a separator just recognised that are still to
    be passed over. *)
Fixpoint split_pieces (sep : string) (skip : nat) (s : string) : string * list string :=
  match s with
  | EmptyString => (EmptyString, [])
  | String c s' =>
      match skip with
      | S k => split_pieces sep k s'
      | O =>
          if String.prefix sep s
          then (EmptyString,
                let (p, ps) := split_pieces sep (String.length sep - 1) s' in p :: ps)
          else let (p, ps) := split_pieces sep 0 s' in (String c p, ps)
      end
  end.

Definition split (s sep : string) : list string :=
  match sep with
  | EmptyString => map (fun c => String c EmptyString) (list_ascii_of_string s)
  | _ => let (p, ps) := split_pieces sep 0 s in p :: ps
  end.

(** [parts.join(sep)] *)
Definition join (parts : list string) (sep : string) : string := String.concat sep parts.

(** White space and line terminators, as [trimEnd] strips them. *)
Definition is_white_space (c : ascii) : bool :=
  let n := nat_of_ascii c in
  ((9 <=? n) && (n <=? 13) || (n =? 32) || (n =? 160))%nat.

(** [s.trimEnd()] *)
Fixpoint trimEnd (s : string) : string :=
  match s with
  | EmptyString => EmptyString
  | String c s' =>
      let t := trimEnd s' in
      if is_white_space c && String.eqb t EmptyString then EmptyString else String c t
  end.

(** A string is truthy when it is not empty. *)
Definition truthy (s : string) : bool := negb (String.eqb s EmptyString).

(** [a || b] on strings that may be [undefined] *)
Definition or_else (a : option string) (b : string) : string :=
  match a with
  | Some s => if truthy s then s else b
  | None => b
  end.

(** Template interpolation of an integer. *)
Definition string_of_Z (n : Z) : string := NilZero.string_of_int (Z.to_int n).

(** [arr[k]] on an array, [undefined] outside it. *)
Definition at_index {A} (arr : list A) (k : Z) : option A :=
  if k <? 0 then None else nth_error arr (Z.to_nat k).

(** [arr.at(-1)] *)
Definition at_last {A} (arr : list A) : option A := List.last (map Some arr) None.

(** [arr.indexOf(x)] *)
Fixpoint index_of {A} (eqb : A -> A -> bool) (x : A) (arr : list A) : Z :=
  match arr with
  | [] => -1
  | y :: arr' =>
      if eqb y x then 0
      else let k := index_of eqb x arr' in if k <? 0 then -1 else k + 1
  end.

(** [arr.splice(start, 1)]: a negative [start] counts from the end (and is
    clamped to 0), a [start] beyond the end removes nothing. *)
Definition splice1 {A} (arr : list A) (start : Z) : list A :=
  let len := Z.of_nat (List.length arr) in
  let from := if start <? 0 then Z.max (len + start) 0 else Z.min start len in
  firstn (Z.to_nat from) arr ++ skipn (S (Z.to_nat from)) arr.

(** An array with holes, as [vis] is while a row is scanned from the right:
    [arr[k] = x] beyond the end extends the array. *)
Fixpoint set_index {A} (arr : list (option A)) (k : nat) (x : A) : list (option A) :=
  match k, arr with
  | O, [] => [Some x]
  | O, _ :: arr' => Some x :: arr'
  | S k', [] => None :: set_index [] k' x
  | S k', y :: arr' => y :: set_index arr' k' x
  end.

Definition get_index {A} (arr : list (option A)) (k : Z) : option A :=
  match at_index arr k with
  | Some (Some x) => Some x
  | _ => None
  end.

(** The key of an array that [Object.entries] gives for the index [i]. *)
Definition key (i : Z) : string := string_of_Z i.

(** [arr.sort(cmp)], a stable sort; [gt a b] says that [cmp(a, b) > 0].
    For a consistent comparator every conforming implementation returns the
    one stable sorted arrangement, computed here by insertion. *)
Section Sort.
Context {A : Type} (gt : A -> A -> bool).

Fixpoint insert (x : A) (l : list A) : list A :=
  match l with
  | [] => [x]
  | y :: l' => if gt x y then y :: insert x l' else x :: l
  end.

Fixpoint sort (l : list A) : list A :=
  match l with
  | [] => []
  | x :: l' => insert x (sort l')
  end.
End Sort.

(** *** Numbers and their strings

    [String(x)] is the shortest decimal that is read back as [x], in the
    notation of the language; [Number(s)] is the number nearest to what the
    literal [s] denotes, and NaN when [s] is no literal.  Both are computed
    exactly, on integers. *)

(** [c * 2^p2 * 10^p10], compared exactly. *)
Definition scaled_compare (a b : Z * Z * Z) : comparison :=
  let '(ca, a2, a10) := a in
  let '(cb, b2, b10) := b in
  Z.compare (ca * 2 ^ Z.max (a2 - b2) 0 * 10 ^ Z.max (a10 - b10) 0)
            (cb * 2 ^ Z.max (b2 - a2) 0 * 10 ^ Z.max (b10 - a10) 0).

Definition scaled_leb (a b : Z * Z * Z) : bool :=
  match scaled_compare a b with Gt => false | _ => true end.

Definition scaled_ltb (a b : Z * Z * Z) : bool :=
  match scaled_compare a b with Lt => true | _ => false end.

(** The least [n] with [m * 2^e < 10^n], searched upwards from [n]. *)
Fixpoint magnitude (fuel : nat) (m e n : Z) : Z :=
  match fuel with
  | O => n
  | S fuel' => if scaled_ltb (m, e, 0) (1, 0, n) then n else magnitude fuel' m e (n + 1)
  end.

(** The decimals of [k] digits next to [m * 2^e], below and above, each as
    digits and power of ten; [n] is the magnitude of [m * 2^e]. *)
Definition decimals_near (m e n k : Z) : list (Z * Z) :=
  let t := n - k in
  let below := (m * 2 ^ Z.max e 0 * 10 ^ Z.max (- t) 0) / (2 ^ Z.max (- e) 0 * 10 ^ Z.max t 0) in
  let above := below + 1 in
  [ (below, t); if above =? 10 ^ k then (10 ^ (k - 1), t + 1) else (above, t) ].

(** A decimal is read back as [m * 2^e]: it lies between the middles of the
    gaps to the two neighbouring numbers, a middle itself being read as the
    number whose mantissa is even. *)
Definition reads_back (m e : Z) (d : Z * Z) : bool :=
  let '(s, t) := d in
  let low := if (m =? 2 ^ 52) && (-1074 <? e) then 4 * m - 1 else 4 * m - 2 in
  let high := 4 * m + 2 in
  if Z.even m
  then scaled_leb (low, e - 2, 0) (s, 0, t) && scaled_leb (s, 0, t) (high, e - 2, 0)
  else scaled_ltb (low, e - 2, 0) (s, 0, t) && scaled_ltb (s, 0, t) (high, e - 2, 0).

(** Of two decimals, the one nearer to [m * 2^e]; the even one when they are
    as near. *)
Definition nearer (m e : Z) (below above : Z * Z) : Z * Z :=
  (* m*2^e - below  against  above - m*2^e, each scaled to an integer *)
  let '(sb, tb) := below in
  let '(sa, ta) := above in
  let t := Z.min (Z.min tb ta) 0 in
  let p := Z.min e 0 in
  let scale (c p2 p10 : Z) : Z := c * 2 ^ (p2 - p) * 10 ^ (p10 - t) in
  let v := scale m e 0 in
  let b := scale sb 0 tb in
  let a := scale sa 0 ta in
  match Z.compare (v - b) (a - v) with
  | Lt => below
  | Gt => above
  | Eq => if Z.even sb then below else above
  end.

(** The shortest decimal that is read back as [m * 2^e]: its digits, their
    number [k], and the [n] of [digits * 10^(n - k)]. *)
Fixpoint shortest (fuel : nat) (m e n k : Z) : Z * Z * Z :=
  let candidates := decimals_near m e n k in
  let below := nth 0 candidates (0, 0) in
  let above := nth 1 candidates (0, 0) in
  let pick (d : Z * Z) := (fst d, k, snd d + k) in
  match fuel with
  | O => pick below
  | S fuel' =>
      match reads_back m e below, reads_back m e above with
      | true, true => pick (nearer m e below above)
      | true, false => pick below
      | false, true => pick above
      | false, false => shortest fuel' m e n (k + 1)
      end
  end.

Definition digits (n : Z) : string := string_of_Z n.

Fixpoint zeros (n : nat) : string :=
  match n with
  | O => EmptyString
  | S n' => String "0" (zeros n')
  end.

(** The notation of a positive number whose shortest decimal is
    [s * 10^(n - k)] with [k] digits. *)
Definition notation (s k n : Z) : string :=
  let d := digits s in
  let plain := (k <=? n) && (n <=? 21) in
  let point_inside := (0 <? n) && (n <=? 21) in
  let point_before := (-6 <? n) && (n <=? 0) in
  let exponent_sign := if n - 1 <? 0 then "-" else "+" in
  let exponent := (exponent_sign ++ digits (Z.abs (n - 1)))%string in
  let one_digit := k =? 1 in
  (if plain then d ++ zeros (Z.to_nat (n - k))
   else if point_inside then slice_to (Z.to_nat n) d ++ "." ++ slice_from (Z.to_nat n) d
   else if point_before then "0." ++ zeros (Z.to_nat (- n)) ++ d
   else if one_digit then d ++ "e" ++ exponent
   else slice_to 1 d ++ "." ++ slice_from 1 d ++ "e" ++ exponent)%string.

(** [String(x)] *)
Definition number_to_string (x : float) : string :=
  match Prim2SF x with
  | S754_nan => "NaN"
  | S754_zero _ => "0"
  | S754_infinity s => if s then "-Infinity" else "Infinity"
  | S754_finite sign m e =>
      let m := Zpos m in
      let estimate := (Z.log2 m + e) * 1233 / 4096 - 1 in
      let '(s, k, n) := shortest 17 m e (magnitude 8 m e estimate) 1 in
      ((if sign then "-" else "") ++ notation s k n)%string
  end.

(** The number nearest to [d * 10^t], for a natural [d]. *)
Definition nearest (negative : bool) (d t : Z) : float :=
  if d =? 0 then (if negative then (-0)%float else 0%float)
  else
    let sign (m : Z) := if negative then - m else m in
    if 0 <=? t then SF2Prim (binary_normalize prec emax (sign (d * 10 ^ t)) 0 false)
    else
      let divisor := 10 ^ (- t) in
      let k := Z.max 0 (Z.log2 divisor - Z.log2 d + 66) in
      let q := (d * 2 ^ k) / divisor in
      let sticky := if (d * 2 ^ k) mod divisor =? 0 then 0 else 1 in
      SF2Prim (binary_normalize prec emax (sign (2 * q + sticky)) (- k - 1) false).

Fixpoint trimStart (s : string) : string :=
  match s with
  | EmptyString => EmptyString
  | String c s' => if is_white_space c then trimStart s' else s
  end.

(** The digits at the start of a string, in base [base]: their value, their
    number, and what follows them. *)
Definition digit_value (c : ascii) : Z :=
  let n := Z.of_nat (nat_of_ascii c) in
  if (48 <=? n) && (n <=? 57) then n - 48
  else if (97 <=? n) && (n <=? 102) then n - 87
  else if (65 <=? n) && (n <=? 70) then n - 55
  else 99.

Fixpoint leading_digits (base acc count : Z) (s : string) : Z * Z * string :=
  match s with
  | EmptyString => (acc, count, s)
  | String c s' =>
      if digit_value c <? base then leading_digits base (acc * base + digit_value c) (count + 1) s'
      else (acc, count, s)
  end.

(** An exponent part at the start of a string, and nothing after it: its
    value.  Without an exponent part the string is empty and the value is 0. *)
Definition exponent_part (s : string) : option Z :=
  match s with
  | EmptyString => Some 0
  | String c s' =>
      if Ascii.eqb c "e" || Ascii.eqb c "E" then
        let '(negative, s'') :=
          match s' with
          | String "+" r => (false, r)
          | String "-" r => (true, r)
          | _ => (false, s')
          end in
        match leading_digits 10 0 0 s'' with
        | (v, count, EmptyString) =>
            if count =? 0 then None else Some (if negative then - v else v)
        | _ => None
        end
      else None
  end.

(** A decimal literal without its sign. *)
Definition unsigned_decimal (negative : bool) (s : string) : float :=
  if String.eqb s "Infinity" then (if negative then neg_infinity else infinity)
  else
    let '(int_part, int_count, rest) := leading_digits 10 0 0 s in
    let '(mantissa, frac_count, rest) :=
      match rest with
      | String "." r => leading_digits 10 int_part 0 r
      | _ => (int_part, -1, rest)
      end in
    if (int_count =? 0) && (frac_count <=? 0) then nan
    else
      match exponent_part rest with
      | Some e => nearest negative mantissa (e - Z.max frac_count 0)
      | None => nan
      end.

(** A binary, octal or hexadecimal literal. *)
Definition non_decimal (base : Z) (s : string) : float :=
  match leading_digits base 0 0 s with
  | (v, count, EmptyString) => if count =? 0 then nan else nearest false v 0
  | _ => nan
  end.

(** [Number(s)] *)
Definition string_to_number (s : string) : float :=
  match trimStart (trimEnd s) with
  | EmptyString => 0%float
  | String "0" (String "x" r) | String "0" (String "X" r) => non_decimal 16 r
  | String "0" (String "o" r) | String "0" (String "O" r) => non_decimal 8 r
  | String "0" (String "b" r) | String "0" (String "B" r) => non_decimal 2 r
  | String "+" r => unsigned_decimal false r
  | String "-" r => unsigned_decimal true r
  | t => unsigned_decimal false t
  end.

(** *** Values that are numbers or strings

    A coordinate of a line is a number until the key of a column is added to
    it, and a string from then on. *)

Inductive value : Type :=
| Num (x : float)
| Str (s : string).

(** [Number(v)] and [String(v)] *)
Definition to_number (v : value) : float :=
  match v with
  | Num x => x
  | Str s => string_to_number s
  end.

Definition to_string (v : value) : string :=
  match v with
  | Num x => number_to_string x
  | Str s => s
  end.

(** [a + b]: the sum of two numbers, and the concatenation of the strings of
    [a] and [b] when one of them is a string. *)
Definition add (a b : value) : value :=
  match a, b with
  | Num x, Num y => Num (x + y)%float
  | _, _ => Str (to_string a ++ to_string b)%string
  end.

(** [a - b] *)
Definition sub (a b : value) : float := (to_number a - to_number b)%float.

(** [a > b]: two strings are compared as strings, code unit by code unit,
    and every other pair as numbers. *)
Definition greater (a b : value) : bool :=
  match a, b with
  | Str s, Str t => String.ltb t s
  | _, _ => (to_number b <? to_number a)%float
  end.

(** A value is falsy when it is 0, -0, NaN or the empty string. *)
Definition truthy_value (v : value) : bool :=
  match v with
  | Num x => negb (PrimFloat.is_nan x || PrimFloat.is_zero x)
  | Str s => truthy s
  end.

(** [v || 0] on a value that may be [undefined] *)
Definition or_zero (v : option value) : value :=
  match v with
  | Some w => if truthy_value w then w else Num 0%float
  | None => Num 0%float
  end.

(** *** Records used as string-keyed maps

    [Object.entries] lists own keys that are array indices first, in
    ascending order, then the other keys in the order of their creation. *)

Definition is_digit (c : ascii) : bool :=
  let n := nat_of_ascii c in ((48 <=? n) && (n <=? 57))%nat.

Fixpoint digits_value (acc : N) (s : string) : option N :=
  match s with
  | EmptyString => Some acc
  | String c s' =>
      if is_digit c
      then digits_value (acc * 10 + N.of_nat (nat_of_ascii c - 48))%N s'
      else None
  end.

(** The array index a key denotes, when it is the canonical decimal form of
    an integer below 2^32 - 1. *)
Definition array_index (key : string) : option N :=
  match key with
  | EmptyString => None
  | String c rest =>
      if (Ascii.eqb c "0" && negb (String.eqb rest EmptyString))%bool then None
      else match digits_value 0 key with
           | Some n => if (n <? 4294967295)%N then Some n else None
           | None => None
           end
  end.

(** [arr[key]] for a key that is a string: an element when the key is an
    array index, and otherwise a property that no array has. *)
Definition at_key {A} (arr : list (option A)) (key : string) : option A :=
  match array_index key with
  | Some n => get_index arr (Z.of_N n)
  | None => None
  end.

Definition record (V : Type) : Type := list (string * V).

(** Names every object inherits from [Object.prototype] as the engine sets
    it up: [obj[key]] is a function for them, and [Object.prototype] itself
    for "__proto__", although [obj] has no such own property. *)
Definition inherited_names : list string :=
  [ "constructor"; "__defineGetter__"; "__defineSetter__"; "hasOwnProperty";
    "__lookupGetter__"; "__lookupSetter__"; "isPrototypeOf";
    "propertyIsEnumerable"; "toString"; "valueOf"; "__proto__";
    "toLocaleString" ].

Definition is_inherited (key : string) : bool :=
  existsb (String.eqb key) inherited_names.

(** What [r[key]] finds: a value of [r] itself, a built-in object of
    [Object.prototype], a truthy value that the run has added to
    [Object.prototype], or nothing that is truthy. *)
Inductive lookup (V : Type) : Type :=
| Own (v : V)
| Inherited
| Added (w : value)
| Absent.
Arguments Own {V} v.
Arguments Inherited {V}.
Arguments Added {V} w.
Arguments Absent {V}.

Fixpoint own {V} (r : record V) (key : string) : option V :=
  match r with
  | [] => None
  | (k, v) :: r' => if String.eqb k key then Some v else own r' key
  end.

(** [r[key]], where [added key] is what the run has written under [key] on
    [Object.prototype]. *)
Definition get {V} (added : string -> option value) (r : record V) (key : string) : lookup V :=
  match own r key with
  | Some v => Own v
  | None =>
      if is_inherited key then Inherited
      else match added key with
           | Some w => if truthy_value w then Added w else Absent
           | None => Absent
           end
  end.

(** Where a new own key goes in the enumeration order. *)
Fixpoint place {V} (r : record V) (key : string) (v : V) : record V :=
  match r with
  | [] => [(key, v)]
  | (k, w) :: r' =>
      match array_index key, array_index k with
      | Some n, Some m => if (n <? m)%N then (key, v) :: r else (k, w) :: place r' key v
      | Some _, None => (key, v) :: r
      | None, _ => (k, w) :: place r' key v
      end
  end.

Fixpoint replace {V} (r : record V) (key : string) (v : V) : record V :=
  match r with
  | [] => []
  | (k, w) :: r' => if String.eqb k key then (k, v) :: r' else (k, w) :: replace r' key v
  end.

(** [r[key] = v].  An assignment to [__proto__] goes to the accessor of
    [Object.prototype] and creates no own property. *)
Definition set {V} (r : record V) (key : string) (v : V) : record V :=
  if String.eqb key "__proto__" then r
  else match own r key with
       | Some _ => replace r key v
       | None => place r key v
       end.

(** [Object.values(r)] *)
Definition values {V} (r : record V) : list V := map snd r.

End JS.

(** The line feed, on which the three inputs are split into lines. *)
Definition NL : string := String "010" EmptyString.

(** ** Data model *)

(** An object on a heap is named by its address. *)
Definition addr : Type := nat.

Definition deref {A} (heap : list A) (a : addr) : option A := nth_error heap a.

Fixpoint update {A} (heap : list A) (a : addr) (f : A -> A) : list A :=
  match heap, a with
  | [], _ => []
  | x :: heap', O => f x :: heap'
  | x :: heap', S a' => x :: update heap' a' f
  end.

(** The [type] field of a ref. *)
Inductive RefType : Type := type_branch | type_tag | type_stash.

Module Branch.
Record t : Type := mk {
  name : string;
  color : option string;
  type : RefType;
  remote_name : option string;
  tracking_remote_name : option string;
  id : string;
  inferred : bool        (* absent on a new branch, which reads as false *)
}.

Definition set_inferred (v : bool) (b : t) : t :=
  mk (name b) (color b) (type b) (remote_name b) (tracking_remote_name b) (id b) v.

Definition set_color (v : option string) (b : t) : t :=
  mk (name b) v (type b) (remote_name b) (tracking_remote_name b) (id b) (inferred b).
End Branch.

(** A ref of a commit: a Branch object of the registry, or a tag or stash
    object made for that commit. *)
Module GitRef.
Record obj : Type := mk {
  id : string;
  name : string;
  color : option string;
  type : RefType
}.

Inductive t : Type :=
| of_branch (a : addr)
| of_object (o : obj).
End GitRef.

(** The properties that a run has written on [Object.prototype]: [xn] and
    [xce] are the only ones that [parse] ever writes there. *)
Module Prototype.
Record t : Type := mk {
  xn : option JS.value;
  xce : option JS.value
}.

(** What is written under a key. *)
Definition added (p : t) (key : string) : option JS.value :=
  if String.eqb key "xn" then xn p
  else if String.eqb key "xce" then xce p
  else None.
End Prototype.

Module VisLine.
Record t : Type := mk {
  x0 : JS.value;
  xn : JS.value;
  y0 : option float;
  yn : option float;
  xcs : option JS.value;
  ycs : option float;
  xce : option (option JS.value);  (* [None]: no property of its own;
                                      [Some None]: its own, and undefined *)
  yce : option float;
  branch : option addr
}.

Definition set_x0 (v : JS.value) (l : t) : t :=
  mk v (xn l) (y0 l) (yn l) (xcs l) (ycs l) (xce l) (yce l) (branch l).
Definition set_xn (v : JS.value) (l : t) : t :=
  mk (x0 l) v (y0 l) (yn l) (xcs l) (ycs l) (xce l) (yce l) (branch l).
Definition set_y0 (v : option float) (l : t) : t :=
  mk (x0 l) (xn l) v (yn l) (xcs l) (ycs l) (xce l) (yce l) (branch l).
Definition set_yn (v : option float) (l : t) : t :=
  mk (x0 l) (xn l) (y0 l) v (xcs l) (ycs l) (xce l) (yce l) (branch l).
Definition set_xcs (v : option JS.value) (l : t) : t :=
  mk (x0 l) (xn l) (y0 l) (yn l) v (ycs l) (xce l) (yce l) (branch l).
Definition set_ycs (v : option float) (l : t) : t :=
  mk (x0 l) (xn l) (y0 l) (yn l) (xcs l) v (xce l) (yce l) (branch l).
(** [l.xce = v] gives [l] a property of its own, whatever [v] is. *)
Definition set_xce (v : option JS.value) (l : t) : t :=
  mk (x0 l) (xn l) (y0 l) (yn l) (xcs l) (ycs l) (Some v) (yce l) (branch l).
Definition set_yce (v : option float) (l : t) : t :=
  mk (x0 l) (xn l) (y0 l) (yn l) (xcs l) (ycs l) (xce l) v (branch l).
Definition set_branch (v : option addr) (l : t) : t :=
  mk (x0 l) (xn l) (y0 l) (yn l) (xcs l) (ycs l) (xce l) (yce l) v.

(** [l.xce]: the property of [l], or that of [Object.prototype] when [l] has
    none of its own. *)
Definition read_xce (p : Prototype.t) (l : t) : option JS.value :=
  match xce l with
  | Some v => v
  | None => Prototype.xce p
  end.
End VisLine.

Module Commit.
Record t : Type := mk {
  i : nat;                     (* row_no *)
  vis_lines : list addr;       (* VisLine objects *)
  branch : option addr;
  hash_long : string;
  hash : string;
  author_name : string;
  author_email : string;
  datetime : string;
  refs : list GitRef.t;
  subject : string;
  merge : bool                 (* absent until a merge is detected *)
}.

Definition set_merge (v : bool) (c : t) : t :=
  mk (i c) (vis_lines c) (branch c) (hash_long c) (hash c) (author_name c)
     (author_email c) (datetime c) (refs c) (subject c) v.

Definition push_ref (r : GitRef.t) (c : t) : t :=
  mk (i c) (vis_lines c) (branch c) (hash_long c) (hash c) (author_name c)
     (author_email c) (datetime c) (refs c ++ [r]) (subject c) (merge c).
End Commit.

(** An element of [Vis]: a graph character and the branch it belongs to. *)
Module Vis.
Record cell : Type := mk { char : ascii; branch : option addr }.
Definition t : Type := list (option cell).
End Vis.

(** What [parse] throws. *)
Inductive exn : Type :=
| Error (message : string)
| TypeError (message : string).

(** ** git_ref_sort *)

(** [x || y] on numbers that are integers. *)
Definition or_num (x y : Z) : Z := if x =? 0 then y else x.

Section GitRefSort.
Context {R : Type} (id : R -> string).

Definition git_ref_sort (a b : R) : Z :=
  let a_is_tag := JS.startsWith (id a) "tag: " in
  let b_is_tag := JS.startsWith (id b) "tag: " in
  or_num
    (Z.b2z (a_is_tag || negb (JS.startsWith (id a) "refs/"))
     - Z.b2z (b_is_tag || negb (JS.startsWith (id b) "refs/")))
    (or_num
       (Z.b2z b_is_tag - Z.b2z a_is_tag)
       (JS.indexOf (id a) "/" - JS.indexOf (id b) "/")).

(** [refs.sort(git_ref_sort)] *)
Definition sort_refs (refs : list R) : list R :=
  JS.sort (fun a b => 0 <? git_ref_sort a b) refs.
End GitRefSort.

(** ** The merge subject pattern

    The pattern the subject of the last commit is matched against has two
    alternatives.  The first is anchored at the start of the subject: the word
    Merge, an optional "remote tracking " or "remote-tracking ", then
    "branch '", a greedy run of characters other than a space (group 1), a
    closing quote, and anything after it.  The second is anchored at the end
    of the subject and is searched for at every position:
    "pull request #", digits, " from " and the non-empty rest (group 2). *)

Definition strip_prefix (p s : string) : option string :=
  if String.prefix p s then Some (JS.slice_from (String.length p) s) else None.

Fixpoint non_space_run (s : string) : string :=
  match s with
  | EmptyString => EmptyString
  | String c s' => if Ascii.eqb c " " then EmptyString else String c (non_space_run s')
  end.

(** What precedes the last quote of a run of characters. *)
Fixpoint upto_last_quote (run : string) : option string :=
  match run with
  | EmptyString => None
  | String c rest =>
      match upto_last_quote rest with
      | Some p => Some (String c p)
      | None => if Ascii.eqb c "'" then Some EmptyString else None
      end
  end.

(** First alternative, group 1: the greedy ['([^ ]+)'] after the keyword. *)
Definition match_merge_branch (subject : string) : option string :=
  match strip_prefix "Merge " subject with
  | None => None
  | Some s =>
      let s :=
        match strip_prefix "remote tracking " s with
        | Some r => r
        | None =>
            match strip_prefix "remote-tracking " s with
            | Some r => r
            | None => s
            end
        end in
      match strip_prefix "branch '" s with
      | None => None
      | Some r =>
          match upto_last_quote (non_space_run r) with
          | Some g => if JS.truthy g then Some g else None
          | None => None
          end
      end
  end.

Fixpoint skip_digits (s : string) : string :=
  match s with
  | EmptyString => EmptyString
  | String c s' => if JS.is_digit c then skip_digits s' else s
  end.

(** [.] matches every code unit except a line terminator. *)
Fixpoint no_line_terminator (s : string) : bool :=
  match s with
  | EmptyString => true
  | String c s' =>
      negb (Ascii.eqb c "010" || Ascii.eqb c "013") && no_line_terminator s'
  end.

(** Second alternative matched at the start of [s], group 2. *)
Definition match_pull_request_here (s : string) : option string :=
  match strip_prefix "pull request #" s with
  | None => None
  | Some s1 =>
      match s1 with
      | EmptyString => None
      | String c _ =>
          if JS.is_digit c then
            match strip_prefix " from " (skip_digits s1) with
            | Some g => if JS.truthy g && no_line_terminator g then Some g else None
            | None => None
            end
          else None
      end
  end.

Fixpoint match_pull_request (s : string) : option string :=
  match match_pull_request_here s with
  | Some g => Some g
  | None =>
      match s with
      | EmptyString => None
      | String _ s' => match_pull_request s'
      end
  end.

(** [subject.match(...)]: the two capture groups of the match, if any. *)
Definition subject_merge_match (subject : string) : option (option string * option string) :=
  match match_merge_branch subject with
  | Some g1 => Some (Some g1, None)
  | None =>
      match match_pull_request subject with
      | Some g2 => Some (None, Some g2)
      | None => None
      end
  end.

(** ** The state of [parse]

    The local variables of [parse] that its loops update, with the two heaps
    of the objects they share. *)

Record State : Type := mkState {
  branch_heap : list Branch.t;
  branches : list addr;                                   (* the registry *)
  line_heap : list VisLine.t;
  commits : list Commit.t;
  last_vis : Vis.t;
  densened_vis_line_by_branch_id : JS.record addr;
  last_densened_vis_line_by_branch_id : JS.record addr;
  xn_by_branch_id : JS.record JS.value;
  object_prototype : Prototype.t                          (* Object.prototype *)
}.

Definition with_branch_heap (v : list Branch.t) (st : State) : State :=
  mkState v (branches st) (line_heap st) (commits st) (last_vis st)
    (densened_vis_line_by_branch_id st) (last_densened_vis_line_by_branch_id st)
    (xn_by_branch_id st) (object_prototype st).
Definition with_branches (v : list addr) (st : State) : State :=
  mkState (branch_heap st) v (line_heap st) (commits st) (last_vis st)
    (densened_vis_line_by_branch_id st) (last_densened_vis_line_by_branch_id st)
    (xn_by_branch_id st) (object_prototype st).
Definition with_line_heap (v : list VisLine.t) (st : State) : State :=
  mkState (branch_heap st) (branches st) v (commits st) (last_vis st)
    (densened_vis_line_by_branch_id st) (last_densened_vis_line_by_branch_id st)
    (xn_by_branch_id st) (object_prototype st).
Definition with_commits (v : list Commit.t) (st : State) : State :=
  mkState (branch_heap st) (branches st) (line_heap st) v (last_vis st)
    (densened_vis_line_by_branch_id st) (last_densened_vis_line_by_branch_id st)
    (xn_by_branch_id st) (object_prototype st).
Definition with_last_vis (v : Vis.t) (st : State) : State :=
  mkState (branch_heap st) (branches st) (line_heap st) (commits st) v
    (densened_vis_line_by_branch_id st) (last_densened_vis_line_by_branch_id st)
    (xn_by_branch_id st) (object_prototype st).
Definition with_densened (v : JS.record addr) (st : State) : State :=
  mkState (branch_heap st) (branches st) (line_heap st) (commits st) (last_vis st)
    v (last_densened_vis_line_by_branch_id st) (xn_by_branch_id st) (object_prototype st).
Definition with_last_densened (v : JS.record addr) (st : State) : State :=
  mkState (branch_heap st) (branches st) (line_heap st) (commits st) (last_vis st)
    (densened_vis_line_by_branch_id st) v (xn_by_branch_id st) (object_prototype st).
Definition with_xn_by_branch_id (v : JS.record JS.value) (st : State) : State :=
  mkState (branch_heap st) (branches st) (line_heap st) (commits st) (last_vis st)
    (densened_vis_line_by_branch_id st) (last_densened_vis_line_by_branch_id st) v
    (object_prototype st).
Definition with_object_prototype (v : Prototype.t) (st : State) : State :=
  mkState (branch_heap st) (branches st) (line_heap st) (commits st) (last_vis st)
    (densened_vis_line_by_branch_id st) (last_densened_vis_line_by_branch_id st)
    (xn_by_branch_id st) v.

Definition initial_state : State := mkState [] [] [] [] [] [] [] [] (Prototype.mk None None).

(** [fold_exn f l s]: a loop over [l] that a [throw] leaves. *)
Fixpoint fold_exn {A S : Type} (f : S -> A -> exn + S) (l : list A) (s : S) : exn + S :=
  match l with
  | [] => inr s
  | x :: l' =>
      match f s x with
      | inl e => inl e
      | inr s' => fold_exn f l' s'
      end
  end.

(** [Object.entries(arr)], the keys as indices. *)
Definition entries {A} (arr : list A) : list (nat * A) :=
  combine (seq 0 (List.length arr)) arr.

(** ** The branch registry *)

(** [b.id] of the Branch object at [b]. *)
Definition branch_id (heap : list Branch.t) (b : addr) : string :=
  match deref heap b with
  | Some o => Branch.id o
  | None => EmptyString
  end.

Definition new_branch (branch_name : string) (remote_name tracking_remote_name : option string)
    (st : State) : State * addr :=
  let branch :=
    Branch.mk branch_name None type_branch remote_name tracking_remote_name
      (match remote_name with
       | Some r => if JS.truthy r then r ++ "/" ++ branch_name else branch_name
       | None => branch_name
       end)
      false in
  let a := List.length (branch_heap st) in
  (with_branches (branches st ++ [a]) (with_branch_heap (branch_heap st ++ [branch]) st), a).

(** What is thrown when [startsWith] is read from an undefined [ref_name]. *)
Definition undefined_ref_name : string := "ref_name is undefined (reading 'startsWith')".

(** One turn of the loop over the lines of [branch_data]. *)
Definition add_branch_line (separator : string) (st : State) (branch_line : string) : exn + State :=
  let fields := JS.split branch_line separator in
  let tracking_remote_branch_name := nth_error fields 0 in
  match nth_error fields 1 with
  | None => inl (TypeError undefined_ref_name)
  | Some ref_name =>
      if JS.startsWith ref_name "refs/heads/"
      then inr (fst (new_branch (JS.slice_from 11 ref_name) None tracking_remote_branch_name st))
      else
        match JS.split (JS.slice_from 13 ref_name) "/" with
        | remote_name :: remote_branch_name_parts =>
            inr (fst (new_branch (JS.join remote_branch_name_parts "/") (Some remote_name) None st))
        | [] => inr (fst (new_branch EmptyString None None st))
        end
  end.

Definition build_registry (branch_data separator : string) : exn + State :=
  match fold_exn (add_branch_line separator) (JS.split branch_data NL) initial_state with
  | inl e => inl e
  | inr st => inr (fst (new_branch "HEAD" None None st))
  end.

(** ** The refs of a row *)

Definition ref_id (heap : list Branch.t) (r : GitRef.t) : string :=
  match r with
  | GitRef.of_branch a => branch_id heap a
  | GitRef.of_object o => GitRef.id o
  end.

Definition ref_type (heap : list Branch.t) (r : GitRef.t) : option RefType :=
  match r with
  | GitRef.of_branch a => option_map Branch.type (deref heap a)
  | GitRef.of_object o => Some (GitRef.type o)
  end.

(** Modelled from the spec: [is_branch] of [./types], which is not among the
    sources.  The branch tip of a row is its first branch-typed ref. *)
Definition is_branch (heap : list Branch.t) (r : GitRef.t) : bool :=
  match ref_type heap r with
  | Some type_branch => true
  | _ => false
  end.

(** [is_truthy] of [./types] is not among the sources either; it is read as
    JavaScript truthiness: [JS.truthy] on strings, and on an object or
    [undefined] the test of being an object ([keep_defined]). *)
Fixpoint keep_defined {A} (l : list (option A)) : list A :=
  match l with
  | [] => []
  | Some x :: l' => x :: keep_defined l'
  | None :: l' => keep_defined l'
  end.

Definition resolve_ref (st : State) (id : string) : option GitRef.t :=
  if JS.startsWith id "tag: "
  then Some (GitRef.of_object (GitRef.mk id (JS.slice_from 5 id) None type_tag))
  else
    match find (fun b => String.eqb id (branch_id (branch_heap st) b)) (branches st) with
    | Some branch_match => Some (GitRef.of_branch branch_match)
    | None => None
    end.

Definition resolve_refs (st : State) (refs_csv : string) : list GitRef.t :=
  let names := map (fun r => JS.or_else (nth_error (JS.split r " -> ") 1) r) (JS.split refs_csv ", ") in
  let names := filter (fun r => negb (String.eqb r "refs/stash")) names in
  let names := filter JS.truthy names in
  sort_refs (ref_id (branch_heap st)) (keep_defined (map (resolve_ref st) names)).

Definition branch_tip_of (st : State) (refs : list GitRef.t) : option addr :=
  match filter (is_branch (branch_heap st)) refs with
  | GitRef.of_branch a :: _ => Some a
  | _ => None
  end.

(** ** The grid analyzer: one cell of a row *)

Definition graph_chars : list ascii :=
  ["*"; "\"; "/"; " "; "_"; "|"; "-"; "."]%char.

Definition includes (l : list ascii) (c : ascii) : bool := existsb (Ascii.eqb c) l.

(** [v?.char === c] and [v?.branch] *)
Definition char_is (v : option Vis.cell) (c : ascii) : bool :=
  match v with
  | Some cell => Ascii.eqb (Vis.char cell) c
  | None => false
  end.

Definition branch_of (v : option Vis.cell) : option addr :=
  match v with
  | Some cell => Vis.branch cell
  | None => None
  end.

(** A VisLine literal [{ x0, xn }]. *)
Definition line (x0 xn : float) : VisLine.t :=
  VisLine.mk (JS.Num x0) (JS.Num xn) None None None None None None None.

(** The fix of the "inferred substitute": the lines of the last commits that
    belong to [wrong_branch] are given to [v_branch].  [repair_lines heap n]
    is the loop entered with [k = n - 1]. *)
Definition belongs_to (heap : list VisLine.t) (b : addr) (a : addr) : bool :=
  match deref heap a with
  | Some l =>
      match VisLine.branch l with
      | Some b' => Nat.eqb b' b
      | None => false
      end
  | None => false
  end.

Definition repoint (v_branch : addr) (heap : list VisLine.t) (a : addr) : list VisLine.t :=
  update heap a (VisLine.set_branch (Some v_branch)).

Fixpoint repair_lines (commits : list Commit.t) (wrong_branch v_branch : addr)
    (heap : list VisLine.t) (n : nat) : list VisLine.t :=
  match n with
  | O => heap
  | S k =>
      match nth_error commits k with
      | None => heap
      | Some c =>
          match filter (belongs_to heap wrong_branch) (Commit.vis_lines c) with
          | [] => heap
          | wrong_branch_matches =>
              repair_lines commits wrong_branch v_branch
                (fold_left (repoint v_branch) wrong_branch_matches heap) k
          end
      end
  end.

Definition repair (wrong_branch v_branch : addr) (st : State) : State :=
  let heap :=
    repair_lines (commits st) wrong_branch v_branch (line_heap st) (List.length (commits st)) in
  with_branches
    (JS.splice1 (branches st) (JS.index_of Nat.eqb wrong_branch (branches st)))
    (with_line_heap heap st).

(** [new_branch(...)] followed by [v_branch.inferred = true] *)
Definition new_inferred_branch (branch_name : string) (remote_name : option string)
    (st : State) : State * addr :=
  let (st', b) := new_branch branch_name remote_name None st in
  (with_branch_heap (update (branch_heap st') b (Branch.set_inferred true)) st', b).

(** The counter that the synthetic ids carry: [branches.length - 1]. *)
Definition registry_counter (st : State) : string :=
  JS.string_of_Z (Z.of_nat (List.length (branches st)) - 1).

(** What is thrown when [branch] is read from an undefined [w_char_match]. *)
Definition undefined_w_char_match : string := "w_char_match is undefined (reading 'branch')".

(** What a case of the [switch] leaves: the state, [v_branch] and [vis_line]
    (the empty object where no case assigns it). *)
Record Resolved : Type := mkResolved {
  res_state : State;
  v_branch : option addr;
  vis_line : option VisLine.t
}.

Section Cell.
Variable vis_chars : list ascii.
Variable branch_tip : option addr.
Variable st : State.
Variable vis : Vis.t.
Variable i : Z.

(** [i + 1] and [i + 2] append a digit to the key [i]: they are the keys of
    the columns [10 * i + 1] and [10 * i + 2], and in column 0 the keys "01"
    and "02", which are no array indices. *)
Let v_n := JS.get_index (last_vis st) i.
Let v_nw := JS.get_index (last_vis st) (i - 1).
Let v_w_char := JS.at_index vis_chars (i - 1).
Let v_ne := JS.at_key (last_vis st) (JS.key i ++ "1").
Let v_nee := JS.at_key (last_vis st) (JS.key i ++ "2").
Let v_e := JS.at_key vis (JS.key i ++ "1").
Let v_ee := JS.at_key vis (JS.key i ++ "2").

Definition case_star : Resolved :=
  let (st', v) :=
    match branch_tip with
    | Some tip =>
        (if char_is v_nw "\"
         then match branch_of v_nw with
              | Some wrong_branch => repair wrong_branch tip st
              | None => st
              end
         else st,
         Some tip)
    | None =>
        match branch_of v_n with
        | Some b => (st, Some b)
        | None =>
            if char_is v_nw "\" then (st, branch_of v_nw)
            else if char_is v_ne "/" then (st, branch_of v_ne)
            else
              let (st', b) :=
                new_inferred_branch ("inferred~" ++ registry_counter st)%string None st in
              (st', Some b)
        end
    end in
  let vis_line := line 0.5 0.5 in
  mkResolved st' v
    (Some (match JS.get_index (last_vis st) i with
           | None => VisLine.set_y0 (Some 0.5%float) vis_line
           | Some above =>
               if Ascii.eqb (Vis.char above) " "
               then VisLine.set_y0 (Some 0.5%float) vis_line
               else vis_line
           end)).

Definition case_pipe : Resolved :=
  mkResolved st
    (match branch_of v_n with
     | Some b => Some b
     | None =>
         if char_is v_nw "\" then branch_of v_nw
         else if char_is v_ne "/" then branch_of v_ne
         else None
     end)
    (Some (VisLine.set_yn (Some 0.5%float) (line 0.5 0.5))).

Definition case_underscore : Resolved :=
  mkResolved st (branch_of v_ee) (Some (line 1 0)).

Definition case_slash : Resolved :=
  mkResolved st
    (if char_is v_ne "*" then branch_of v_ne
     else if char_is v_ne "|" then
       if char_is v_nee "/" || char_is v_nee "_" then branch_of v_nee
       else branch_of v_ne
     else if char_is v_ne "/" then branch_of v_ne
     else if char_is v_n "\" || char_is v_n "|" then branch_of v_n
     else None)
    (Some (VisLine.set_xce (Some (JS.Num 0.5)) (line 1 (-0.5)))).

(** The [while] over the dashes above, entered with [k = n - 1]; its value
    is [w_char_match] when the loop is left. *)
Fixpoint walk_dashes (last_vis : Vis.t) (n : nat) : option Vis.cell :=
  match n with
  | O => None
  | S k =>
      match JS.get_index last_vis (Z.of_nat k) with
      | Some cell => if Ascii.eqb (Vis.char cell) "-" then walk_dashes last_vis k else Some cell
      | None => None
      end
  end.

(** The merge commit marker: a backslash right of a pipe. *)
Definition merge_marker : State * addr :=
  let last_commit := JS.at_last (commits st) in
  let st1 :=
    match last_commit with
    | Some _ =>
        with_commits
          (update (commits st) (Nat.pred (List.length (commits st))) (Commit.set_merge true)) st
    | None => st
    end in
  match option_map Commit.subject last_commit with
  | Some subject =>
      match subject_merge_match subject with
      | Some (g1, g2) =>
          let branch_id : string :=
            (JS.or_else g1 (JS.or_else g2 EmptyString) ++ "~" ++ registry_counter st1)%string in
          let split := JS.split branch_id "/" in
          match split with
          | [] => new_inferred_branch branch_id None st1
          | _ =>
              new_inferred_branch
                (JS.or_else (JS.at_last split) EmptyString)
                (Some (JS.join (removelast split) "/"))
                st1
          end
      | None => new_inferred_branch ("~" ++ registry_counter st1)%string None st1
      end
  | None => new_inferred_branch ("~" ++ registry_counter st1)%string None st1
  end.

(** The last [else if] of the source's chain (a dot above-left with a dash
    before it) repeats a test that the [else if] before it has already
    taken, so no row reaches it. *)
Definition case_backslash : exn + Resolved :=
  let vis_line := Some (line (-0.5) 1) in
  if char_is v_e "|" then inr (mkResolved st (branch_of v_e) vis_line)
  else if match v_w_char with Some c => Ascii.eqb c "|" | None => false end then
    let (st', b) := merge_marker in inr (mkResolved st' (Some b) vis_line)
  else if char_is v_nw "|" || char_is v_nw "\" then
    inr (mkResolved st (branch_of v_nw) vis_line)
  else if char_is v_nw "." || char_is v_nw "-" then
    match walk_dashes (last_vis st) (Z.to_nat (i - 2 + 1)) with
    | Some w_char_match => inr (mkResolved st (Vis.branch w_char_match) vis_line)
    | None => inl (TypeError undefined_w_char_match)
    end
  else inr (mkResolved st None vis_line).

Definition resolve_cell (char : ascii) : exn + Resolved :=
  if Ascii.eqb char "*" then inr case_star
  else if Ascii.eqb char "|" then inr case_pipe
  else if Ascii.eqb char "_" then inr case_underscore
  else if Ascii.eqb char "/" then inr case_slash
  else if Ascii.eqb char "\" then case_backslash
  else inr (mkResolved st None None).
End Cell.

(** ** Densening: the lines of a row join those collected for the commit *)

(** [x0 += i] and the three assignments after it: the key of the column is
    appended to the string of each coordinate that is not [null].  [xce] is
    read, so it may be that of [Object.prototype], and written on the line. *)
Definition shift (p : Prototype.t) (i : Z) (l : VisLine.t) : VisLine.t :=
  let at_i (x : JS.value) : JS.value := JS.add x (JS.Str (JS.key i)) in
  let l := VisLine.set_x0 (at_i (VisLine.x0 l)) l in
  let l := VisLine.set_xn (at_i (VisLine.xn l)) l in
  let l := VisLine.set_xcs (option_map at_i (VisLine.xcs l)) l in
  match VisLine.read_xce p l with
  | Some xce => VisLine.set_xce (Some (at_i xce)) l
  | None => l
  end.

(** The [if (v_branch)] block.  What [densened_vis_line_by_branch_id[id]]
    finds is a line of the commit in progress, which takes the end of
    [vis_line]; or [Object.prototype], for the id "__proto__", on which the
    two writes leave [xn] and [xce] for every object to inherit; or one of
    its functions, on which nothing reads them; or a string that an earlier
    such write has left there, and a write to a property of a string is
    dropped; or nothing, and then [vis_line] becomes the line of the
    branch. *)
Definition densen (i : Z) (v_branch : addr) (vis_line : VisLine.t) (st : State) : State :=
  let vis_line := shift (object_prototype st) i vis_line in
  let id := branch_id (branch_heap st) v_branch in
  let xn := VisLine.xn vis_line in
  let xce := VisLine.read_xce (object_prototype st) vis_line in
  let st1 :=
    match JS.get (Prototype.added (object_prototype st)) (densened_vis_line_by_branch_id st) id with
    | JS.Own a =>
        with_line_heap
          (update (line_heap st) a (fun l => VisLine.set_xce xce (VisLine.set_xn xn l)))
          st
    | JS.Inherited =>
        if String.eqb id "__proto__"
        then with_object_prototype (Prototype.mk (Some xn) xce) st
        else st
    | JS.Added _ => st
    | JS.Absent =>
        let a := List.length (line_heap st) in
        with_densened (JS.set (densened_vis_line_by_branch_id st) id a)
          (with_line_heap (line_heap st ++ [VisLine.set_branch (Some v_branch) vis_line]) st)
    end in
  with_xn_by_branch_id (JS.set (xn_by_branch_id st1) id xn) st1.

(** The variables of one row's scan. *)
Record Scan : Type := mkScan {
  state : State;
  vis : Vis.t;
  commit_branch : option addr
}.

(** The body of the loop over the characters of a row. *)
Definition scan_cell (vis_chars : list ascii) (branch_tip : option addr)
    (sc : Scan) (cell : nat * ascii) : exn + Scan :=
  let (k, char) := cell in
  let i := Z.of_nat k in
  match resolve_cell vis_chars branch_tip (state sc) (vis sc) i char with
  | inl e => inl e
  | inr r =>
      let commit_branch := if Ascii.eqb char "*" then v_branch r else commit_branch sc in
      let vis := JS.set_index (vis sc) k (Vis.mk char (v_branch r)) in
      let st :=
        match v_branch r, vis_line r with
        | Some b, Some l => densen i b l (res_state r)
        | _, _ => res_state r
        end in
      inr (mkScan st vis commit_branch)
  end.

Definition scan_row (vis_chars : list ascii) (branch_tip : option addr) (st : State) : exn + Scan :=
  fold_exn (scan_cell vis_chars branch_tip) (rev (entries vis_chars)) (mkScan st [] None).

(** ** Closing a commit row: defaults, curves, and the junction with the row before *)

Section Finalize.
Variable curve_radius : float.

(** [last.x0 + (last.xn - last.x0) * (1 - curve_radius)]: the difference and
    the product are numbers, and the sum is a concatenation when [last.x0]
    is a string. *)
Definition control_end (last_x0 last_xn : JS.value) : JS.value :=
  JS.add last_x0 (JS.Num (JS.sub last_xn last_x0 * (1 - curve_radius))%float).

Definition control_start (x0 xn : JS.value) : JS.value :=
  JS.add x0 (JS.Num (JS.sub xn x0 * curve_radius)%float).

Definition middle_of (xcs last_xce : JS.value) : float :=
  (JS.to_number (JS.add xcs last_xce) / 2)%float.

(** The writes of the junction, on the line of the row before ... *)
Definition join_last (middle_x : float) (last_xce : JS.value) (l : VisLine.t) : VisLine.t :=
  VisLine.set_yn (Some 1%float)
    (VisLine.set_yce (Some (1 - curve_radius)%float)
       (VisLine.set_xce (Some last_xce)
          (VisLine.set_xn (JS.Num middle_x) l))).

(** ... and on the line of this row. *)
Definition join_this (middle_x : float) (xcs : JS.value) (l : VisLine.t) : VisLine.t :=
  VisLine.set_ycs (Some curve_radius)
    (VisLine.set_xcs (Some xcs)
       (VisLine.set_x0 (JS.Num middle_x) l)).

(** A line that no line of the row before continues. *)
Definition first_appearance (l : VisLine.t) : VisLine.t :=
  VisLine.set_ycs (Some curve_radius)
    (match VisLine.xcs l with
     | None =>
         if JS.greater (VisLine.xn l) (VisLine.x0 l)
         then VisLine.set_xcs (Some (JS.add (VisLine.x0 l) (JS.Num 1))) l
         else VisLine.set_xcs (Some (VisLine.x0 l)) l
     | Some _ => l
     end).

Section Lines.
(** [Object.prototype] as it is while the commit is closed: the loop over
    the lines writes on lines only. *)
Variable p : Prototype.t.

(** [y0], [yn], [xce] and [yce] where the scan has left them unset. *)
Definition with_defaults (l : VisLine.t) : VisLine.t :=
  let l := match VisLine.y0 l with None => VisLine.set_y0 (Some 0%float) l | Some _ => l end in
  let l := match VisLine.yn l with None => VisLine.set_yn (Some 1%float) l | Some _ => l end in
  let l :=
    match VisLine.read_xce p l with
    | None => VisLine.set_xce (Some (VisLine.xn l)) l
    | Some _ => l
    end in
  match VisLine.yce l with
  | None => VisLine.set_yce (Some (1 - curve_radius / 2)%float) l
  | Some _ => l
  end.

(** One turn of the loop over [Object.entries(densened_vis_line_by_branch_id)].
    What [last_densened_vis_line_by_branch_id[branch_id]] finds is the line
    of the branch in the commit before, or nothing; were it an object or a
    string of [Object.prototype], its [x0] would be undefined, [last_xce]
    NaN, and the writes on it without effect on any line. *)
Definition finalize_line (last_densened : JS.record addr)
    (heap : list VisLine.t) (entry : string * addr) : list VisLine.t :=
  let (branch_id, a) := entry in
  let heap := update heap a with_defaults in
  match deref heap a with
  | None => heap
  | Some vis_line =>
      let xcs := control_start (VisLine.x0 vis_line) (VisLine.xn vis_line) in
      match JS.get (Prototype.added p) last_densened branch_id with
      | JS.Own la =>
          match deref heap la with
          | None => heap
          | Some last_vis_line =>
              let last_xce := control_end (VisLine.x0 last_vis_line) (VisLine.xn last_vis_line) in
              let middle_x := middle_of xcs last_xce in
              update (update heap la (join_last middle_x last_xce)) a (join_this middle_x xcs)
          end
      | JS.Inherited | JS.Added _ =>
          let last_xce := JS.Num nan in
          update heap a (join_this (middle_of xcs last_xce) xcs)
      | JS.Absent => update heap a first_appearance
      end
  end.

(** The comparator of the sort of a commit's lines is positive:
    [(b.xcs || 0) + (b.xce || 0) - (a.xcs || 0) - (a.xce || 0)]. *)
Definition paints_later (heap : list VisLine.t) (a b : addr) : bool :=
  let cs (x : addr) := JS.or_zero (match deref heap x with Some l => VisLine.xcs l | None => None end) in
  let ce (x : addr) :=
    JS.or_zero (match deref heap x with Some l => VisLine.read_xce p l | None => None end) in
  (0 <? JS.sub (JS.Num (JS.sub (JS.add (cs b) (ce b)) (cs a))) (ce a))%float.
End Lines.

Definition finalize_lines (st : State) : list VisLine.t :=
  fold_left (finalize_line (object_prototype st) (last_densened_vis_line_by_branch_id st))
    (densened_vis_line_by_branch_id st) (line_heap st).

(** The [if (subject)] block. *)
Definition close_commit (row_no : nat) (commit_branch : option addr)
    (hash_long hash author_name author_email datetime : string)
    (refs : list GitRef.t) (subject : string) (st : State) : State :=
  let heap := finalize_lines st in
  let commit :=
    Commit.mk row_no
      (JS.sort (paints_later (object_prototype st) heap)
         (JS.values (densened_vis_line_by_branch_id st)))
      commit_branch hash_long hash author_name author_email datetime refs subject false in
  with_densened []
    (with_last_densened (densened_vis_line_by_branch_id st)
       (with_commits (commits st ++ [commit])
          (with_line_heap heap st))).
End Finalize.

(** ** A row of the log *)

(** The message of the error that an unknown graph character raises. *)
Definition git_log_error (row_no : nat) : string :=
  let q := String "034" EmptyString in
  ("Could not parse output of GIT LOG (line:" ++ JS.string_of_Z (Z.of_nat row_no)
   ++ "). Did you change the command by hand? Please in the main view at the top left, click "
   ++ q ++ "Configure" ++ q ++ ", then at the top right click " ++ q ++ "Reset" ++ q
   ++ ", then " ++ q ++ "Save" ++ q
   ++ " and try again. If this didn't help, it might be a bug! Please open up a GitHub issue.")%string.

(** A field of a split row, the empty string where the row has none. *)
Definition field (fields : list string) (n : nat) : string := nth n fields EmptyString.

Definition has_unknown_char (vis_chars : list ascii) : bool :=
  existsb (fun v => negb (includes graph_chars v)) vis_chars.

(** The graph characters of a row: its first field without trailing white space. *)
Definition vis_chars_of (separator row : string) : list ascii :=
  list_ascii_of_string (JS.trimEnd (field (JS.split row separator) 0)).

(** The body of the loop over the rows. *)
Definition parse_row (separator : string) (curve_radius : float)
    (st : State) (entry : nat * string) : exn + State :=
  let (row_no, row) := entry in
  if String.eqb row "... " then inr st
  else
    let fields := JS.split row separator in
    let vis_str := field fields 0 in
    let hash_long := field fields 1 in
    let hash := field fields 2 in
    let author_name := field fields 3 in
    let author_email := field fields 4 in
    let iso_datetime := field fields 5 in
    let refs_csv := field fields 6 in
    let subject := field fields 7 in
    let refs := resolve_refs st refs_csv in
    let branch_tip := branch_tip_of st refs in
    let vis_chars := list_ascii_of_string (JS.trimEnd vis_str) in
    if has_unknown_char vis_chars then inl (Error (git_log_error row_no))
    else
      let datetime := JS.slice_to 19 iso_datetime in
      match scan_row vis_chars branch_tip st with
      | inl e => inl e
      | inr sc =>
          let st' :=
            if JS.truthy subject
            then close_commit curve_radius row_no (commit_branch sc)
                   hash_long hash author_name author_email datetime refs subject (state sc)
            else state sc in
          inr (with_last_vis (vis sc) st')
      end.

Definition parse_rows (separator : string) (curve_radius : float)
    (log_data : string) (st : State) : exn + State :=
  fold_exn (parse_row separator curve_radius) (entries (JS.split log_data NL)) st.

(** ** Colours, the branch listing and the stashes *)

Section Parse.
(** [colors[Math.abs(name.hashCode() % colors.length)]]: the palette
    [./colors.js] and [hashCode] are not among the sources; the colour they
    give a name is a parameter. *)
Variable palette : string -> option string.

Definition color_of (branch_name : string) : option string :=
  if String.eqb branch_name "master" || String.eqb branch_name "main" then Some "#ff3333"
  else if String.eqb branch_name "development" || String.eqb branch_name "develop"
          || String.eqb branch_name "dev" then Some "#009000"
  else if String.eqb branch_name "stage" || String.eqb branch_name "staging"
          || String.eqb branch_name "production" then Some "#d7d700"
  else palette branch_name.

Definition assign_colors (registry : list addr) (heap : list Branch.t) : list Branch.t :=
  fold_left (fun h b => update h b (fun o => Branch.set_color (color_of (Branch.name o)) o))
    registry heap.

Definition is_inferred (heap : list Branch.t) (b : addr) : bool :=
  match deref heap b with
  | Some o => Branch.inferred o
  | None => false
  end.

(** [branches.filter(...).sort(git_ref_sort).slice(0, 10000)] *)
Definition list_branches (heap : list Branch.t) (registry : list addr) : list addr :=
  firstn (Z.to_nat 10000)
    (sort_refs (branch_id heap) (filter (fun b => negb (is_inferred heap b)) registry)).

Definition stash_ref (name : string) : GitRef.t :=
  GitRef.of_object (GitRef.mk name name (Some "#fff") type_stash).

(** [commits.find(...)] as the index of the commit found. *)
Fixpoint find_commit (hash : string) (commits : list Commit.t) : option nat :=
  match commits with
  | [] => None
  | c :: commits' =>
      if String.eqb (Commit.hash c) hash then Some O
      else option_map S (find_commit hash commits')
  end.

(** One turn of the loop over the lines of [stash_data]. *)
Definition attach_stash (commits : list Commit.t) (stash : string) : list Commit.t :=
  let split := JS.split stash " " in
  let name := JS.join (skipn 1 split) " " in
  match nth_error split 0 with
  | Some hash =>
      match find_commit hash commits with
      | Some k => update commits k (Commit.push_ref (stash_ref name))
      | None => commits
      end
  | None => commits
  end.

Definition attach_stashes (stash_data : string) (commits : list Commit.t) : list Commit.t :=
  fold_left attach_stash (JS.split stash_data NL) commits.

(** What [parse] returns, with the heaps its addresses point into. *)
Record Output : Type := mkOutput {
  out_commits : list Commit.t;
  out_branches : list addr;
  out_branch_heap : list Branch.t;
  out_line_heap : list VisLine.t;
  out_object_prototype : Prototype.t    (* Object.prototype as the run leaves it *)
}.

Definition finish (stash_data : string) (st : State) : Output :=
  let heap := assign_colors (branches st) (branch_heap st) in
  mkOutput
    (attach_stashes stash_data (commits st))
    (list_branches heap (branches st))
    heap
    (line_heap st)
    (object_prototype st).

Definition parse (log_data branch_data stash_data separator : string) (curve_radius : float)
    : exn + Output :=
  match build_registry branch_data separator with
  | inl e => inl e
  | inr st =>
      match parse_rows separator curve_radius log_data st with
      | inl e => inl e
      | inr st' => inr (finish stash_data st')
      end
  end.
End Parse.

(** ** Predicates of the statements *)

(** [c] occurs in [s]. *)
Fixpoint mentions (c : ascii) (s : string) : bool :=
  match s with
  | EmptyString => false
  | String d s' => Ascii.eqb c d || mentions c s'
  end.

(** The comparator says that [a] goes before [b], or that their order is free. *)
Definition sorts_before {R : Type} (id : R -> string) (a b : R) : Prop :=
  git_ref_sort id a b <= 0.

(** The class of a ref in the comparator: whether it is a tag, and whether
    its id starts with "refs/". *)
Definition same_class {R : Type} (id : R -> string) (a b : R) : Prop :=
  JS.startsWith (id a) "tag: " = JS.startsWith (id b) "tag: "
  /\ JS.startsWith (id a) "refs/" = JS.startsWith (id b) "refs/".

(** The ids of the refs of the commits of an output, and of its branches. *)
Definition ref_ids_of (out : Output) : list (list string) :=
  map (fun c => map (ref_id (out_branch_heap out)) (Commit.refs c)) (out_commits out).

Definition branch_ids_of (out : Output) : list string :=
  map (branch_id (out_branch_heap out)) (out_branches out).

(** The synthetic id of a branch inferred from a merge subject: what the
    subject names, and the counter of the registry. *)
Definition synthetic_id (captured : string) (st : State) : string :=
  (captured ++ "~" ++ registry_counter st)%string.

(** The id of an inferred branch that no merge subject names. *)
Definition anonymous_id (st : State) : string := ("~" ++ registry_counter st)%string.

(** A branch is anonymous: its name and its id are the bare counter. *)
Definition is_anonymous (st : State) (branch : Branch.t) : Prop :=
  Branch.name branch = anonymous_id st
  /\ Branch.id branch = anonymous_id st
  /\ Branch.remote_name branch = None.

(** A branch is named after what a merge subject captures: its synthetic id
    is split at the slashes into the remote part and the name. *)
Definition is_named_after (captured : string) (st : State) (branch : Branch.t) : Prop :=
  let synthetic := synthetic_id captured st in
  (Branch.id branch = synthetic \/ synthetic = ("/" ++ Branch.id branch)%string)
  /\ exists parts,
       JS.split synthetic "/" = parts ++ [Branch.name branch]
       /\ Branch.remote_name branch = Some (JS.join parts "/").

(** A line is one of the lines of some commit of [cs]. *)
Definition scanned_by (a : addr) (cs : list Commit.t) : bool :=
  existsb (fun c => existsb (Nat.eqb a) (Commit.vis_lines c)) cs.

(** The lines collected for the commit in progress and the lines of the last
    commit are objects of the heap, each under one key, and no object is in
    both records; the lines of the last commit are lines it lists. *)
Definition wf_lines (st : State) : Prop :=
  let densened := densened_vis_line_by_branch_id st in
  let last_densened := last_densened_vis_line_by_branch_id st in
  NoDup (map fst densened)
  /\ NoDup (map snd densened)
  /\ NoDup (map snd last_densened)
  /\ (forall a, In a (map snd densened) -> (a < List.length (line_heap st))%nat)
  /\ (forall a, In a (map snd last_densened) -> (a < List.length (line_heap st))%nat)
  /\ (forall a, In a (map snd densened) -> ~ In a (map snd last_densened))
  /\ (forall c, JS.at_last (commits st) = Some c ->
                forall a, In a (map snd last_densened) -> In a (Commit.vis_lines c)).

(** The registry holds each branch once, and only objects of the heap. *)
Definition wf_registry (st : State) : Prop :=
  NoDup (branches st)
  /\ forall b, In b (branches st) -> (b < List.length (branch_heap st))%nat.

(** A row closes a commit: it is not the skipped row, and its eighth field,
    the subject, is not empty. *)
Definition has_subject (separator row : string) : bool :=
  negb (String.eqb row "... ") && JS.truthy (field (JS.split row separator) 7).

(** ** Predicates of the further properties *)

(** The Branch that a line of [branch_data] stands for.  A ref under
    "refs/heads/" is a local branch, named by what follows these eleven
    characters.  Every other ref loses its first thirteen characters, those
    of "refs/remotes/", and what is left is cut at its first slash into the
    remote and the name; with no slash the name is empty. *)
Definition registered_from (separator branch_line : string) (branch : Branch.t) : Prop :=
  exists ref_name,
    nth_error (JS.split branch_line separator) 1 = Some ref_name
    /\ Branch.color branch = None
    /\ Branch.type branch = type_branch
    /\ Branch.inferred branch = false
    /\ if JS.startsWith ref_name "refs/heads/"
       then Branch.name branch = JS.slice_from 11 ref_name
            /\ Branch.id branch = Branch.name branch
            /\ Branch.remote_name branch = None
            /\ Branch.tracking_remote_name branch
               = nth_error (JS.split branch_line separator) 0
       else Branch.tracking_remote_name branch = None
            /\ exists remote,
                 Branch.remote_name branch = Some remote
                 /\ mentions "/" remote = false
                 /\ ((JS.slice_from 13 ref_name = (remote ++ "/" ++ Branch.name branch)%string
                      /\ Branch.id branch
                         = if JS.truthy remote then JS.slice_from 13 ref_name
                           else Branch.name branch)
                     \/ (JS.slice_from 13 ref_name = remote
                         /\ Branch.name branch = EmptyString
                         /\ Branch.id branch
                            = if JS.truthy remote then (remote ++ "/")%string
                              else EmptyString)).

(** The Branch of the checked-out commit, which closes the registry. *)
Definition head_branch : Branch.t :=
  Branch.mk "HEAD" None type_branch None None "HEAD" false.

(** The names that the decoration field of a row lists: its parts between
    ", ", and of a part "a -> b" what the arrow points at. *)
Definition named_in (refs_csv name : string) : Prop :=
  exists part,
    In part (JS.split refs_csv ", ")
    /\ name = JS.or_else (nth_error (JS.split part " -> ") 1) part.

(** Branches listed on two lines, one of them with the branch it tracks. *)
Definition tracked_branches : string :=
  ("origin/master" ++ String "001" "refs/heads/master" ++ NL
   ++ String "001" "refs/remotes/origin/master")%string.

(** What a commit holds of the fields of its row. *)
Definition row_fields (c : Commit.t) : nat * list string :=
  (Commit.i c,
   [Commit.hash_long c; Commit.hash c; Commit.author_name c; Commit.author_email c;
    Commit.datetime c; Commit.subject c]).

(** The number of a row, and its fields after the graph characters: the two
    hashes, the name and the address of the author, the first nineteen
    characters of the date, and the subject. *)
Definition fields_of_row (separator : string) (entry : nat * string) : nat * list string :=
  let fields := JS.split (snd entry) separator in
  (fst entry,
   [field fields 1; field fields 2; field fields 3; field fields 4;
    JS.slice_to 19 (field fields 5); field fields 7]).

(** [c'] is the commit [c], but for the merge flag that may have been set. *)
Definition merge_noted (c c' : Commit.t) : Prop :=
  c' = c \/ c' = Commit.set_merge true c.

(** While the rows are read, the Branch objects that the registry was built
    with stay as they are; every object made later is flagged inferred, and no
    object has a colour. *)
Definition rows_keep (heap0 : list Branch.t) (st : State) : Prop :=
  firstn (List.length heap0) (branch_heap st) = heap0
  /\ (List.length heap0 <= List.length (branch_heap st))%nat
  /\ (forall b o, (List.length heap0 <= b)%nat -> deref (branch_heap st) b = Some o ->
                  Branch.inferred o = true)
  /\ (forall b o, deref (branch_heap st) b = Some o -> Branch.color o = None).

(** A field of an object is defined. *)
Definition defined {A} (o : option A) : bool :=
  match o with
  | Some _ => true
  | None => false
  end.

(** A line has an owner; the scan and the defaults have given it its ends;
    it has all that is drawn: both ends, both control points and the owner.
    [xce] is read as the code reads it, from [Object.prototype] where the
    line has none of its own. *)
Definition owned (l : VisLine.t) : bool := defined (VisLine.branch l).

Definition ends_defined (p : Prototype.t) (l : VisLine.t) : bool :=
  defined (VisLine.y0 l) && defined (VisLine.yn l)
  && defined (VisLine.read_xce p l) && defined (VisLine.yce l) && owned l.

Definition fully_defined (p : Prototype.t) (l : VisLine.t) : bool :=
  defined (VisLine.y0 l) && defined (VisLine.yn l)
  && defined (VisLine.xcs l) && defined (VisLine.ycs l)
  && defined (VisLine.read_xce p l) && defined (VisLine.yce l) && owned l.

(** The object at [a] is a line for which [q] holds. *)
Definition line_has (q : VisLine.t -> bool) (heap : list VisLine.t) (a : addr) : Prop :=
  exists l, deref heap a = Some l /\ q l = true.

(** The lines of the closed commits have all that is drawn; the lines
    collected for the commit in progress are lines of no closed commit, and
    have an owner. *)
Definition lines_ready (st : State) : Prop :=
  wf_lines st
  /\ (forall c a, In c (commits st) -> In a (Commit.vis_lines c) ->
                  line_has (fully_defined (object_prototype st)) (line_heap st) a)
  /\ (forall a, In a (map snd (densened_vis_line_by_branch_id st)) ->
                line_has owned (line_heap st) a
                /\ forall c, In c (commits st) -> ~ In a (Commit.vis_lines c)).

(** The lines are ready, and no line is listed twice by the closed commits:
    not twice by one commit, and not by two commits. *)
Definition lines_apart (st : State) : Prop :=
  lines_ready st
  /\ NoDup (List.concat (map Commit.vis_lines (commits st))).

(** The labels of the stash lines that find the commit at [k]: a line finds
    the first commit whose hash is its first word, and its label is what
    follows the first space. *)
Definition stash_labels_for (cs : list Commit.t) (k : nat) (stash_lines : list string)
    : list string :=
  flat_map
    (fun stash =>
       let split := JS.split stash " " in
       match nth_error split 0 with
       | Some hash =>
           match find_commit hash cs with
           | Some j => if Nat.eqb j k then [JS.join (skipn 1 split) " "] else []
           | None => []
           end
       | None => []
       end)
    stash_lines.

(** The cells of a row that has been scanned: there is a cell at every index
    below the length, and the first cell is neither a dot nor a dash. *)
Definition solid (lv : Vis.t) : Prop :=
  (forall j, (j < List.length lv)%nat -> exists cell, nth_error lv j = Some (Some cell))
  /\ char_is (JS.get_index lv 0) "." = false
  /\ char_is (JS.get_index lv 0) "-" = false.

(** Every line of [branch_data] has a second field, the ref path. *)
Definition well_formed_branch_data (separator branch_data : string) : bool :=
  forallb (fun branch_line => defined (nth_error (JS.split branch_line separator) 1))
    (JS.split branch_data NL).

(** The graph characters of every row but the skipped one are graph
    characters, and the first of them is neither a dot nor a dash. *)
Definition well_formed_row (separator row : string) : bool :=
  String.eqb row "... "
  || (negb (has_unknown_char (vis_chars_of separator row))
      && match vis_chars_of separator row with
         | c :: _ => negb (Ascii.eqb c "." || Ascii.eqb c "-")
         | [] => true
         end).

Definition well_formed_log (separator log_data : string) : bool :=
  forallb (well_formed_row separator) (JS.split log_data NL).

(** No line is collected under a name that every object inherits. *)
Definition own_keys_only (st : State) : Prop :=
  forall key, In key (map fst (densened_vis_line_by_branch_id st)) ->
              JS.is_inherited key = false.

(** The branches of the cells of a row are among the first [n] objects. *)
Definition cells_valid (n : nat) (v : Vis.t) : Prop :=
  forall cell b, In (Some cell) v -> Vis.branch cell = Some b -> (b < n)%nat.

(** Every line collected for the commit in progress is under the id of its
    owner. *)
Definition keyed (st : State) : Prop :=
  forall key a,
    In (key, a) (densened_vis_line_by_branch_id st) ->
    exists l b,
      deref (line_heap st) a = Some l
      /\ VisLine.branch l = Some b
      /\ (b < List.length (branch_heap st))%nat
      /\ branch_id (branch_heap st) b = key.

(** What holds of a state between two rows, and while a row is scanned. *)
Definition row_ready (st : State) : Prop :=
  lines_ready st
  /\ wf_registry st
  /\ cells_valid (List.length (branch_heap st)) (last_vis st)
  /\ keyed st.

(** A key under which no object finds anything on [Object.prototype]: it is
    no name of a built-in property, and neither of the two names that a run
    may add. *)
Definition never_inherited (key : string) : bool :=
  negb (JS.is_inherited key) && negb (String.eqb key "xn") && negb (String.eqb key "xce").

(** [b] has a line among those collected, unless its id may be inherited. *)
Definition has_line (st : State) (b : addr) : Prop :=
  (b < List.length (branch_heap st))%nat
  /\ (never_inherited (branch_id (branch_heap st) b) = true ->
      exists a, In (branch_id (branch_heap st) b, a) (densened_vis_line_by_branch_id st)).

Definition scan_ready (tip : option addr) (sc : Scan) : Prop :=
  row_ready (state sc)
  /\ cells_valid (List.length (branch_heap (state sc))) (vis sc)
  /\ (forall t, tip = Some t -> (t < List.length (branch_heap (state sc)))%nat)
  /\ (forall b, commit_branch sc = Some b -> has_line (state sc) b).

(** From [st] to [st'] the heap of the branches has grown at its end, and the
    lines collected are the same. *)
Definition grown (st st' : State) : Prop :=
  (exists added, branch_heap st' = branch_heap st ++ added)
  /\ densened_vis_line_by_branch_id st' = densened_vis_line_by_branch_id st
  /\ last_vis st' = last_vis st.

(** The owner of a line is [b]. *)
Definition owned_by (b : addr) (l : VisLine.t) : bool :=
  match VisLine.branch l with
  | Some b' => Nat.eqb b' b
  | None => false
  end.

(** The cells of some rows, each with the branch it has been given and the
    line of its character, densened one after the other. *)
Definition densen_all (cells : list (Z * addr * VisLine.t)) (st : State) : State :=
  fold_left (fun s cell => densen (fst (fst cell)) (snd (fst cell)) (snd cell) s) cells st.

(** A line as a case of the [switch] leaves it: if it has an [xce], the
    [xce] is not undefined. *)
Definition cell_line (l : VisLine.t) : Prop := VisLine.xce l <> Some None.

(** The line of a cell with the key of its column appended to its
    coordinates, and with the [xce] that is read from it as its own: what
    the line collected for the branch takes its end from. *)
Definition line_end (p : Prototype.t) (i : Z) (l : VisLine.t) : VisLine.t :=
  VisLine.set_xce (VisLine.read_xce p (shift p i l)) (shift p i l).

(** The end of the last of the cells whose branch has the id [key];
    [first] when there is none. *)
Definition last_for (p : Prototype.t) (key : string) (heap : list Branch.t)
    (cells : list (Z * addr * VisLine.t)) (first : VisLine.t) : VisLine.t :=
  fold_left
    (fun found cell =>
       if String.eqb (branch_id heap (snd (fst cell))) key
       then line_end p (fst (fst cell)) (snd cell)
       else found)
    cells first.

(** No cell is given a branch with the id "__proto__". *)
Definition no_prototype_cell (heap : list Branch.t) (cells : list (Z * addr * VisLine.t)) : Prop :=
  Forall (fun cell => branch_id heap (snd (fst cell)) <> "__proto__") cells.

(** The line of [b] that starts as [first] does and ends as [last] does. *)
Definition spanning (b : addr) (first last : VisLine.t) : VisLine.t :=
  VisLine.mk (VisLine.x0 first) (VisLine.xn last) (VisLine.y0 first) (VisLine.yn first)
    (VisLine.xcs first) (VisLine.ycs first) (VisLine.xce last) (VisLine.yce first) (Some b).

(** ** Inputs of the scenarios *)

Definition SEP : string := String "001" EmptyString.

(** A commit row: the graph characters and the seven fields after them. *)
Definition commit_row (graph hash_long hash refs subject : string) : string :=
  (graph ++ SEP ++ hash_long ++ SEP ++ hash ++ SEP ++ "Alice" ++ SEP ++ "a@x.com" ++ SEP
   ++ "2021-03-02 15:59:43 +0100" ++ SEP ++ refs ++ SEP ++ subject)%string.

(** Scenario A: a single commit. *)
Definition scenario_A_log : string :=
  commit_row "* " "aaaaaaa1234567" "aaaaaaa" "HEAD -> master" "Initial commit".

Definition scenario_A_branches : string := (SEP ++ "refs/heads/master")%string.

(** A palette for the inputs that are run: no colour outside the fixed ones. *)
Definition no_palette (branch_name : string) : option string := None.

(** Three rows: a dot, a backslash below and right of it, and a row with a
    character that is no graph character. *)
Definition dot_backslash_log : string := ("." ++ NL ++ " \" ++ NL ++ "#")%string.

(** Two commits, with the hashes "c4" and "c3". *)
Definition two_commits : list Commit.t :=
  [ Commit.mk 0 [] None "c4long" "c4" "Alice" "a@x.com" "2021-03-02 15:59:43" [] "second" false;
    Commit.mk 1 [] None "c3long" "c3" "Alice" "a@x.com" "2021-03-01 10:00:00" [] "first" false ].

(** Two local branches whose names have one and two slashes, and a commit
    that both and a tag point at. *)
Definition slash_names_branches : string :=
  (SEP ++ "refs/heads/ab/c" ++ NL ++ SEP ++ "refs/heads/a/b/c")%string.

Definition slash_names_log : string :=
  commit_row "* " "c1long" "c1" "ab/c, a/b/c, tag: v1" "tip".

(** A merge commit, the row below it on which the merged branch leaves, and
    a commit of the merged branch. *)
Definition merge_log : string :=
  (commit_row "*   " "c4long" "c4" "HEAD -> master" "Merge branch 'feature'" ++ NL
   ++ "|\  " ++ NL
   ++ commit_row "| * " "c3long" "c3" "" "work")%string.

(** Scenario B as the specification words it: a row "| |/ " and, right
    after it, the row of a commit with a merge subject. *)
Definition scenario_B_log : string :=
  (commit_row "* | | " "c5long" "c5" "" "newest" ++ NL
   ++ "| |/ " ++ NL
   ++ commit_row "* | " "c4long" "c4" "HEAD -> master" "Merge branch 'feature'")%string.

(** The state in which the second row of [merge_log] is scanned. *)
Definition after_merge_commit_row : State :=
  Eval vm_compute in
    match build_registry scenario_A_branches SEP with
    | inr st0 =>
        match parse_row SEP 0.25%float st0
                (0%nat, commit_row "*   " "c4long" "c4" "HEAD -> master" "Merge branch 'feature'") with
        | inr st => st
        | inl _ => initial_state
        end
    | inl _ => initial_state
    end.

(** The branches "master" and "feature". *)
Definition two_branches : string :=
  (SEP ++ "refs/heads/master" ++ NL ++ SEP ++ "refs/heads/feature")%string.

(** A merge commit, the marker below it, a commit on the first lane while the
    merged branch runs on, and a row on which the merged branch moves right. *)
Definition repair_log : string :=
  (commit_row "*   " "c4long" "c4" "HEAD -> master" "Merge branch 'feature'" ++ NL
   ++ "|\  " ++ NL
   ++ commit_row "* | " "c3long" "c3" "" "on master" ++ NL
   ++ "|  \ ")%string.

(** The state in which the row after [repair_log] is scanned. *)
Definition before_tip_row : State :=
  Eval vm_compute in
    match build_registry two_branches SEP with
    | inr st0 =>
        match parse_rows SEP 0.25%float repair_log st0 with
        | inr st => st
        | inl _ => initial_state
        end
    | inl _ => initial_state
    end.

(** Two commits on the branch "master". *)
Definition two_commit_log : string :=
  (commit_row "* " "c2long" "c2" "HEAD -> master" "second" ++ NL
   ++ commit_row "* " "c1long" "c1" "" "first")%string.

(** The branches "master" and "topic". *)
Definition topic_branches : string :=
  (SEP ++ "refs/heads/master" ++ NL ++ SEP ++ "refs/heads/topic")%string.

(** A merge of "topic", a merge of "develop" below it, the tip of "topic",
    and a second merge of "develop". *)
Definition counter_reuse_log : string :=
  (commit_row "*   " "c5long" "c5" "HEAD -> master" "Merge branch 'topic'" ++ NL
   ++ "|\  " ++ NL
   ++ commit_row "* |   " "c4long" "c4" "" "Merge branch 'develop'" ++ NL
   ++ "|\ \  " ++ NL
   ++ commit_row "| | * " "c3long" "c3" "topic" "t1" ++ NL
   ++ commit_row "* | | " "c2long" "c2" "" "Merge branch 'develop'" ++ NL
   ++ "|\ \ \  ")%string.

(** What [parse] returns on [merge_log]. *)
Definition merge_log_output : Output :=
  Eval vm_compute in
    match parse no_palette merge_log scenario_A_branches EmptyString SEP 0.25%float with
    | inr out => out
    | inl _ => mkOutput [] [] [] [] (Prototype.mk None None)
    end.

(** Branches "master", "topic" and "other". *)
Definition three_branches : string :=
  (SEP ++ "refs/heads/master" ++ NL ++ SEP ++ "refs/heads/topic" ++ NL
   ++ SEP ++ "refs/heads/other")%string.

(** A merge commit, its marker, a row on which the merged branch moves right,
    the tip of "topic" next to a pipe that carries the merged branch on, and a
    row on which the merged branch moves right again. *)
Definition second_repair_log : string :=
  (commit_row "*   " "c4long" "c4" "HEAD -> master" "Merge branch 'x'" ++ NL
   ++ "|\  " ++ NL
   ++ "| \ " ++ NL
   ++ commit_row "| |*" "c3long" "c3" "topic" "on topic" ++ NL
   ++ "|  \")%string.

(** The state in which the row after [second_repair_log] is scanned. *)
Definition before_second_repair : State :=
  Eval vm_compute in
    match build_registry three_branches SEP with
    | inr st0 =>
        match parse_rows SEP 0.25%float second_repair_log st0 with
        | inr st => st
        | inl _ => initial_state
        end
    | inl _ => initial_state
    end.

(** The registry of Scenario A, and the state after its row. *)
Definition scenario_A_registry : State :=
  Eval vm_compute in
    match build_registry scenario_A_branches SEP with
    | inr st => st
    | inl _ => initial_state
    end.

Definition scenario_A_parsed : State :=
  Eval vm_compute in
    match parse_row SEP 0.25%float scenario_A_registry (0%nat, scenario_A_log) with
    | inr st => st
    | inl _ => initial_state
    end.

(** A branch with the name of a property that every object inherits, and a
    commit at its tip. *)
Definition constructor_branches : string := (SEP ++ "refs/heads/constructor")%string.

Definition constructor_log : string :=
  commit_row "* " "c1long" "c1" "HEAD -> constructor" "tip".

Definition constructor_registry : State :=
  Eval vm_compute in
    match build_registry constructor_branches SEP with
    | inr st => st
    | inl _ => initial_state
    end.

(** The branches "__proto__" and "xn", and a commit at the tip of each. *)
Definition proto_branches : string :=
  (SEP ++ "refs/heads/__proto__" ++ NL ++ SEP ++ "refs/heads/xn")%string.

Definition proto_log : string :=
  (commit_row "* " "c2long" "c2" "HEAD -> __proto__" "second" ++ NL
   ++ commit_row "* " "c1long" "c1" "xn" "first")%string.

Definition proto_registry : State :=
  Eval vm_compute in
    match build_registry proto_branches SEP with
    | inr st => st
    | inl _ => initial_state
    end.

(** The cells of a row that has been scanned down to a pipe in column [k],
    which belongs to no branch. *)
Definition pipe_at (k : nat) : Vis.t := JS.set_index [] k (Vis.mk "|" None).

(** * Properties *)

(** ** Numbers and their strings *)

(** [String(x)] on numbers of each notation, and on the offsets of the
    cells. *)
Lemma number_to_string_examples :
  map JS.number_to_string
    [0.5; 1; -0.5; 0; -0; 2.5; 100; 1e21; 1e22; 1 / 10; 1 / 3; 1 / 10000000;
     infinity; neg_infinity; nan]%float
  = ["0.5"; "1"; "-0.5"; "0"; "0"; "2.5"; "100"; "1e+21"; "1e+22"; "0.1";
     "0.3333333333333333"; "1e-7"; "Infinity"; "-Infinity"; "NaN"].
Proof. vm_compute. reflexivity. Qed.

(** [Number(s)] on literals, and on strings that are none. *)
Lemma string_to_number_examples :
  map JS.string_to_number
    ["0.50"; "0.500"; "-0.51"; ""; " 12 "; "1e3"; ".5"; "5."; "0x1F"; "Infinity";
     "0.5000.500"; "13-2.5"; "1e"; "0.50NaN"]
  = [0.5; 0.5; -51 / 100; 0; 12; 1000; 0.5; 5; 31; infinity; nan; nan; nan; nan]%float.
Proof. vm_compute. reflexivity. Qed.

(** [+] on a number and a key, on two strings, and on two numbers; [>] on
    two strings and on a string and a number. *)
Lemma add_and_greater_examples :
  JS.add (JS.Num 0.5) (JS.Str (JS.key 0)) = JS.Str "0.50"
  /\ JS.add (JS.Num 1) (JS.Str (JS.key 12)) = JS.Str "112"
  /\ JS.add (JS.Str "0.50") (JS.Num 0) = JS.Str "0.500"
  /\ JS.add (JS.Num 0.5) (JS.Num 1) = JS.Num 1.5
  /\ JS.greater (JS.Str "0.52") (JS.Str "-0.51") = true
  /\ JS.greater (JS.Str "10") (JS.Str "9") = false
  /\ JS.greater (JS.Str "10") (JS.Num 9) = true.
Proof. repeat split; vm_compute; reflexivity. Qed.

(** A key that is read as an index: the key of column 1 followed by 1 is that
    of column 11, and the key of column 0 followed by 1 is no index. *)
Lemma key_examples :
  (JS.key 1 ++ "1")%string = JS.key 11
  /\ JS.array_index (JS.key 1 ++ "1") = Some 11%N
  /\ JS.array_index (JS.key 12 ++ "2") = Some 122%N
  /\ (JS.key 0 ++ "1")%string = "01"
  /\ JS.array_index (JS.key 0 ++ "1") = None.
Proof. repeat split. Qed.

(** ** Scenario A *)

(** C1. On the input of Scenario A, whatever the palette, [parse] returns one
    commit with hash "aaaaaaa" whose branch is named "master", with exactly
    one VisLine, and a branches list that holds "master", coloured "#ff3333",
    and the "HEAD" checkout pseudo-branch.  The line has y0 = 0.5, but its x0
    and its xn are not the number 0.5: [x0 += i] appends the key "0" of the
    column to the string of 0.5, and both are the string "0.50". *)
Theorem scenario_A_coordinates_are_strings (palette : string -> option string) :
  exists out c l master head,
    parse palette scenario_A_log scenario_A_branches EmptyString SEP 0.25%float = inr out
    /\ out_commits out = [c]
    /\ Commit.hash c = "aaaaaaa"
    /\ option_map Branch.name
         (match Commit.branch c with Some b => deref (out_branch_heap out) b | None => None end)
       = Some "master"
    /\ map (deref (out_line_heap out)) (Commit.vis_lines c) = [Some l]
    /\ VisLine.x0 l = JS.Str "0.50" /\ VisLine.xn l = JS.Str "0.50"
    /\ VisLine.x0 l <> JS.Num 0.5 /\ VisLine.xn l <> JS.Num 0.5
    /\ VisLine.y0 l = Some 0.5%float
    /\ map (deref (out_branch_heap out)) (out_branches out) = [Some master; Some head]
    /\ Branch.name master = "master" /\ Branch.color master = Some "#ff3333"
    /\ Branch.name head = "HEAD" /\ Branch.id head = "HEAD".
Proof.
  eexists; eexists; eexists; eexists; eexists.
  split; [vm_compute; reflexivity|].
  cbn [out_commits out_branches out_branch_heap out_line_heap].
  split; [reflexivity|].
  repeat split; try (vm_compute; reflexivity); vm_compute; discriminate.
Qed.

(** ** Loops that a throw leaves *)

Section FoldExn.
Context {A S : Type} (f : S -> A -> exn + S).

Lemma fold_exn_app (l1 l2 : list A) (s : S) :
  fold_exn f (l1 ++ l2) s =
  match fold_exn f l1 s with
  | inl e => inl e
  | inr s' => fold_exn f l2 s'
  end.
Proof.
  revert s; induction l1 as [|x l1 IH]; intros s; simpl; [reflexivity|].
  destruct (f s x); [reflexivity|apply IH].
Qed.

(** An element on which the body always throws stops the loop, with its
    error or with one thrown before it. *)
Lemma fold_exn_throws (l : list A) (x : A) (s : S) :
  In x l -> (forall s', exists e, f s' x = inl e) ->
  exists e s' y, In y l /\ f s' y = inl e /\ fold_exn f l s = inl e.
Proof.
  intros Hin Hx; revert s; induction l as [|y l IH]; intros s; [destruct Hin|].
  simpl. destruct (f s y) as [e|s1] eqn:E.
  - exists e, s, y. auto with datatypes.
  - destruct Hin as [->|Hin].
    + destruct (Hx s) as [e He]. congruence.
    + destruct (IH Hin s1) as (e & s' & z & Hz & Hf & Hfold).
      exists e, s', z. auto with datatypes.
Qed.

(** The error of a loop is the error of one of its turns. *)
Lemma fold_exn_error (l : list A) (s : S) (e : exn) :
  fold_exn f l s = inl e ->
  exists l1 x l2 s', l = l1 ++ x :: l2 /\ fold_exn f l1 s = inr s' /\ f s' x = inl e.
Proof.
  revert s; induction l as [|y l IH]; intros s; simpl; [discriminate|].
  destruct (f s y) as [e'|s1] eqn:E.
  - intros [= ->]. exists [], y, l, s. auto.
  - intros H. destruct (IH _ H) as (l1 & x & l2 & s' & -> & Hl1 & Hx).
    exists (y :: l1), x, l2, s'. simpl. rewrite E. auto.
Qed.

Lemma fold_exn_ok_all (l : list A) (s s' : S) (x : A) :
  fold_exn f l s = inr s' -> In x l -> exists s1 s2, f s1 x = inr s2.
Proof.
  revert s; induction l as [|y l IH]; intros s; simpl; [intros _ []|].
  destruct (f s y) as [e|s1] eqn:E; [discriminate|].
  intros H [->|Hin]; eauto.
Qed.
End FoldExn.

(** ** Strings *)

Lemma prefix_split (p s : string) :
  String.prefix p s = true -> exists rest, s = (p ++ rest)%string.
Proof.
  revert s; induction p as [|c p IH]; intros s H.
  - exists s. reflexivity.
  - destruct s as [|d s]; simpl in H; [discriminate|].
    destruct (Ascii.ascii_dec c d) as [->|]; [|discriminate].
    destruct (IH _ H) as [rest ->]. exists rest. reflexivity.
Qed.

(** A string in which the separator does not occur is split into itself. *)
Lemma split_pieces_whole (sep s : string) :
  (forall a b, s <> (a ++ sep ++ b)%string) -> JS.split_pieces sep 0 s = (s, []).
Proof.
  induction s as [|c s IH]; intros H; [reflexivity|].
  cbn [JS.split_pieces].
  destruct (String.prefix sep (String c s)) eqn:E.
  - apply prefix_split in E. destruct E as [rest E].
    exfalso. apply (H EmptyString rest). exact E.
  - rewrite IH; [reflexivity|].
    intros a b ->. apply (H (String c a) b). reflexivity.
Qed.

Lemma split_whole (sep s : string) :
  sep <> EmptyString -> (forall a b, s <> (a ++ sep ++ b)%string) -> JS.split s sep = [s].
Proof.
  intros Hsep H. unfold JS.split. destruct sep as [|c sep]; [congruence|].
  rewrite split_pieces_whole by exact H. reflexivity.
Qed.

Lemma split_empty_no_second (sep : string) : nth_error (JS.split EmptyString sep) 1 = None.
Proof. destruct sep; reflexivity. Qed.

(** ** The branch registry: lines without a ref path *)

Lemma add_branch_line_error (sep : string) (st : State) (branch_line : string) (e : exn) :
  add_branch_line sep st branch_line = inl e -> e = TypeError undefined_ref_name.
Proof.
  unfold add_branch_line.
  destruct (nth_error (JS.split branch_line sep) 1); [|congruence].
  destruct (JS.startsWith _ _); [discriminate|].
  destruct (JS.split _ _); discriminate.
Qed.

Lemma add_branch_line_ok (sep : string) (st st' : State) (branch_line : string) :
  add_branch_line sep st branch_line = inr st' ->
  exists tracking ref_name rest, JS.split branch_line sep = tracking :: ref_name :: rest.
Proof.
  unfold add_branch_line.
  destruct (JS.split branch_line sep) as [|t [|r rest]]; try discriminate.
  intros _. eauto.
Qed.

Lemma build_registry_throws (branch_data sep branch_line : string) :
  In branch_line (JS.split branch_data NL) ->
  nth_error (JS.split branch_line sep) 1 = None ->
  build_registry branch_data sep = inl (TypeError undefined_ref_name).
Proof.
  intros Hin Hno. unfold build_registry.
  destruct (fold_exn_throws (add_branch_line sep) _ _ initial_state Hin)
    as (e & s' & y & _ & Hy & ->).
  - intros s'. exists (TypeError undefined_ref_name).
    unfold add_branch_line. rewrite Hno. reflexivity.
  - apply add_branch_line_error in Hy. rewrite Hy. reflexivity.
Qed.

(** C10. When some line of [branch_data] gives no ref-path field - as every
    line does in which a non-empty separator does not occur, and as the one
    line of an empty [branch_data] does - [parse] throws while it builds the
    branch registry, on reading [startsWith] of the undefined ref name; this
    is not the error of an unknown graph character.  So [parse] returns only
    when every line of [branch_data] has a tracking field and a ref-path
    field. *)
Theorem branch_line_without_ref_path_throws :
  (forall palette log_data branch_data stash_data separator curve_radius branch_line,
      In branch_line (JS.split branch_data NL) ->
      nth_error (JS.split branch_line separator) 1 = None ->
      build_registry branch_data separator = inl (TypeError undefined_ref_name)
      /\ parse palette log_data branch_data stash_data separator curve_radius
         = inl (TypeError undefined_ref_name))
  /\ (forall separator branch_line,
        separator <> EmptyString ->
        (forall a b, branch_line <> (a ++ separator ++ b)%string) ->
        nth_error (JS.split branch_line separator) 1 = None)
  /\ (forall palette log_data stash_data separator curve_radius,
        parse palette log_data EmptyString stash_data separator curve_radius
        = inl (TypeError undefined_ref_name))
  /\ (forall row_no, TypeError undefined_ref_name <> Error (git_log_error row_no))
  /\ (forall palette log_data branch_data stash_data separator curve_radius out,
        parse palette log_data branch_data stash_data separator curve_radius = inr out ->
        forall branch_line, In branch_line (JS.split branch_data NL) ->
        exists tracking ref_name rest,
          JS.split branch_line separator = tracking :: ref_name :: rest).
Proof.
  split; [|split; [|split; [|split]]].
  - intros palette log_data branch_data stash_data sep r branch_line Hin Hno.
    pose proof (build_registry_throws _ _ _ Hin Hno) as H.
    split; [exact H|]. unfold parse. rewrite H. reflexivity.
  - intros sep branch_line Hsep H. rewrite split_whole by assumption. reflexivity.
  - intros palette log_data stash_data sep r. unfold parse.
    rewrite (build_registry_throws EmptyString sep EmptyString);
      [reflexivity|left; reflexivity|apply split_empty_no_second].
  - intros row_no. discriminate.
  - intros palette log_data branch_data stash_data sep r out H branch_line Hin.
    unfold parse in H. destruct (build_registry branch_data sep) as [e|st] eqn:E; [discriminate|].
    unfold build_registry in E.
    destruct (fold_exn _ _ _) as [e|st0] eqn:F; [discriminate|].
    destruct (fold_exn_ok_all _ _ _ _ _ F Hin) as (s1 & s2 & Hs).
    eapply add_branch_line_ok; eassumption.
Qed.

(** The first part at the line "master" of a one-line [branch_data]. *)
Lemma branch_line_without_ref_path_witness :
  parse no_palette scenario_A_log "master" EmptyString SEP 0.25%float
  = inl (TypeError undefined_ref_name).
Proof.
  refine (proj2 (proj1 branch_line_without_ref_path_throws
                   no_palette scenario_A_log "master" EmptyString SEP 0.25%float "master" _ _)).
  - left; reflexivity.
  - reflexivity.
Defined.

(** ** The closed alphabet *)

Lemma nth_error_entries_from {A} (l : list A) (s n : nat) :
  nth_error (combine (seq s (List.length l)) l) n = option_map (pair (s + n)%nat) (nth_error l n).
Proof.
  revert s n; induction l as [|x l IH]; intros s n; simpl.
  - destruct n; reflexivity.
  - destruct n as [|n]; simpl.
    + rewrite Nat.add_0_r. reflexivity.
    + rewrite IH. rewrite Nat.add_succ_r. reflexivity.
Qed.

Lemma nth_error_entries {A} (l : list A) (n : nat) :
  nth_error (entries l) n = option_map (pair n) (nth_error l n).
Proof. unfold entries. rewrite nth_error_entries_from. reflexivity. Qed.

Lemma in_entries {A} (l : list A) (n : nat) (x : A) :
  In (n, x) (entries l) -> nth_error l n = Some x.
Proof.
  intros H. apply In_nth_error in H. destruct H as [k H].
  rewrite nth_error_entries in H.
  destruct (nth_error l k) eqn:E; simpl in H; [|discriminate].
  injection H as <- <-. exact E.
Qed.

Lemma skipn_nth_error {A} (l : list A) (n : nat) (x : A) :
  nth_error l n = Some x -> skipn n l = x :: skipn (S n) l.
Proof.
  revert n; induction l as [|y l IH]; intros n E.
  - destruct n; discriminate.
  - destruct n as [|n]; simpl in *; [congruence|]. apply IH. exact E.
Qed.

Lemma entries_split_at {A} (l : list A) (n : nat) (x : A) :
  nth_error l n = Some x ->
  entries l = firstn n (entries l) ++ (n, x) :: skipn (S n) (entries l).
Proof.
  intros H.
  assert (E : nth_error (entries l) n = Some (n, x))
    by (rewrite nth_error_entries, H; reflexivity).
  rewrite <- (firstn_skipn n (entries l)) at 1. f_equal.
  apply skipn_nth_error. exact E.
Qed.

(** The scan of a row throws nothing but the TypeError of the dash walk. *)
Lemma scan_cell_error (vis_chars : list ascii) (tip : option addr) (sc : Scan)
    (cell : nat * ascii) (e : exn) :
  scan_cell vis_chars tip sc cell = inl e -> e = TypeError undefined_w_char_match.
Proof.
  unfold scan_cell. destruct cell as [k char].
  destruct (resolve_cell _ _ _ _ _ _) as [e'|r] eqn:E; [|discriminate].
  intros [= <-]. unfold resolve_cell in E.
  repeat match type of E with
         | (if ?b then _ else _) = _ => destruct b; try discriminate
         end.
  unfold case_backslash in E.
  repeat match type of E with
         | (if ?b then _ else _) = _ => destruct b; try discriminate
         | (let (_, _) := ?p in _) = _ => destruct p; try discriminate
         | match ?x with Some _ => _ | None => _ end = _ => destruct x; try discriminate
         end.
  congruence.
Qed.

Lemma scan_row_error (vis_chars : list ascii) (tip : option addr) (st : State) (e : exn) :
  scan_row vis_chars tip st = inl e -> e = TypeError undefined_w_char_match.
Proof.
  unfold scan_row. intros H. apply fold_exn_error in H.
  destruct H as (l1 & x & l2 & s' & _ & _ & H). eapply scan_cell_error; eassumption.
Qed.

(** The skipped row has no character outside the alphabet, whatever the separator. *)
Lemma skipped_row_in_alphabet (sep : string) : has_unknown_char (vis_chars_of sep "... ") = false.
Proof.
  unfold vis_chars_of, JS.split. destruct sep as [|c sep]; [reflexivity|].
  cbn [JS.split_pieces].
  repeat match goal with
         | |- context [if ?b then _ else _] => destruct b; try reflexivity
         | |- context [let (_, _) := ?p in _] => destruct p; try reflexivity
         end.
Qed.

Lemma parse_row_unknown_char (sep : string) (r : float) (st : State) (row_no : nat) (row : string) :
  has_unknown_char (vis_chars_of sep row) = true ->
  parse_row sep r st (row_no, row) = inl (Error (git_log_error row_no)).
Proof.
  intros H. unfold parse_row.
  destruct (String.eqb row "... ") eqn:E.
  - apply String.eqb_eq in E. subst row. rewrite skipped_row_in_alphabet in H. discriminate.
  - unfold vis_chars_of in H. rewrite H. reflexivity.
Qed.

Lemma parse_row_error (sep : string) (r : float) (st : State) (row_no : nat) (row msg : string) :
  parse_row sep r st (row_no, row) = inl (Error msg) ->
  msg = git_log_error row_no /\ has_unknown_char (vis_chars_of sep row) = true.
Proof.
  unfold parse_row, vis_chars_of.
  destruct (String.eqb row "... "); [discriminate|].
  destruct (has_unknown_char _) eqn:E.
  - intros [= <-]. auto.
  - destruct (scan_row _ _ _) as [e|sc] eqn:F; [|discriminate].
    apply scan_row_error in F. congruence.
Qed.

Lemma build_registry_error (branch_data sep : string) (e : exn) :
  build_registry branch_data sep = inl e -> e = TypeError undefined_ref_name.
Proof.
  unfold build_registry. destruct (fold_exn _ _ _) as [e'|st] eqn:E; [|discriminate].
  intros [= <-]. apply fold_exn_error in E.
  destruct E as (l1 & x & l2 & s' & _ & _ & H). eapply add_branch_line_error; eassumption.
Qed.

(** C7, as the code has it.  When the branch registry is built and the rows
    before row [row_no] are processed without an exception, a character
    outside the alphabet in the graph prefix of row [row_no] (its first field,
    trailing white space trimmed) makes [parse] throw the error whose message
    names [row_no]; and whenever [parse] throws that error, it names a row
    whose graph prefix has such a character, so that a row within the
    alphabet never raises it. *)
Theorem unknown_graph_char_is_fatal :
  (forall palette log_data branch_data stash_data separator curve_radius st0 st row_no row,
      build_registry branch_data separator = inr st0 ->
      nth_error (JS.split log_data NL) row_no = Some row ->
      fold_exn (parse_row separator curve_radius)
        (firstn row_no (entries (JS.split log_data NL))) st0 = inr st ->
      has_unknown_char (vis_chars_of separator row) = true ->
      parse palette log_data branch_data stash_data separator curve_radius
      = inl (Error (git_log_error row_no)))
  /\ (forall palette log_data branch_data stash_data separator curve_radius message,
        parse palette log_data branch_data stash_data separator curve_radius
        = inl (Error message) ->
        exists row_no row,
          nth_error (JS.split log_data NL) row_no = Some row
          /\ message = git_log_error row_no
          /\ has_unknown_char (vis_chars_of separator row) = true).
Proof.
  split.
  - intros palette log_data branch_data stash_data sep r st0 st row_no row Hreg Hrow Hbefore Hchar.
    unfold parse, parse_rows. rewrite Hreg.
    rewrite (entries_split_at _ _ _ Hrow), fold_exn_app, Hbefore. cbn [fold_exn].
    rewrite (parse_row_unknown_char _ _ _ _ _ Hchar). reflexivity.
  - intros palette log_data branch_data stash_data sep r message H.
    unfold parse in H.
    destruct (build_registry branch_data sep) as [e|st0] eqn:Hreg.
    + apply build_registry_error in Hreg. congruence.
    + destruct (parse_rows sep r log_data st0) as [e|st] eqn:Hrows; [|discriminate].
      injection H as ->. unfold parse_rows in Hrows. apply fold_exn_error in Hrows.
      destruct Hrows as (l1 & [row_no row] & l2 & s' & Hl & _ & Hx).
      apply parse_row_error in Hx. destruct Hx as [-> Hchar].
      exists row_no, row. repeat split; [|exact Hchar].
      apply in_entries. rewrite Hl. apply in_or_app. right. left. reflexivity.
Qed.

(** The first part at the third row of a log whose first two rows are within
    the alphabet. *)
Lemma unknown_graph_char_witness :
  parse no_palette ("* " ++ NL ++ "| " ++ NL ++ "*#")%string scenario_A_branches EmptyString SEP 0.25%float
  = inl (Error (git_log_error 2)).
Proof.
  refine (proj1 unknown_graph_char_is_fatal no_palette _ _ _ _ _ _ _ 2%nat "*#" _ _ _ _).
  - vm_compute. reflexivity.
  - reflexivity.
  - vm_compute. reflexivity.
  - reflexivity.
Defined.

(** C7 as it is stated fails: a row with a character outside the alphabet,
    and [parse] throws another error, that of the registry on an empty
    [branch_data], or that of the dash walk on an earlier row. *)
Lemma unknown_graph_char_other_error :
  has_unknown_char (vis_chars_of SEP "#") = true
  /\ nth_error (JS.split "#" NL) 0 = Some "#"
  /\ parse no_palette "#" EmptyString EmptyString SEP 0.25%float
     = inl (TypeError undefined_ref_name)
  /\ nth_error (JS.split dot_backslash_log NL) 2 = Some "#"
  /\ parse no_palette dot_backslash_log scenario_A_branches EmptyString SEP 0.25%float
     = inl (TypeError undefined_w_char_match).
Proof. repeat split; vm_compute; reflexivity. Qed.

(** Whether the rows before the row of the unknown character are processed
    is decided by the cells as the code reads them.  A backslash below and
    right of a dot throws although a pipe is its right neighbour, and the row
    "#" is not reached; with a pipe in column 11, which the backslash of
    column 1 reads as [vis[i + 1]], it does not throw, and the row "#" raises
    the error that names it. *)
Lemma backslash_reads_the_key_after_its_column :
  parse no_palette ("." ++ NL ++ " \|" ++ NL ++ "#")%string scenario_A_branches
    EmptyString SEP 0.25%float
  = inl (TypeError undefined_w_char_match)
  /\ parse no_palette ("." ++ NL ++ " \         |" ++ NL ++ "#")%string scenario_A_branches
       EmptyString SEP 0.25%float
     = inl (Error (git_log_error 2)).
Proof. split; vm_compute; reflexivity. Qed.

(** ** Splitting on one character, and joining again *)

Lemma split_pieces_char (c d : ascii) (s : string) :
  JS.split_pieces (String c EmptyString) 0 (String d s) =
  if Ascii.eqb c d
  then (EmptyString, let (p, ps) := JS.split_pieces (String c EmptyString) 0 s in p :: ps)
  else let (p, ps) := JS.split_pieces (String c EmptyString) 0 s in (String d p, ps).
Proof.
  cbn [JS.split_pieces String.prefix String.length Nat.sub].
  destruct (Ascii.ascii_dec c d) as [->|n].
  - rewrite Ascii.eqb_refl. destruct s; reflexivity.
  - apply Ascii.eqb_neq in n. rewrite n. reflexivity.
Qed.

Lemma split_char_prefix (c : ascii) (h l : string) :
  mentions c h = false ->
  JS.split_pieces (String c EmptyString) 0 (h ++ String c l) =
  (h, let (p, ps) := JS.split_pieces (String c EmptyString) 0 l in p :: ps).
Proof.
  induction h as [|d h IH]; intros H.
  - cbn [String.append]. rewrite split_pieces_char, Ascii.eqb_refl. reflexivity.
  - cbn [mentions] in H. apply Bool.orb_false_iff in H. destruct H as [Hd Hh].
    cbn [String.append]. rewrite split_pieces_char, Hd, (IH Hh). reflexivity.
Qed.

Lemma join_split_pieces (c : ascii) (s : string) :
  JS.join (let (p, ps) := JS.split_pieces (String c EmptyString) 0 s in p :: ps)
    (String c EmptyString) = s.
Proof.
  unfold JS.join. induction s as [|d s IH]; [reflexivity|].
  rewrite split_pieces_char.
  destruct (JS.split_pieces (String c EmptyString) 0 s) as [p ps].
  assert (Hcons : forall x y l, String.concat (String c EmptyString) (x :: y :: l)
                                = (x ++ String c (String.concat (String c EmptyString) (y :: l)))%string)
    by reflexivity.
  destruct (Ascii.eqb c d) eqn:E.
  - apply Ascii.eqb_eq in E. subst d. rewrite Hcons, IH. reflexivity.
  - destruct ps as [|q ps].
    + simpl in *. rewrite IH. reflexivity.
    + rewrite Hcons in *. cbn [String.append]. rewrite IH. reflexivity.
Qed.

(** ** The stashes *)

Lemma update_nth_error {A} (l : list A) (k j : nat) (f : A -> A) :
  nth_error (update l k f) j =
  if Nat.eqb j k then option_map f (nth_error l k) else nth_error l j.
Proof.
  revert k j; induction l as [|x l IH]; intros k j.
  - destruct k, j; simpl; try reflexivity. destruct (Nat.eqb j k); reflexivity.
  - destruct k as [|k], j as [|j]; try reflexivity. simpl. apply IH.
Qed.

Lemma update_length {A} (l : list A) (k : nat) (f : A -> A) :
  List.length (update l k f) = List.length l.
Proof.
  revert k; induction l as [|x l IH]; intros k; [reflexivity|].
  destruct k; simpl; [reflexivity|]. rewrite IH. reflexivity.
Qed.

(** [find_commit] finds the first commit with the hash, if there is one. *)
Lemma find_commit_first (hash : string) (commits : list Commit.t) (k : nat) (c : Commit.t) :
  nth_error commits k = Some c -> Commit.hash c = hash ->
  (forall j c', (j < k)%nat -> nth_error commits j = Some c' -> Commit.hash c' <> hash) ->
  find_commit hash commits = Some k.
Proof.
  revert k; induction commits as [|d commits IH]; intros k Hk Hc Hfirst.
  - destruct k; discriminate.
  - destruct k as [|k]; simpl in *.
    + injection Hk as ->. rewrite Hc, String.eqb_refl. reflexivity.
    + destruct (String.eqb (Commit.hash d) hash) eqn:E.
      * apply String.eqb_eq in E. exfalso. apply (Hfirst 0%nat d); [lia|reflexivity|exact E].
      * rewrite (IH k Hk Hc); [reflexivity|].
        intros j c' Hj Hn. apply (Hfirst (S j) c'); [lia|exact Hn].
Qed.

Lemma find_commit_none (hash : string) (commits : list Commit.t) :
  (forall c, In c commits -> Commit.hash c <> hash) -> find_commit hash commits = None.
Proof.
  induction commits as [|d commits IH]; intros H; [reflexivity|]. simpl.
  destruct (String.eqb (Commit.hash d) hash) eqn:E.
  - apply String.eqb_eq in E. exfalso. apply (H d); [left; reflexivity|exact E].
  - rewrite IH; [reflexivity|]. intros c Hc. apply H. right. exact Hc.
Qed.

Lemma attach_stash_line (commits : list Commit.t) (hash label : string) :
  mentions " " hash = false ->
  attach_stash commits (hash ++ " " ++ label) =
  match find_commit hash commits with
  | Some k => update commits k (Commit.push_ref (stash_ref label))
  | None => commits
  end.
Proof.
  intros H. unfold attach_stash, JS.split.
  change (hash ++ " " ++ label)%string with (hash ++ String " " label)%string.
  rewrite (split_char_prefix _ _ _ H).
  cbn [nth_error skipn]. rewrite join_split_pieces. reflexivity.
Qed.

(** C9. The line "<hash> <label>" of [stash_data] appends the stash ref
    [{name: label, id: label, type: stash, color: '#fff'}] to the refs of the
    first commit whose hash is <hash>, and to no other commit; when no commit
    has that hash the commits stay as they are.  The loop over the lines is a
    total function, which throws nothing, and [parse] returns the commits it
    leaves. *)
Theorem stash_line_attaches_ref (produced : list Commit.t) (hash label : string)
    (Hhash : mentions " " hash = false) :
  let stash := GitRef.of_object (GitRef.mk label label (Some "#fff") type_stash) in
  let produced' := attach_stash produced (hash ++ " " ++ label) in
  (forall k c,
      nth_error produced k = Some c -> Commit.hash c = hash ->
      (forall j c', (j < k)%nat -> nth_error produced j = Some c' -> Commit.hash c' <> hash) ->
      (exists c', nth_error produced' k = Some c'
                  /\ Commit.refs c' = Commit.refs c ++ [stash]
                  /\ c' = Commit.push_ref stash c)
      /\ forall j, j <> k -> nth_error produced' j = nth_error produced j)
  /\ ((forall c, In c produced -> Commit.hash c <> hash) -> produced' = produced)
  /\ List.length produced' = List.length produced
  /\ (forall palette log_data branch_data stash_data separator curve_radius out,
        parse palette log_data branch_data stash_data separator curve_radius = inr out ->
        exists st0 st,
          build_registry branch_data separator = inr st0
          /\ parse_rows separator curve_radius log_data st0 = inr st
          /\ out_commits out = fold_left attach_stash (JS.split stash_data NL) (commits st)).
Proof.
  intros stash produced'. subst produced'. rewrite (attach_stash_line _ _ _ Hhash).
  fold stash. change (stash_ref label) with stash.
  split; [|split; [|split]].
  - intros k c Hk Hc Hfirst. rewrite (find_commit_first _ _ _ _ Hk Hc Hfirst). split.
    + exists (Commit.push_ref stash c). rewrite update_nth_error, Nat.eqb_refl, Hk. auto.
    + intros j Hj. rewrite update_nth_error. apply Nat.eqb_neq in Hj. rewrite Hj. reflexivity.
  - intros H. rewrite (find_commit_none _ _ H). reflexivity.
  - destruct (find_commit hash produced); [apply update_length|reflexivity].
  - intros palette log_data branch_data stash_data sep r out H. unfold parse in H.
    destruct (build_registry branch_data sep) as [e|st0]; [discriminate|].
    destruct (parse_rows sep r log_data st0) as [e|st] eqn:Hrows; [discriminate|].
    injection H as <-. exists st0, st. repeat split. exact Hrows.
Qed.

(** The line "c3 stash@{0}: WIP" on two commits, the second of which has the
    hash "c3". *)
Lemma stash_line_attaches_ref_witness :
  (exists c',
      nth_error (attach_stash two_commits ("c3" ++ " " ++ "stash@{0}: WIP")) 1 = Some c'
      /\ Commit.refs c'
         = [] ++ [GitRef.of_object (GitRef.mk "stash@{0}: WIP" "stash@{0}: WIP" (Some "#fff") type_stash)]
      /\ c' = Commit.push_ref
                (GitRef.of_object (GitRef.mk "stash@{0}: WIP" "stash@{0}: WIP" (Some "#fff") type_stash))
                (Commit.mk 1 [] None "c3long" "c3" "Alice" "a@x.com" "2021-03-01 10:00:00" [] "first" false))
  /\ forall j, j <> 1%nat ->
       nth_error (attach_stash two_commits ("c3" ++ " " ++ "stash@{0}: WIP")) j
       = nth_error two_commits j.
Proof.
  refine (proj1 (stash_line_attaches_ref two_commits "c3" "stash@{0}: WIP" _) 1%nat
            (Commit.mk 1 [] None "c3long" "c3" "Alice" "a@x.com" "2021-03-01 10:00:00" [] "first" false)
            _ _ _).
  - reflexivity.
  - reflexivity.
  - reflexivity.
  - intros j c' Hj. destruct j as [|j]; [|lia]. intros [= <-]. discriminate.
Defined.

(** ** The stable sort *)

Section SortFacts.
Context {A : Type} (gt : A -> A -> bool).

(** [a] may stand before [b]: the comparator is not positive. *)
Let le (a b : A) : Prop := gt a b = false.

Hypothesis gt_asym : forall a b, gt a b = true -> gt b a = false.
Hypothesis le_trans : forall a b c, le a b -> le b c -> le a c.

Lemma insert_perm (x : A) (l : list A) : Permutation (x :: l) (JS.insert gt x l).
Proof.
  induction l as [|y l IH]; simpl; [apply Permutation_refl|].
  destruct (gt x y); [|apply Permutation_refl].
  eapply Permutation_trans; [apply perm_swap|]. apply perm_skip. exact IH.
Qed.

Lemma sort_perm (l : list A) : Permutation l (JS.sort gt l).
Proof.
  induction l as [|x l IH]; simpl; [apply perm_nil|].
  eapply Permutation_trans; [apply perm_skip; exact IH|apply insert_perm].
Qed.

Lemma insert_sorted (x : A) (l : list A) :
  StronglySorted le l -> StronglySorted le (JS.insert gt x l).
Proof.
  induction l as [|y l IH]; intros H; simpl.
  - constructor; constructor.
  - apply StronglySorted_inv in H. destruct H as [Hl Hy].
    destruct (gt x y) eqn:E.
    + constructor; [apply IH; exact Hl|].
      apply (Permutation_Forall (insert_perm x l)).
      constructor; [apply gt_asym; exact E|exact Hy].
    + constructor; [constructor; assumption|].
      constructor; [exact E|].
      eapply Forall_impl; [|exact Hy]. intros z Hz. eapply le_trans; eassumption.
Qed.

Lemma sort_sorted (l : list A) : StronglySorted le (JS.sort gt l).
Proof.
  induction l as [|x l IH]; simpl; [constructor|]. apply insert_sorted. exact IH.
Qed.
End SortFacts.

Lemma StronglySorted_nth {A} (R : A -> A -> Prop) (l : list A) (i j : nat) (a b : A) :
  StronglySorted R l -> (i < j)%nat ->
  nth_error l i = Some a -> nth_error l j = Some b -> R a b.
Proof.
  intros H; revert i j; induction H as [|x l Hl IH Hx]; intros i j Hij Hi Hj.
  - destruct i; discriminate.
  - destruct j as [|j]; [lia|]. destruct i as [|i]; simpl in *.
    + injection Hi as ->. rewrite Forall_forall in Hx. apply Hx.
      eapply nth_error_In; eassumption.
    + apply (IH i j); [lia|assumption|assumption].
Qed.

(** ** The ref comparator *)

Section GitRefSortFacts.
Context {R : Type} (id : R -> string).

Lemma git_ref_sort_asym (a b : R) :
  (0 <? git_ref_sort id a b) = true -> (0 <? git_ref_sort id b a) = false.
Proof.
  unfold git_ref_sort, or_num. rewrite Z.ltb_lt, Z.ltb_ge.
  repeat match goal with |- context [?x =? 0] => destruct (Z.eqb_spec x 0) end; lia.
Qed.

Lemma git_ref_sort_trans (a b c : R) :
  (0 <? git_ref_sort id a b) = false -> (0 <? git_ref_sort id b c) = false ->
  (0 <? git_ref_sort id a c) = false.
Proof.
  unfold git_ref_sort, or_num. rewrite !Z.ltb_ge.
  generalize (JS.indexOf (id a) "/"), (JS.indexOf (id b) "/"), (JS.indexOf (id c) "/").
  intros ia ib ic.
  destruct (JS.startsWith (id a) "tag: "), (JS.startsWith (id a) "refs/"),
    (JS.startsWith (id b) "tag: "), (JS.startsWith (id b) "refs/"),
    (JS.startsWith (id c) "tag: "), (JS.startsWith (id c) "refs/"); simpl;
    repeat match goal with |- context [?x =? 0] => destruct (Z.eqb_spec x 0) end; lia.
Qed.

(** The sorted list is a rearrangement of the list, in which no ref stands
    before one that the comparator puts before it. *)
Lemma sort_refs_sorted (refs : list R) :
  Permutation refs (sort_refs id refs)
  /\ StronglySorted (sorts_before id) (sort_refs id refs).
Proof.
  split; [apply sort_perm|].
  eapply StronglySorted_ind with (R := fun a b => (0 <? git_ref_sort id a b) = false)
                                 (P := StronglySorted (sorts_before id)).
  - constructor.
  - intros a l _ IH Ha. constructor; [exact IH|].
    eapply Forall_impl; [|exact Ha]. intros b Hb. apply Z.ltb_ge. exact Hb.
  - apply sort_sorted; [apply git_ref_sort_asym|apply git_ref_sort_trans].
Qed.

(** Within a class the comparator is the difference of the positions of the
    first slash. *)
Lemma sorts_before_same_class (a b : R) :
  same_class id a b -> sorts_before id a b ->
  JS.indexOf (id a) "/" <= JS.indexOf (id b) "/".
Proof.
  unfold same_class, sorts_before, git_ref_sort, or_num. intros [-> ->].
  repeat match goal with |- context [?x =? 0] => destruct (Z.eqb_spec x 0) end; lia.
Qed.
End GitRefSortFacts.

(** C6, as the code has it.  The list that the ref comparator sorts - the refs
    of a commit, and the branch listing - is rearranged so that, of two refs of
    the same class (both tags or both not, both with an id that starts with
    "refs/" or both not), the one whose id has its first slash earlier stands
    first, an id without a slash counting as earliest: not the number of
    slashes decides, but the position of the first.  In particular a branch
    whose id has no slash stands before every branch whose id has one, as
    every remote branch's has. *)
Theorem sort_refs_order {R : Type} (id : R -> string) (refs : list R) :
  let sorted := sort_refs id refs in
  Permutation refs sorted
  /\ (forall i j a b,
        (i < j)%nat -> nth_error sorted i = Some a -> nth_error sorted j = Some b ->
        same_class id a b ->
        JS.indexOf (id a) "/" <= JS.indexOf (id b) "/")
  /\ (forall i j a b,
        nth_error sorted i = Some a -> nth_error sorted j = Some b ->
        same_class id a b ->
        JS.indexOf (id a) "/" = -1 -> 0 <= JS.indexOf (id b) "/" ->
        (i < j)%nat).
Proof.
  intros sorted. destruct (sort_refs_sorted id refs) as [Hperm Hsorted]. fold sorted in Hperm, Hsorted.
  assert (Horder : forall i j a b,
             (i < j)%nat -> nth_error sorted i = Some a -> nth_error sorted j = Some b ->
             same_class id a b -> JS.indexOf (id a) "/" <= JS.indexOf (id b) "/").
  { intros i j a b Hij Hi Hj Hclass. apply sorts_before_same_class; [exact Hclass|].
    eapply StronglySorted_nth; eassumption. }
  split; [exact Hperm|split; [exact Horder|]].
  intros i j a b Hi Hj [Htag Hrefs] Ha Hb.
  destruct (Nat.lt_trichotomy i j) as [Hlt|[->|Hgt]]; [exact Hlt| |].
  - rewrite Hi in Hj. injection Hj as ->. lia.
  - assert (same_class id b a) by (split; symmetry; assumption).
    pose proof (Horder j i b a Hgt Hj Hi H). lia.
Qed.

(** C6 as it is stated fails on a commit that the branches "ab/c" and "a/b/c"
    and the tag "v1" point at: the tag is sorted before the branches, and the
    branch with two slashes before the branch with one, in the refs of the
    commit as in the branch listing. *)
Lemma sort_refs_not_by_depth :
  exists out,
    parse no_palette slash_names_log slash_names_branches EmptyString SEP 0.25%float = inr out
    /\ ref_ids_of out = [["tag: v1"; "a/b/c"; "ab/c"]]
    /\ branch_ids_of out = ["HEAD"; "a/b/c"; "ab/c"].
Proof. eexists. split; [vm_compute; reflexivity|]. split; vm_compute; reflexivity. Qed.

(** ** The branch listing *)

Lemma assign_colors_inferred (palette : string -> option string) (registry : list addr)
    (heap : list Branch.t) (b : addr) :
  is_inferred (assign_colors palette registry heap) b = is_inferred heap b.
Proof.
  unfold assign_colors. revert heap; induction registry as [|a registry IH]; intros heap; [reflexivity|].
  simpl. rewrite IH. unfold is_inferred, deref. rewrite update_nth_error.
  destruct (Nat.eqb b a) eqn:E; [|reflexivity].
  apply Nat.eqb_eq in E. subst a. destruct (nth_error heap b); reflexivity.
Qed.

Lemma firstn_In {A} (n : nat) (l : list A) (x : A) : In x (firstn n l) -> In x l.
Proof. intros H. rewrite <- (firstn_skipn n l). apply in_or_app. left. exact H. Qed.

(** C8. The branches that [parse] returns are the first 10,000 of the
    registered branches that are not flagged inferred, rearranged by the ref
    comparator: every branch listed is registered and not inferred, and when no
    more than 10,000 are kept every such branch is listed.  A branch that is
    still flagged inferred is left out even where a VisLine of a commit
    refers to it, as the line of the merged branch of [merge_log] does. *)
Theorem branch_listing (palette : string -> option string)
    (log_data branch_data stash_data separator : string) (curve_radius : float) (out : Output)
    (Hparse : parse palette log_data branch_data stash_data separator curve_radius = inr out) :
  exists st0 st,
    build_registry branch_data separator = inr st0
    /\ parse_rows separator curve_radius log_data st0 = inr st
    /\ let heap := out_branch_heap out in
       let kept := filter (fun b => negb (is_inferred heap b)) (branches st) in
       (exists sorted,
           Permutation kept sorted
           /\ StronglySorted (sorts_before (branch_id heap)) sorted
           /\ out_branches out = firstn (Z.to_nat 10000) sorted)
       /\ Z.of_nat (List.length (out_branches out)) <= 10000
       /\ (forall b, In b (out_branches out) ->
                     In b (branches st)
                     /\ is_inferred heap b = false
                     /\ is_inferred (branch_heap st) b = false)
       /\ (Z.of_nat (List.length kept) <= 10000 ->
           forall b, In b (branches st) -> is_inferred heap b = false -> In b (out_branches out))
       /\ exists out' c a l b,
            parse no_palette merge_log scenario_A_branches EmptyString SEP 0.25%float = inr out'
            /\ In c (out_commits out') /\ In a (Commit.vis_lines c)
            /\ deref (out_line_heap out') a = Some l /\ VisLine.branch l = Some b
            /\ is_inferred (out_branch_heap out') b = true
            /\ ~ In b (out_branches out').
Proof.
  unfold parse in Hparse.
  destruct (build_registry branch_data separator) as [e|st0]; [discriminate|].
  destruct (parse_rows separator curve_radius log_data st0) as [e|st] eqn:Hrows; [discriminate|].
  injection Hparse as <-. exists st0, st. split; [reflexivity|split; [exact Hrows|]].
  cbn [finish out_branch_heap out_branches].
  set (heap := assign_colors palette (branches st) (branch_heap st)).
  set (kept := filter (fun b => negb (is_inferred heap b)) (branches st)).
  destruct (sort_refs_sorted (branch_id heap) kept) as [Hperm Hsorted].
  assert (Hlisted : forall b, In b (list_branches heap (branches st)) -> In b kept).
  { intros b Hb. unfold list_branches in Hb. apply firstn_In in Hb.
    eapply Permutation_in; [apply Permutation_sym; exact Hperm|exact Hb]. }
  split; [|split; [|split; [|split]]].
  - exists (sort_refs (branch_id heap) kept). auto.
  - unfold list_branches. rewrite length_firstn. lia.
  - intros b Hb. apply Hlisted in Hb. apply filter_In in Hb. destruct Hb as [Hin Hinf].
    apply Bool.negb_true_iff in Hinf. split; [exact Hin|split; [exact Hinf|]].
    unfold heap in Hinf. rewrite assign_colors_inferred in Hinf. exact Hinf.
  - intros Hlen b Hin Hinf. unfold list_branches. fold kept.
    rewrite firstn_all2.
    + eapply Permutation_in; [exact Hperm|]. apply filter_In. rewrite Hinf. auto.
    + rewrite <- (Permutation_length Hperm). lia.
  - eexists. eexists. exists 1%nat. eexists. exists 2%nat.
    split; [vm_compute; reflexivity|].
    cbn [out_commits out_branches out_branch_heap out_line_heap].
    split; [right; left; reflexivity|].
    split; [left; reflexivity|].
    split; [reflexivity|]. split; [reflexivity|]. split; [reflexivity|].
    intros [H|[H|[]]]; discriminate.
Qed.

(** The listing of Scenario A. *)
Lemma branch_listing_witness :
  exists st0 st,
    build_registry scenario_A_branches SEP = inr st0
    /\ parse_rows SEP 0.25%float scenario_A_log st0 = inr st
    /\ branches st = [0; 1]%nat.
Proof.
  destruct (branch_listing no_palette scenario_A_log scenario_A_branches EmptyString SEP 0.25%float
              (finish no_palette EmptyString
                 (match build_registry scenario_A_branches SEP with
                  | inr st0 =>
                      match parse_rows SEP 0.25%float scenario_A_log st0 with
                      | inr st => st
                      | inl _ => initial_state
                      end
                  | inl _ => initial_state
                  end)))
    as (st0 & st & H0 & H & _).
  - vm_compute. reflexivity.
  - exists st0, st. split; [exact H0|split; [exact H|]].
    vm_compute in H0. injection H0 as <-. vm_compute in H. injection H as <-. reflexivity.
Defined.

(** ** The merge commit marker *)

Lemma update_app_end {A} (l : list A) (x : A) (f : A -> A) :
  update (l ++ [x]) (List.length l) f = l ++ [f x].
Proof. induction l as [|y l IH]; simpl; [reflexivity|]. rewrite IH. reflexivity. Qed.

Lemma new_inferred_branch_eq (branch_name : string) (remote_name : option string) (st : State) :
  new_inferred_branch branch_name remote_name st =
  (with_branch_heap
     (branch_heap st
      ++ [Branch.mk branch_name None type_branch remote_name None
            (match remote_name with
             | Some r => if JS.truthy r then r ++ "/" ++ branch_name else branch_name
             | None => branch_name
             end)%string
            true])
     (with_branches (branches st ++ [List.length (branch_heap st)]) st),
   List.length (branch_heap st)).
Proof.
  unfold new_inferred_branch, new_branch.
  cbn [with_branches with_branch_heap branch_heap branches line_heap commits last_vis
       densened_vis_line_by_branch_id last_densened_vis_line_by_branch_id xn_by_branch_id].
  rewrite update_app_end. reflexivity.
Qed.

Lemma append_assoc (a b c : string) : ((a ++ b) ++ c = a ++ (b ++ c))%string.
Proof. induction a as [|x a IH]; simpl; [reflexivity|]. rewrite IH. reflexivity. Qed.

Lemma join_snoc (sep : string) (l : list string) (x : string) :
  l <> [] -> JS.join (l ++ [x]) sep = (JS.join l sep ++ sep ++ x)%string.
Proof.
  unfold JS.join. induction l as [|y l IH]; intros H; [congruence|].
  destruct l as [|z l]; [reflexivity|].
  change (String.concat sep ((y :: z :: l) ++ [x]))
    with (y ++ sep ++ String.concat sep ((z :: l) ++ [x]))%string.
  rewrite IH by discriminate.
  change (String.concat sep (y :: z :: l)) with (y ++ sep ++ String.concat sep (z :: l))%string.
  rewrite !append_assoc. reflexivity.
Qed.

Lemma split_slash_join (s : string) : JS.join (JS.split s "/") "/" = s.
Proof. unfold JS.split. apply join_split_pieces. Qed.

Lemma split_slash_nonempty (s : string) : JS.split s "/" <> [].
Proof. unfold JS.split. destruct (JS.split_pieces "/" 0 s). discriminate. Qed.

Lemma at_last_snoc {A} (l : list A) (x : A) : JS.at_last (l ++ [x]) = Some x.
Proof. unfold JS.at_last. rewrite map_app. apply last_last. Qed.

Lemma at_last_update {A} (l : list A) (f : A -> A) :
  JS.at_last (update l (Nat.pred (List.length l)) f) = option_map f (JS.at_last l).
Proof.
  destruct l as [|y l]; [reflexivity|].
  destruct (@exists_last _ (y :: l)) as (l' & x & E); [discriminate|]. rewrite E.
  rewrite length_app, Nat.add_comm. cbn [List.length Nat.add Nat.pred].
  rewrite update_app_end, !at_last_snoc. reflexivity.
Qed.

Ltac state_fields :=
  cbn [with_branch_heap with_branches with_line_heap with_commits with_last_vis
       with_densened with_last_densened with_xn_by_branch_id with_object_prototype
       branch_heap branches line_heap commits last_vis
       densened_vis_line_by_branch_id last_densened_vis_line_by_branch_id xn_by_branch_id
       object_prototype].

(** The cases of [densen]: what is found under the id of the branch, and,
    for an object of the prototype, whether it is the prototype itself. *)
Ltac densen_cases :=
  unfold densen;
  destruct (JS.get _ _ _) as [?| |?|]; [|destruct (String.eqb _ "__proto__")| |].

Lemma at_last_none {A} (l : list A) : JS.at_last l = None -> l = [].
Proof.
  destruct l as [|y l]; [reflexivity|].
  destruct (@exists_last _ (y :: l)) as (l' & x & E); [discriminate|].
  rewrite E, at_last_snoc. discriminate.
Qed.

(** A branch made by [new_branch] from the pieces of a synthetic id. *)
Lemma named_after_split (captured : string) (st : State) :
  let synthetic := synthetic_id captured st in
  let split := JS.split synthetic "/" in
  let branch_name := JS.or_else (JS.at_last split) EmptyString in
  let remote := JS.join (removelast split) "/" in
  is_named_after captured st
    (Branch.mk branch_name None type_branch (Some remote) None
       (if JS.truthy remote then remote ++ "/" ++ branch_name else branch_name)%string true).
Proof.
  intros synthetic split branch_name remote.
  destruct (@exists_last _ split) as (parts & x & E); [apply split_slash_nonempty|].
  assert (Hname : branch_name = x).
  { unfold branch_name. rewrite E, at_last_snoc. unfold JS.or_else, JS.truthy.
    destruct (String.eqb_spec x EmptyString); simpl; [subst x|]; reflexivity. }
  assert (Hremote : remote = JS.join parts "/").
  { unfold remote. rewrite E, removelast_last. reflexivity. }
  assert (Hjoin : JS.join split "/" = synthetic) by apply split_slash_join.
  unfold is_named_after. fold synthetic. cbn [Branch.id Branch.name Branch.remote_name].
  split.
  - rewrite Hname, Hremote. rewrite E in Hjoin.
    destruct parts as [|p parts].
    + left. simpl in *. exact Hjoin.
    + rewrite join_snoc in Hjoin by discriminate.
      unfold JS.truthy. destruct (String.eqb_spec (JS.join (p :: parts) "/") EmptyString) as [Hempty|_].
      * right. rewrite Hempty in Hjoin. symmetry. exact Hjoin.
      * left. exact Hjoin.
  - exists parts. rewrite Hname, Hremote. auto.
Qed.

(** What the merge marker leaves. *)
Lemma merge_marker_spec (st : State) :
  exists st' branch,
    merge_marker st = (st', List.length (branch_heap st))
    /\ commits st' = update (commits st) (Nat.pred (List.length (commits st))) (Commit.set_merge true)
    /\ branches st' = branches st ++ [List.length (branch_heap st)]
    /\ branch_heap st' = branch_heap st ++ [branch]
    /\ line_heap st' = line_heap st
    /\ last_vis st' = last_vis st
    /\ densened_vis_line_by_branch_id st' = densened_vis_line_by_branch_id st
    /\ last_densened_vis_line_by_branch_id st' = last_densened_vis_line_by_branch_id st
    /\ Branch.inferred branch = true
    /\ match option_map Commit.subject (JS.at_last (commits st)) with
       | Some subject =>
           match subject_merge_match subject with
           | Some (g1, g2) => is_named_after (JS.or_else g1 (JS.or_else g2 EmptyString)) st branch
           | None => is_anonymous st branch
           end
       | None => is_anonymous st branch
       end.
Proof.
  unfold merge_marker.
  destruct (JS.at_last (commits st)) as [c|] eqn:Hlast; cbn [option_map].
  - destruct (subject_merge_match (Commit.subject c)) as [[g1 g2]|].
    + change (registry_counter (with_commits _ st)) with (registry_counter st).
      fold (synthetic_id (JS.or_else g1 (JS.or_else g2 EmptyString)) st).
      pose proof (named_after_split (JS.or_else g1 (JS.or_else g2 EmptyString)) st) as Hnamed.
      cbv zeta in Hnamed.
      destruct (JS.split (synthetic_id (JS.or_else g1 (JS.or_else g2 EmptyString)) st) "/")
        as [|p ps] eqn:Hsplit.
      * exfalso. revert Hsplit. apply split_slash_nonempty.
      * rewrite new_inferred_branch_eq. eexists. eexists.
        split; [reflexivity|]. state_fields. repeat (split; [reflexivity|]). exact Hnamed.
    + rewrite new_inferred_branch_eq. eexists. eexists.
      split; [reflexivity|]. state_fields. repeat (split; [reflexivity|]).
      repeat split.
  - apply at_last_none in Hlast. rewrite new_inferred_branch_eq. eexists. eexists.
    split; [reflexivity|]. state_fields. rewrite Hlast. repeat (split; [reflexivity|]).
    repeat split.
Qed.

(** The rule of the marker as the code tests it: the cell read as
    [vis[i + 1]], under the key of the column followed by the digit 1, is no
    pipe, and the cell left of the backslash is one. *)
Lemma backslash_right_of_a_pipe (vis_chars : list ascii) (branch_tip : option addr)
    (st : State) (vis : Vis.t) (i : Z) :
  JS.at_index vis_chars (i - 1) = Some "|"%char ->
  char_is (JS.at_key vis (JS.key i ++ "1")) "|" = false ->
  resolve_cell vis_chars branch_tip st vis i "\"
  = inr (mkResolved (fst (merge_marker st)) (Some (snd (merge_marker st)))
           (Some (line (-0.5) 1))).
Proof.
  intros Hw He. unfold resolve_cell. cbn [Ascii.eqb Bool.eqb]. unfold case_backslash.
  rewrite He, Hw, Ascii.eqb_refl. destruct (merge_marker st). reflexivity.
Qed.

(** A row without a pipe has none under any key. *)
Lemma no_pipe_under_a_key (vis : Vis.t) (key : string) :
  (forall k, char_is (JS.get_index vis k) "|" = false) ->
  char_is (JS.at_key vis key) "|" = false.
Proof. intros H. unfold JS.at_key. destruct (JS.array_index key); [apply H|reflexivity]. Qed.

(** The cell that the backslash tests is not its right neighbour: with a pipe
    as right neighbour the backslash of column 1 is a marker all the same,
    and with a pipe in column 11 it is none. *)
Lemma marker_reads_the_key_after_its_column :
  JS.at_key (pipe_at 2) (JS.key 1 ++ "1") = None
  /\ (exists st' b,
        resolve_cell ["|"; "\"; "|"]%char None after_merge_commit_row (pipe_at 2) 1 "\"
        = inr (mkResolved st' (Some b) (Some (line (-0.5) 1)))
        /\ map Commit.merge (commits st') = [true])
  /\ JS.at_key (pipe_at 11) (JS.key 1 ++ "1") = Some (Vis.mk "|" None)
  /\ resolve_cell ["|"; "\"]%char None after_merge_commit_row (pipe_at 11) 1 "\"
     = inr (mkResolved after_merge_commit_row None (Some (line (-0.5) 1)))
  /\ map Commit.merge (commits after_merge_commit_row) = [false].
Proof.
  split; [reflexivity|]. split; [|repeat split; vm_compute; reflexivity].
  eexists. eexists. split; vm_compute; reflexivity.
Qed.

(** C4, as the code has it.  A backslash whose left neighbour in the row is a
    pipe, in a row that has no pipe right of the backslash, flags the most
    recent commit (if there is one) as a merge and creates and registers a new
    branch flagged inferred.  The branch is named after what the subject of
    that commit captures - "Merge branch '<name>'", "Merge remote-tracking
    branch '<remote>/<name>'", "Merge pull request #N from <path>" - with the
    counter [branches.length - 1] after a tilde at the end of the synthetic
    id, which is split at its slashes into remote and name; it is anonymous,
    the bare counter, when the subject matches nothing or no commit precedes.
    The marker stands in the row below the merge commit: on [merge_log] the
    commit "Merge branch 'feature'" gets the flag and the inferred branch
    "feature~1" is made. *)
Theorem merge_marker_infers_branch :
  (forall vis_chars branch_tip st vis i,
      JS.at_index vis_chars (i - 1) = Some "|"%char ->
      (forall k, char_is (JS.get_index vis k) "|" = false) ->
      exists st' b branch,
        resolve_cell vis_chars branch_tip st vis i "\"
        = inr (mkResolved st' (Some b) (Some (line (-0.5) 1)))
        /\ commits st'
           = update (commits st) (Nat.pred (List.length (commits st))) (Commit.set_merge true)
        /\ JS.at_last (commits st') = option_map (Commit.set_merge true) (JS.at_last (commits st))
        /\ b = List.length (branch_heap st)
        /\ branches st' = branches st ++ [b]
        /\ branch_heap st' = branch_heap st ++ [branch]
        /\ deref (branch_heap st') b = Some branch
        /\ Branch.inferred branch = true
        /\ match option_map Commit.subject (JS.at_last (commits st)) with
           | Some subject =>
               match subject_merge_match subject with
               | Some (g1, g2) =>
                   is_named_after (JS.or_else g1 (JS.or_else g2 EmptyString)) st branch
               | None => is_anonymous st branch
               end
           | None => is_anonymous st branch
           end)
  /\ subject_merge_match "Merge branch 'feature'" = Some (Some "feature", None)
  /\ subject_merge_match "Merge remote-tracking branch 'origin/feature'"
     = Some (Some "origin/feature", None)
  /\ subject_merge_match "Merge pull request #12 from owner/topic" = Some (None, Some "owner/topic")
  /\ subject_merge_match "Initial commit" = None
  /\ exists out c branch,
       parse no_palette merge_log scenario_A_branches EmptyString SEP 0.25%float = inr out
       /\ nth_error (out_commits out) 0 = Some c
       /\ Commit.subject c = "Merge branch 'feature'" /\ Commit.merge c = true
       /\ nth_error (out_branch_heap out) 2 = Some branch
       /\ Branch.name branch = "feature~1" /\ Branch.id branch = "feature~1"
       /\ Branch.inferred branch = true.
Proof.
  split; [|repeat split; try (vm_compute; reflexivity)].
  - intros vis_chars branch_tip st vis i Hw He.
    destruct (merge_marker_spec st) as (st' & branch & Hm & Hc & Hb & Hh & _ & _ & _ & _ & Hi & Hn).
    exists st', (List.length (branch_heap st)), branch.
    split.
    { rewrite (backslash_right_of_a_pipe _ _ _ _ _ Hw (no_pipe_under_a_key _ _ He)), Hm.
      reflexivity. }
    split; [exact Hc|]. split; [rewrite Hc; apply at_last_update|].
    split; [reflexivity|]. split; [exact Hb|]. split; [exact Hh|].
    split; [|split; [exact Hi|exact Hn]].
    unfold deref. rewrite Hh, nth_error_app2, Nat.sub_diag by lia. reflexivity.
  - eexists. eexists. eexists. split; [vm_compute; reflexivity|].
    cbn [out_commits out_branch_heap nth_error]. repeat split.
Qed.

(** The marker of the second row of [merge_log], at column 1. *)
Lemma merge_marker_witness :
  exists st' b branch,
    resolve_cell ["|"; "\"]%char None after_merge_commit_row [] 1 "\"
    = inr (mkResolved st' (Some b) (Some (line (-0.5) 1)))
    /\ JS.at_last (commits st')
       = option_map (Commit.set_merge true) (JS.at_last (commits after_merge_commit_row))
    /\ Branch.inferred branch = true
    /\ is_named_after "feature" after_merge_commit_row branch.
Proof.
  assert (Hnone : forall k, char_is (JS.get_index (@nil (option Vis.cell)) k) "|" = false).
  { intros k. unfold JS.get_index, JS.at_index. destruct (k <? 0); [reflexivity|].
    destruct (Z.to_nat k); reflexivity. }
  destruct (proj1 merge_marker_infers_branch ["|"; "\"]%char None after_merge_commit_row [] 1
              eq_refl Hnone)
    as (st' & b & branch & H1 & _ & H2 & _ & _ & _ & _ & H3 & H4).
  exists st', b, branch.
  split; [exact H1|]. split; [exact H2|]. split; [exact H3|]. exact H4.
Defined.

(** C4 as it is stated fails on Scenario B as the specification words it: the
    row "| |/ " has no backslash, so no commit is flagged as a merge and no
    branch is made from the name 'feature'. *)
Lemma scenario_B_row_is_no_marker :
  exists out,
    parse no_palette scenario_B_log scenario_A_branches EmptyString SEP 0.25%float = inr out
    /\ map Commit.subject (out_commits out) = ["newest"; "Merge branch 'feature'"]
    /\ map Commit.merge (out_commits out) = [false; false]
    /\ map Branch.name (out_branch_heap out) = ["master"; "HEAD"; "inferred~1"].
Proof. eexists. split; [vm_compute; reflexivity|]. repeat split. Qed.

(** ** The repair of the inferred substitute *)

Lemma existsb_filter (p : addr -> bool) (a : addr) (l : list addr) :
  existsb (Nat.eqb a) (filter p l) = existsb (Nat.eqb a) l && p a.
Proof.
  induction l as [|x l IH]; [reflexivity|]. simpl.
  destruct (p x) eqn:E; simpl; rewrite IH.
  - destruct (Nat.eqb_spec a x) as [->|]; [rewrite E|]; simpl; [reflexivity|reflexivity].
  - destruct (Nat.eqb_spec a x) as [->|]; [rewrite E|]; simpl; [|reflexivity].
    rewrite Bool.andb_false_r. reflexivity.
Qed.

Lemma existsb_nonempty (a : addr) (p : addr -> bool) (l : list addr) :
  filter p l <> [] -> exists x, In x l /\ p x = true.
Proof.
  induction l as [|x l IH]; simpl; [congruence|].
  destruct (p x) eqn:E; [eauto|]. intros H. destruct (IH H) as (y & Hy & Hp). eauto.
Qed.

Section Repoint.
Variables wrong_branch v_branch : addr.

Let moved : option VisLine.t -> option VisLine.t :=
  option_map (VisLine.set_branch (Some v_branch)).

Lemma moved_twice (l : option VisLine.t) : moved (moved l) = moved l.
Proof. destruct l; reflexivity. Qed.

Lemma repoint_deref (heap : list VisLine.t) (x a : addr) :
  deref (repoint v_branch heap x) a = if Nat.eqb a x then moved (deref heap a) else deref heap a.
Proof.
  unfold repoint, deref. rewrite update_nth_error.
  destruct (Nat.eqb_spec a x) as [->|]; reflexivity.
Qed.

Lemma repoint_all_deref (matches : list addr) (heap : list VisLine.t) (a : addr) :
  deref (fold_left (repoint v_branch) matches heap) a =
  if existsb (Nat.eqb a) matches then moved (deref heap a) else deref heap a.
Proof.
  revert heap; induction matches as [|x m IH]; intros heap; [reflexivity|].
  cbn [fold_left existsb]. rewrite IH, repoint_deref.
  destruct (Nat.eqb a x); cbn [orb]; [|reflexivity].
  rewrite moved_twice. destruct (existsb (Nat.eqb a) m); reflexivity.
Qed.

Lemma repoint_all_length (matches : list addr) (heap : list VisLine.t) :
  List.length (fold_left (repoint v_branch) matches heap) = List.length heap.
Proof.
  revert heap; induction matches as [|x m IH]; intros heap; [reflexivity|].
  cbn [fold_left]. rewrite IH. apply update_length.
Qed.

Lemma belongs_to_moved (heap heap' : list VisLine.t) (a : addr) :
  deref heap' a = moved (deref heap a) ->
  belongs_to heap' wrong_branch a = true -> v_branch = wrong_branch.
Proof.
  unfold belongs_to. intros ->. destruct (deref heap a); simpl; [|discriminate].
  intros H. apply Nat.eqb_eq in H. exact H.
Qed.

Lemma belongs_to_same (heap heap' : list VisLine.t) (a : addr) :
  deref heap' a = deref heap a ->
  belongs_to heap' wrong_branch a = belongs_to heap wrong_branch a.
Proof. unfold belongs_to. intros ->. reflexivity. Qed.

Lemma firstn_succ_nth {A} (l : list A) (k : nat) (x : A) :
  nth_error l k = Some x -> firstn (S k) l = firstn k l ++ [x].
Proof.
  revert k; induction l as [|y l IH]; intros k H; [destruct k; discriminate|].
  destruct k as [|k]; simpl in *; [congruence|]. rewrite (IH k H). reflexivity.
Qed.

(** The loop, entered at the commit before the [n]th, seen from the most
    recent commit backward: it repoints the lines of [wrong_branch] in the
    first [j] commits, each of which has one, and stops at the next commit,
    which has none, or at the end. *)
Lemma repair_lines_spec (cs : list Commit.t) (n : nat) (heap : list VisLine.t) :
  (n <= List.length cs)%nat ->
  let backward := rev (firstn n cs) in
  let heap' := repair_lines cs wrong_branch v_branch heap n in
  exists j,
    (j <= n)%nat
    /\ (forall c, In c (firstn j backward) ->
                  exists a, In a (Commit.vis_lines c) /\ belongs_to heap wrong_branch a = true)
    /\ (forall a, deref heap' a =
                  if scanned_by a (firstn j backward) && belongs_to heap wrong_branch a
                  then moved (deref heap a) else deref heap a)
    /\ List.length heap' = List.length heap
    /\ match nth_error backward j with
       | Some c => forall a, In a (Commit.vis_lines c) -> belongs_to heap' wrong_branch a = false
       | None => j = n
       end.
Proof.
  revert heap; induction n as [|k IH]; intros heap Hn backward heap'.
  - exists 0%nat. subst backward heap'. simpl. repeat split; try lia; intros; contradiction.
  - assert (Hk : (k < List.length cs)%nat) by lia.
    destruct (nth_error cs k) as [c|] eqn:Hc; [|apply nth_error_None in Hc; lia].
    assert (Hback : backward = c :: rev (firstn k cs)).
    { subst backward. rewrite (firstn_succ_nth _ _ _ Hc), rev_app_distr. reflexivity. }
    subst heap'. cbn [repair_lines]. rewrite Hc, Hback.
    destruct (filter (belongs_to heap wrong_branch) (Commit.vis_lines c)) as [|m0 ms] eqn:Hm.
    + exists 0%nat. cbn [firstn nth_error scanned_by existsb andb]. repeat split; try lia.
      * intros ? [].
      * intros a Ha.
        destruct (belongs_to heap wrong_branch a) eqn:E; [|reflexivity].
        assert (In a (filter (belongs_to heap wrong_branch) (Commit.vis_lines c)))
          by (apply filter_In; auto).
        rewrite Hm in H. contradiction.
    + set (matches := m0 :: ms) in *.
      set (heap1 := fold_left (repoint v_branch) matches heap).
      destruct (IH heap1 ltac:(lia)) as (j & Hj & Hhad & Hpt & Hlen & Hstop).
      assert (Hone : forall a, deref heap1 a =
                  if existsb (Nat.eqb a) (Commit.vis_lines c) && belongs_to heap wrong_branch a
                  then moved (deref heap a) else deref heap a).
      { intros a. unfold heap1. rewrite repoint_all_deref, <- Hm, existsb_filter. reflexivity. }
      exists (S j). cbn [firstn nth_error]. split; [lia|]. split; [|split; [|split]].
      * intros c' [<-|Hc'].
        -- apply (existsb_nonempty 0%nat). rewrite Hm. discriminate.
        -- destruct (Hhad c' Hc') as (a & Ha & Hb). exists a. split; [exact Ha|].
           specialize (Hone a).
           destruct (existsb (Nat.eqb a) (Commit.vis_lines c) && belongs_to heap wrong_branch a) eqn:E.
           ++ apply Bool.andb_true_iff in E. apply E.
           ++ rewrite <- Hb. symmetry. apply belongs_to_same. exact Hone.
      * intros a. rewrite Hpt. specialize (Hone a). cbn [scanned_by existsb].
        fold (scanned_by a (firstn j (rev (firstn k cs)))).
        destruct (existsb (Nat.eqb a) (Commit.vis_lines c)) eqn:Ein;
          destruct (belongs_to heap wrong_branch a) eqn:Eb; cbn [andb orb] in *.
        -- rewrite Hone, moved_twice. destruct (_ && _); reflexivity.
        -- rewrite (belongs_to_same _ _ _ Hone), Eb, Bool.andb_false_r. exact Hone.
        -- rewrite (belongs_to_same _ _ _ Hone), Eb, Hone. reflexivity.
        -- rewrite (belongs_to_same _ _ _ Hone), Eb, Hone. reflexivity.
      * rewrite Hlen. apply repoint_all_length.
      * destruct (nth_error (rev (firstn k cs)) j); [exact Hstop|lia].
Qed.
End Repoint.

(** [indexOf] finds the first occurrence, and [splice] takes it out. *)
Lemma index_of_in (x : addr) (l : list addr) :
  In x l ->
  exists l1 l2, l = l1 ++ x :: l2 /\ ~ In x l1
                /\ JS.index_of Nat.eqb x l = Z.of_nat (List.length l1).
Proof.
  induction l as [|y l IH]; [intros []|]. intros Hin. cbn [JS.index_of].
  destruct (Nat.eqb_spec y x) as [->|Hne].
  - exists [], l. auto.
  - destruct Hin as [Hy|Hin]; [congruence|].
    destruct (IH Hin) as (l1 & l2 & -> & Hl1 & Hidx).
    exists (y :: l1), l2. rewrite Hidx. split; [reflexivity|]. split.
    + intros [H|H]; [congruence|contradiction].
    + destruct (Z.ltb_spec (Z.of_nat (List.length l1)) 0); [lia|].
      cbn [List.length]. lia.
Qed.

Lemma splice1_sublist {A} (l : list A) (start : Z) (x : A) :
  In x (JS.splice1 l start) -> In x l.
Proof.
  unfold JS.splice1. intros H. apply in_app_or in H. destruct H as [H|H].
  - eapply firstn_In; exact H.
  - rewrite <- (firstn_skipn (S (Z.to_nat
        (if start <? 0 then Z.max (Z.of_nat (List.length l) + start) 0
         else Z.min start (Z.of_nat (List.length l))))) l).
    apply in_or_app. right. exact H.
Qed.

Lemma splice1_removes (x : addr) (l : list addr) :
  NoDup l -> ~ In x (JS.splice1 l (JS.index_of Nat.eqb x l)).
Proof.
  intros Hnd Hin. destruct (in_dec Nat.eq_dec x l) as [Hx|Hx].
  - destruct (index_of_in x l Hx) as (l1 & l2 & -> & Hl1 & Hidx).
    rewrite Hidx in Hin. unfold JS.splice1 in Hin.
    destruct (Z.ltb_spec (Z.of_nat (List.length l1)) 0); [lia|].
    rewrite Z.min_l in Hin by (rewrite length_app; cbn [List.length]; lia).
    rewrite Nat2Z.id in Hin.
    rewrite firstn_app, firstn_all, Nat.sub_diag in Hin. cbn [firstn] in Hin.
    rewrite app_nil_r in Hin.
    replace (S (List.length l1)) with (List.length (l1 ++ [x])) in Hin
      by (rewrite length_app; cbn [List.length]; lia).
    replace (l1 ++ x :: l2) with ((l1 ++ [x]) ++ l2) in Hin
      by (rewrite <- app_assoc; reflexivity).
    rewrite skipn_app, skipn_all, Nat.sub_diag in Hin. cbn [skipn app] in Hin.
    apply NoDup_remove_2 in Hnd. apply Hnd. exact Hin.
  - apply Hx. eapply splice1_sublist. exact Hin.
Qed.

(** C3. When a star takes the branch tip of its row as its owner and the cell
    above and left of it is a backslash that some branch owns, the commits
    already produced are scanned from the most recent one backward: in each
    commit scanned, every VisLine of the branch of the backslash is given to
    the branch tip; every scanned commit has such a line, the scan stops at
    the first commit that has none (or when no commit is left), no other
    VisLine and no commit changes, and the branch of the backslash is no
    longer in the registry. *)
Theorem branch_tip_repairs_inferred_lines
    (vis_chars : list ascii) (st : State) (vis : Vis.t) (i : Z)
    (tip wrong_branch : addr) (v_nw : Vis.cell)
    (Hnw : JS.get_index (last_vis st) (i - 1) = Some v_nw)
    (Hchar : Vis.char v_nw = "\"%char)
    (Howner : Vis.branch v_nw = Some wrong_branch)
    (Hregistry : NoDup (branches st)) :
  exists st' vis_line,
    resolve_cell vis_chars (Some tip) st vis i "*" = inr (mkResolved st' (Some tip) vis_line)
    /\ commits st' = commits st
    /\ ~ In wrong_branch (branches st')
    /\ (forall b, In b (branches st') -> In b (branches st))
    /\ branch_heap st' = branch_heap st
    /\ List.length (line_heap st') = List.length (line_heap st)
    /\ let backward := rev (commits st) in
       exists j,
         (forall c, In c (firstn j backward) ->
                    exists a, In a (Commit.vis_lines c)
                              /\ belongs_to (line_heap st) wrong_branch a = true)
         /\ (forall a l,
                deref (line_heap st) a = Some l ->
                deref (line_heap st') a =
                Some (if scanned_by a (firstn j backward)
                         && belongs_to (line_heap st) wrong_branch a
                      then VisLine.set_branch (Some tip) l else l))
         /\ match nth_error backward j with
            | Some c => forall a, In a (Commit.vis_lines c) ->
                                  belongs_to (line_heap st') wrong_branch a = false
            | None => j = List.length (commits st)
            end.
Proof.
  exists (repair wrong_branch tip st). eexists. split.
  { unfold resolve_cell. cbn [Ascii.eqb Bool.eqb]. unfold case_star.
    unfold char_is, branch_of. rewrite Hnw, Hchar, Howner. cbn [Ascii.eqb Bool.eqb].
    reflexivity. }
  unfold repair. state_fields.
  split; [reflexivity|]. split; [apply splice1_removes; exact Hregistry|].
  split; [intros b; apply splice1_sublist|]. split; [reflexivity|].
  destruct (repair_lines_spec wrong_branch tip (commits st) (List.length (commits st))
              (line_heap st) (Nat.le_refl _))
    as (j & Hj & Hhad & Hpt & Hlen & Hstop).
  rewrite firstn_all in *.
  split; [exact Hlen|]. exists j. split; [exact Hhad|]. split; [|exact Hstop].
  intros a l Hl. rewrite Hpt, Hl. destruct (_ && _); reflexivity.
Qed.

(** The tip "feature" (branch 1) at column 4 below [repair_log], whose last
    row has at column 3 a backslash of the inferred branch "feature~2"
    (branch 3): the line of that branch in the last commit (line 1) is given
    to "feature", and the branch leaves the registry. *)
Lemma branch_tip_repairs_witness :
  exists st' vis_line,
    resolve_cell ["|"; " "; " "; " "; "*"]%char (Some 1%nat) before_tip_row [] 4 "*"
    = inr (mkResolved st' (Some 1%nat) vis_line)
    /\ commits st' = commits before_tip_row
    /\ ~ In 3%nat (branches st')
    /\ option_map VisLine.branch (deref (line_heap st') 1%nat) = Some (Some 1%nat).
Proof.
  destruct (branch_tip_repairs_inferred_lines ["|"; " "; " "; " "; "*"]%char before_tip_row [] 4
              1%nat 3%nat (Vis.mk "\" (Some 3%nat)))
    as (st' & vis_line & H1 & H2 & H3 & _).
  - reflexivity.
  - reflexivity.
  - reflexivity.
  - vm_compute. repeat constructor; simpl; intuition discriminate.
  - exists st', vis_line. split; [exact H1|]. split; [exact H2|]. split; [exact H3|].
    vm_compute in H1. injection H1 as <- _. reflexivity.
Defined.

(** ** Records *)

Lemma own_In {V} (r : JS.record V) (key : string) (v : V) :
  JS.own r key = Some v -> In (key, v) r.
Proof.
  induction r as [|[k w] r IH]; simpl; [discriminate|].
  destruct (String.eqb_spec k key) as [->|]; [intros [= ->]; auto|auto].
Qed.

Lemma own_unique_key {V} (r : JS.record V) (key : string) (v : V) :
  NoDup (map fst r) -> In (key, v) r -> JS.own r key = Some v.
Proof.
  induction r as [|[k w] r IH]; simpl; [intros _ []|].
  intros Hnd [H|H]; inversion Hnd as [|? ? Hk Hr]; subst.
  - injection H as -> ->. rewrite String.eqb_refl. reflexivity.
  - destruct (String.eqb_spec k key) as [->|]; [|auto].
    exfalso. apply Hk. change key with (fst (key, v)). apply in_map. exact H.
Qed.

Lemma get_Own {V} (added : string -> option JS.value) (r : JS.record V) (key : string) (v : V) :
  JS.get added r key = JS.Own v <-> JS.own r key = Some v.
Proof.
  unfold JS.get. destruct (JS.own r key); [split; congruence|].
  destruct (JS.is_inherited key); [split; congruence|].
  destruct (added key) as [w|]; [destruct (JS.truthy_value w)|]; split; congruence.
Qed.


Lemma same_value_same_key {V} (r : JS.record V) (k k' : string) (v : V) :
  NoDup (map snd r) -> In (k, v) r -> In (k', v) r -> k = k'.
Proof.
  induction r as [|[k0 w] r IH]; simpl; [intros _ []|].
  intros Hnd H H'. inversion Hnd as [|? ? Hw Hr]; subst.
  assert (Hin : forall x, In (x, w) r -> False).
  { intros x Hx. apply Hw. change w with (snd (x, w)). apply in_map. exact Hx. }
  destruct H as [H|H], H' as [H'|H'].
  - congruence.
  - injection H as -> ->. exfalso. eauto.
  - injection H' as -> ->. exfalso. eauto.
  - auto.
Qed.

(** ** The loop over the lines of a commit that is closed *)

Section Junction.
Variable curve_radius : float.
Variable p : Prototype.t.
Variable last_densened : JS.record addr.

Lemma finalize_line_length (heap : list VisLine.t) (entry : string * addr) :
  List.length (finalize_line curve_radius p last_densened heap entry) = List.length heap.
Proof.
  unfold finalize_line. destruct entry as [key a].
  destruct (deref _ a); [|apply update_length].
  destruct (JS.get _ last_densened key) as [la| | |].
  - destruct (deref _ la); rewrite ?update_length; reflexivity.
  - rewrite !update_length. reflexivity.
  - rewrite !update_length. reflexivity.
  - rewrite !update_length. reflexivity.
Qed.

Lemma finalize_fold_length (entries : JS.record addr) (heap : list VisLine.t) :
  List.length (fold_left (finalize_line curve_radius p last_densened) entries heap)
  = List.length heap.
Proof.
  revert heap; induction entries as [|e es IH]; intros heap; [reflexivity|].
  cbn [fold_left]. rewrite IH. apply finalize_line_length.
Qed.
End Junction.

Lemma inr_eq {A B : Type} (x y : B) : @inr A B x = inr y -> x = y.
Proof. intros H. injection H as H. exact H. Qed.

(** ** What every state of [parse] satisfies

    A property of the state that the steps of [parse] keep holds in every
    state that [parse] reaches. *)

(** The line that a case of the [switch] leaves has no [xce], or the [xce]
    of its literal. *)
Lemma resolve_cell_line (vis_chars : list ascii) (tip : option addr) (st : State)
    (vis : Vis.t) (i : Z) (char : ascii) (r : Resolved) (l : VisLine.t) :
  resolve_cell vis_chars tip st vis i char = inr r -> vis_line r = Some l -> cell_line l.
Proof.
  unfold resolve_cell, cell_line.
  destruct (Ascii.eqb char "*").
  { intros Heq; apply inr_eq in Heq; subst. unfold case_star.
    destruct (match tip with Some _ => _ | None => _ end) as [st' v]. cbn [vis_line].
    intros [= <-]. destruct (JS.get_index (last_vis st) i) as [above|]; [|discriminate].
    destruct (Ascii.eqb _ _); discriminate. }
  destruct (Ascii.eqb char "|");
    [intros Heq; apply inr_eq in Heq; subst; intros [= <-]; discriminate|].
  destruct (Ascii.eqb char "_");
    [intros Heq; apply inr_eq in Heq; subst; intros [= <-]; discriminate|].
  destruct (Ascii.eqb char "/");
    [intros Heq; apply inr_eq in Heq; subst; intros [= <-]; discriminate|].
  destruct (Ascii.eqb char "\"); [|intros Heq; apply inr_eq in Heq; subst; discriminate].
  unfold case_backslash.
  destruct (char_is _ _); [intros Heq; apply inr_eq in Heq; subst; intros [= <-]; discriminate|].
  destruct (match JS.at_index vis_chars (i - 1) with Some c => Ascii.eqb c "|" | None => false end).
  { destruct (merge_marker st).
    intros Heq; apply inr_eq in Heq; subst. intros [= <-]; discriminate. }
  destruct (_ || _); [intros Heq; apply inr_eq in Heq; subst; intros [= <-]; discriminate|].
  destruct (_ || _); [|intros Heq; apply inr_eq in Heq; subst; intros [= <-]; discriminate].
  destruct (walk_dashes _ _); [|discriminate].
  intros Heq; apply inr_eq in Heq; subst; intros [= <-]; discriminate.
Qed.

Section Invariant.
Variable P : State -> Prop.

Hypothesis P_new_branch :
  forall name remote tracking st, P st -> P (fst (new_branch name remote tracking st)).
Hypothesis P_new_inferred_branch :
  forall name remote st, P st -> P (fst (new_inferred_branch name remote st)).
Hypothesis P_repair : forall wrong_branch tip st, P st -> P (repair wrong_branch tip st).
Hypothesis P_merge :
  forall k st, P st -> P (with_commits (update (commits st) k (Commit.set_merge true)) st).
Hypothesis P_densen : forall i b l st, cell_line l -> P st -> P (densen i b l st).
Hypothesis P_close :
  forall r row_no cb hl h an ae dt refs subject st,
    P st -> P (close_commit r row_no cb hl h an ae dt refs subject st).
Hypothesis P_last_vis : forall v st, P st -> P (with_last_vis v st).

Lemma fold_exn_invariant {A S : Type} (Q : S -> Prop) (f : S -> A -> exn + S) (l : list A) :
  (forall s x s', Q s -> f s x = inr s' -> Q s') ->
  forall s s', Q s -> fold_exn f l s = inr s' -> Q s'.
Proof.
  intros Hf. induction l as [|x l IH]; intros s s' Hs; simpl.
  - intros Heq; apply inr_eq in Heq; subst. exact Hs.
  - destruct (f s x) as [e|s1] eqn:E; [discriminate|]. apply IH. eapply Hf; eassumption.
Qed.

Lemma build_registry_invariant (branch_data separator : string) (st : State) :
  P initial_state -> build_registry branch_data separator = inr st -> P st.
Proof.
  intros H0. unfold build_registry.
  destruct (fold_exn _ _ _) as [e|st1] eqn:E; [discriminate|]. intros Heq; apply inr_eq in Heq; subst.
  apply P_new_branch. revert E. apply fold_exn_invariant; [|exact H0].
  intros s x s' Hs. unfold add_branch_line.
  destruct (nth_error _ 1); [|discriminate].
  destruct (JS.startsWith _ _); [intros Heq; apply inr_eq in Heq; subst; apply P_new_branch; exact Hs|].
  destruct (JS.split _ _); intros Heq; apply inr_eq in Heq; subst; apply P_new_branch; exact Hs.
Qed.

Lemma merge_marker_invariant (st : State) : P st -> P (fst (merge_marker st)).
Proof.
  intros H. unfold merge_marker.
  destruct (JS.at_last (commits st)) as [c|]; cbn [option_map].
  - destruct (subject_merge_match _) as [[g1 g2]|].
    + destruct (JS.split _ _); apply P_new_inferred_branch; apply P_merge; exact H.
    + apply P_new_inferred_branch; apply P_merge; exact H.
  - apply P_new_inferred_branch. exact H.
Qed.

Lemma resolve_cell_invariant (vis_chars : list ascii) (tip : option addr) (st : State)
    (vis : Vis.t) (i : Z) (char : ascii) (r : Resolved) :
  P st -> resolve_cell vis_chars tip st vis i char = inr r -> P (res_state r).
Proof.
  intros H. unfold resolve_cell.
  destruct (Ascii.eqb char "*").
  { intros Heq; apply inr_eq in Heq; subst. unfold case_star. destruct tip as [t|].
    - destruct (char_is _ _); [|exact H].
      destruct (branch_of _); [apply P_repair|]; exact H.
    - destruct (branch_of (JS.get_index (last_vis st) i)); [exact H|].
      destruct (char_is _ _); [exact H|]. destruct (char_is _ _); [exact H|].
      pose proof (P_new_inferred_branch ("inferred~" ++ registry_counter st)%string None st H).
      destruct (new_inferred_branch _ _ _). assumption. }
  destruct (Ascii.eqb char "|"); [intros Heq; apply inr_eq in Heq; subst; exact H|].
  destruct (Ascii.eqb char "_"); [intros Heq; apply inr_eq in Heq; subst; exact H|].
  destruct (Ascii.eqb char "/"); [intros Heq; apply inr_eq in Heq; subst; exact H|].
  destruct (Ascii.eqb char "\"); [|intros Heq; apply inr_eq in Heq; subst; exact H].
  unfold case_backslash.
  destruct (char_is _ _); [intros Heq; apply inr_eq in Heq; subst; exact H|].
  destruct (match JS.at_index vis_chars (i - 1) with Some c => Ascii.eqb c "|" | None => false end).
  { pose proof (merge_marker_invariant st H). destruct (merge_marker st).
    intros Heq; apply inr_eq in Heq; subst. assumption. }
  destruct (_ || _); [intros Heq; apply inr_eq in Heq; subst; exact H|].
  destruct (_ || _); [|intros Heq; apply inr_eq in Heq; subst; exact H].
  destruct (walk_dashes _ _); [intros Heq; apply inr_eq in Heq; subst; exact H|discriminate].
Qed.

Lemma scan_row_invariant (vis_chars : list ascii) (tip : option addr) (st : State) (sc : Scan) :
  P st -> scan_row vis_chars tip st = inr sc -> P (state sc).
Proof.
  intros H. unfold scan_row.
  apply (fold_exn_invariant (fun sc => P (state sc))); [|exact H].
  intros s [k char] s' Hs. unfold scan_cell.
  destruct (resolve_cell _ _ _ _ _ _) as [e|r] eqn:E; [discriminate|].
  intros Heq; apply inr_eq in Heq; subst. cbn [state].
  pose proof (fun l => resolve_cell_line _ _ _ _ _ _ _ l E) as Hline.
  apply resolve_cell_invariant in E; [|exact Hs].
  destruct (v_branch r); [|exact E].
  destruct (vis_line r); [apply P_densen; [apply Hline; reflexivity|]|]; exact E.
Qed.

Lemma parse_row_invariant (separator : string) (curve_radius : float) (st st' : State)
    (entry : nat * string) :
  P st -> parse_row separator curve_radius st entry = inr st' -> P st'.
Proof.
  intros H. unfold parse_row. destruct entry as [row_no row].
  destruct (String.eqb row "... "); [intros Heq; apply inr_eq in Heq; subst; exact H|].
  destruct (has_unknown_char _); [discriminate|].
  destruct (scan_row _ _ _) as [e|sc] eqn:E; [discriminate|].
  intros Heq; apply inr_eq in Heq; subst. apply scan_row_invariant in E; [|exact H]. apply P_last_vis.
  destruct (JS.truthy _); [apply P_close|]; exact E.
Qed.

(** The state after some rows, and the state in which the commit of a row is closed. *)
Lemma parse_rows_invariant (separator : string) (curve_radius : float)
    (rows : list (nat * string)) (st st' : State) :
  P st -> fold_exn (parse_row separator curve_radius) rows st = inr st' -> P st'.
Proof.
  intros H. apply fold_exn_invariant; [|exact H].
  intros s x s' Hs. apply parse_row_invariant. exact Hs.
Qed.
End Invariant.

(** ** The line records are well formed in every state *)

Lemma own_None_keys {V} (r : JS.record V) (key : string) :
  JS.own r key = None -> ~ In key (map fst r).
Proof.
  induction r as [|[k w] r IH]; simpl; [intros _ []|].
  destruct (String.eqb_spec k key); [discriminate|]. intros H [Hk|Hk]; [congruence|].
  exact (IH H Hk).
Qed.

Lemma place_perm {V} (r : JS.record V) (key : string) (v : V) :
  Permutation ((key, v) :: r) (JS.place r key v).
Proof.
  induction r as [|[k w] r IH]; simpl; [apply Permutation_refl|].
  destruct (JS.array_index key) as [n|].
  - destruct (JS.array_index k) as [m|]; [|apply Permutation_refl].
    destruct (n <? m)%N; [apply Permutation_refl|].
    eapply Permutation_trans; [apply perm_swap|]. apply perm_skip. exact IH.
  - eapply Permutation_trans; [apply perm_swap|]. apply perm_skip. exact IH.
Qed.

Lemma set_absent_perm {V} (added : string -> option JS.value) (r : JS.record V)
    (key : string) (v : V) :
  JS.get added r key = JS.Absent ->
  Permutation ((key, v) :: r) (JS.set r key v) /\ ~ In key (map fst r).
Proof.
  unfold JS.get, JS.set. destruct (JS.own r key) eqn:Hown; [discriminate|].
  destruct (JS.is_inherited key) eqn:Hinh; [discriminate|]. intros _.
  split; [|apply own_None_keys; exact Hown].
  destruct (String.eqb_spec key "__proto__") as [->|_]; [discriminate|]. apply place_perm.
Qed.

Lemma repair_lines_length (cs : list Commit.t) (wrong_branch tip : addr)
    (heap : list VisLine.t) (n : nat) :
  List.length (repair_lines cs wrong_branch tip heap n) = List.length heap.
Proof.
  revert heap; induction n as [|k IH]; intros heap; [reflexivity|]. cbn [repair_lines].
  destruct (nth_error cs k); [|reflexivity].
  destruct (filter _ _) eqn:E; [reflexivity|]. rewrite IH. apply repoint_all_length.
Qed.

Lemma at_last_cons {A} (y z : A) (l : list A) : JS.at_last (y :: z :: l) = JS.at_last (z :: l).
Proof. reflexivity. Qed.

Lemma at_last_update_any {A} (l : list A) (k : nat) (f : A -> A) (c' : A) :
  JS.at_last (update l k f) = Some c' ->
  exists c, JS.at_last l = Some c /\ (c' = c \/ c' = f c).
Proof.
  revert k; induction l as [|y l IH]; intros k; [destruct k; discriminate|].
  destruct l as [|z l].
  - destruct k as [|k]; cbn; intros H; injection H as <-; eauto.
  - destruct k as [|k]; cbn [update].
    + rewrite !at_last_cons. eauto.
    + destruct k as [|k]; cbn [update] in *; rewrite !at_last_cons.
      * apply (IH 0%nat).
      * apply (IH (S k)).
Qed.

Lemma wf_lines_initial : wf_lines initial_state.
Proof.
  unfold wf_lines, initial_state. state_fields. cbn [map].
  repeat split; try constructor; intros; try contradiction.
Qed.

Lemma wf_lines_same (st st' : State) :
  line_heap st' = line_heap st ->
  densened_vis_line_by_branch_id st' = densened_vis_line_by_branch_id st ->
  last_densened_vis_line_by_branch_id st' = last_densened_vis_line_by_branch_id st ->
  commits st' = commits st ->
  wf_lines st -> wf_lines st'.
Proof. unfold wf_lines. intros -> -> -> ->. auto. Qed.

Lemma wf_lines_densen (i : Z) (b : addr) (l : VisLine.t) (st : State) :
  wf_lines st -> wf_lines (densen i b l st).
Proof.
  intros (Hkeys & Hvals & Hlvals & Hvalid & Hlvalid & Hdisj & Hprev).
  unfold densen, wf_lines.
  destruct (JS.get _ (densened_vis_line_by_branch_id st) (branch_id (branch_heap st) b))
    as [a| |w|] eqn:Hget; state_fields.
  - rewrite update_length. repeat split; assumption.
  - destruct (String.eqb _ "__proto__"); state_fields; repeat split; assumption.
  - repeat split; assumption.
  - destruct (set_absent_perm _ _ _ (List.length (line_heap st)) Hget) as [Hperm Hfresh].
    pose proof (Permutation_map fst Hperm) as Hpk.
    pose proof (Permutation_map snd Hperm) as Hpv. cbn [map fst snd] in Hpk, Hpv.
    assert (Hnew : ~ In (List.length (line_heap st))
                     (map snd (densened_vis_line_by_branch_id st)))
      by (intros H; apply Hvalid in H; lia).
    assert (Hnewl : ~ In (List.length (line_heap st))
                      (map snd (last_densened_vis_line_by_branch_id st)))
      by (intros H; apply Hlvalid in H; lia).
    rewrite length_app. cbn [List.length].
    split; [eapply Permutation_NoDup; [exact Hpk|constructor; assumption]|].
    split; [eapply Permutation_NoDup; [exact Hpv|constructor; assumption]|].
    split; [assumption|].
    split.
    { intros a Ha. apply (Permutation_in _ (Permutation_sym Hpv)) in Ha.
      destruct Ha as [<-|Ha]; [lia|]. apply Hvalid in Ha. lia. }
    split; [intros a Ha; apply Hlvalid in Ha; lia|].
    split; [|assumption].
    intros a Ha. apply (Permutation_in _ (Permutation_sym Hpv)) in Ha.
    destruct Ha as [<-|Ha]; [assumption|apply Hdisj; assumption].
Qed.

Lemma wf_lines_close (r : float) (row_no : nat) (cb : option addr)
    (hl h an ae dt : string) (refs : list GitRef.t) (subject : string) (st : State) :
  wf_lines st -> wf_lines (close_commit r row_no cb hl h an ae dt refs subject st).
Proof.
  intros (Hkeys & Hvals & Hlvals & Hvalid & Hlvalid & Hdisj & Hprev).
  unfold close_commit, wf_lines, finalize_lines. state_fields.
  rewrite finalize_fold_length. cbn [map].
  split; [constructor|]. split; [constructor|]. split; [assumption|].
  split; [intros a []|]. split; [assumption|]. split; [intros a []|].
  intros c Hc a Ha. rewrite at_last_snoc in Hc. injection Hc as <-.
  cbn [Commit.vis_lines]. eapply Permutation_in; [apply sort_perm|exact Ha].
Qed.

Lemma wf_lines_merge (k : nat) (st : State) :
  wf_lines st -> wf_lines (with_commits (update (commits st) k (Commit.set_merge true)) st).
Proof.
  intros (Hkeys & Hvals & Hlvals & Hvalid & Hlvalid & Hdisj & Hprev).
  unfold wf_lines. state_fields. repeat split; try assumption.
  intros c' Hc' a Ha. apply at_last_update_any in Hc'. destruct Hc' as (c & Hc & [->| ->]).
  - eapply Hprev; eassumption.
  - cbn [Commit.set_merge Commit.vis_lines]. eapply Hprev; eassumption.
Qed.

Lemma wf_lines_repair (wrong_branch tip : addr) (st : State) :
  wf_lines st -> wf_lines (repair wrong_branch tip st).
Proof.
  intros (Hkeys & Hvals & Hlvals & Hvalid & Hlvalid & Hdisj & Hprev).
  unfold wf_lines, repair. state_fields. rewrite repair_lines_length.
  repeat split; assumption.
Qed.

(** Every state of [parse] between two rows, and every state in which a
    commit is closed, has well formed line records. *)
Lemma parse_rows_wf_lines (branch_data separator : string) (curve_radius : float)
    (rows : list (nat * string)) (st0 st : State) :
  build_registry branch_data separator = inr st0 ->
  fold_exn (parse_row separator curve_radius) rows st0 = inr st ->
  wf_lines st
  /\ forall vis_chars tip sc, scan_row vis_chars tip st = inr sc -> wf_lines (state sc).
Proof.
  intros H0 H.
  assert (Hnb : forall name remote tracking s, wf_lines s ->
                  wf_lines (fst (new_branch name remote tracking s)))
    by (intros; eapply wf_lines_same; [..|eassumption]; reflexivity).
  assert (Hni : forall name remote s, wf_lines s ->
                  wf_lines (fst (new_inferred_branch name remote s)))
    by (intros; eapply wf_lines_same; [..|eassumption]; reflexivity).
  assert (Hlv : forall v s, wf_lines s -> wf_lines (with_last_vis v s))
    by (intros; eapply wf_lines_same; [..|eassumption]; reflexivity).
  assert (Hst : wf_lines st).
  { eapply (parse_rows_invariant wf_lines); try eassumption;
      auto using wf_lines_repair, wf_lines_merge, wf_lines_densen, wf_lines_close.
    eapply (build_registry_invariant wf_lines); try eassumption. apply wf_lines_initial. }
  split; [exact Hst|]. intros vis_chars tip sc Hsc.
  eapply (scan_row_invariant wf_lines); try eassumption;
    auto using wf_lines_repair, wf_lines_merge, wf_lines_densen.
Qed.

(** ** The registry holds each branch once *)

Lemma NoDup_firstn_skipn {A} (l : list A) (n m : nat) :
  (n <= m)%nat -> NoDup l -> NoDup (firstn n l ++ skipn m l).
Proof.
  revert n m; induction l as [|x l IH]; intros n m Hnm Hnd.
  - rewrite firstn_nil, skipn_nil. constructor.
  - inversion Hnd as [|? ? Hx Hl]; subst.
    destruct n as [|n]; cbn [firstn app].
    + destruct m as [|m]; cbn [skipn]; [exact Hnd|].
      apply (IH 0%nat m); [lia|exact Hl].
    + destruct m as [|m]; [lia|]. cbn [skipn]. constructor.
      * intros Hin. apply Hx. apply in_app_or in Hin. destruct Hin as [Hin|Hin].
        -- eapply firstn_In; exact Hin.
        -- rewrite <- (firstn_skipn m l). apply in_or_app. right. exact Hin.
      * apply IH; [lia|exact Hl].
Qed.

Lemma wf_registry_new_branch (name : string) (remote tracking : option string) (st : State) :
  wf_registry st -> wf_registry (fst (new_branch name remote tracking st)).
Proof.
  intros [Hnd Hvalid]. unfold wf_registry, new_branch. cbn [fst]. state_fields.
  rewrite length_app. cbn [List.length]. split.
  - apply NoDup_app; [exact Hnd|repeat constructor; intros []|].
    intros b Hb [<-|[]]. apply Hvalid in Hb. lia.
  - intros b Hb. apply in_app_or in Hb. destruct Hb as [Hb|[<-|[]]]; [apply Hvalid in Hb|]; lia.
Qed.

Lemma wf_registry_new_inferred_branch (name : string) (remote : option string) (st : State) :
  wf_registry st -> wf_registry (fst (new_inferred_branch name remote st)).
Proof.
  intros H. rewrite new_inferred_branch_eq. cbn [fst].
  pose proof (wf_registry_new_branch name remote None st H) as [Hnd Hvalid].
  unfold wf_registry, new_branch in *. cbn [fst] in *. revert Hnd Hvalid. state_fields.
  rewrite !length_app. auto.
Qed.

Lemma wf_registry_repair (wrong_branch tip : addr) (st : State) :
  wf_registry st -> wf_registry (repair wrong_branch tip st).
Proof.
  intros [Hnd Hvalid]. unfold wf_registry, repair. state_fields. split.
  - unfold JS.splice1. apply NoDup_firstn_skipn; [lia|exact Hnd].
  - intros b Hb. apply Hvalid. eapply splice1_sublist. exact Hb.
Qed.

Lemma wf_registry_same (st st' : State) :
  branches st' = branches st ->
  List.length (branch_heap st') = List.length (branch_heap st) ->
  wf_registry st -> wf_registry st'.
Proof. unfold wf_registry. intros -> ->. auto. Qed.

(** Every state of [parse] between two rows, and every state in which a cell
    of a row is resolved, has a registry without repeated branches. *)
Lemma parse_rows_wf_registry (branch_data separator : string) (curve_radius : float)
    (rows : list (nat * string)) (st0 st : State) :
  build_registry branch_data separator = inr st0 ->
  fold_exn (parse_row separator curve_radius) rows st0 = inr st ->
  wf_registry st
  /\ forall vis_chars tip cells sc,
       fold_exn (scan_cell vis_chars tip) cells (mkScan st [] None) = inr sc ->
       wf_registry (state sc).
Proof.
  intros H0 H.
  assert (Hm : forall k s, wf_registry s ->
                 wf_registry (with_commits (update (commits s) k (Commit.set_merge true)) s))
    by (intros; eapply wf_registry_same; [..|eassumption]; reflexivity).
  assert (Hd : forall i b l s, wf_registry s -> wf_registry (densen i b l s)).
  { intros i b l s Hs. eapply wf_registry_same; [..|exact Hs]; densen_cases; reflexivity. }
  assert (Hc : forall r row_no cb hl h an ae dt refs subject s,
                 wf_registry s ->
                 wf_registry (close_commit r row_no cb hl h an ae dt refs subject s))
    by (intros; eapply wf_registry_same; [..|eassumption]; reflexivity).
  assert (Hlv : forall v s, wf_registry s -> wf_registry (with_last_vis v s))
    by (intros; eapply wf_registry_same; [..|eassumption]; reflexivity).
  assert (Hst : wf_registry st).
  { eapply (parse_rows_invariant wf_registry); try eassumption;
      auto using wf_registry_new_branch, wf_registry_new_inferred_branch, wf_registry_repair.
    eapply (build_registry_invariant wf_registry); try eassumption;
      auto using wf_registry_new_branch.
    split; [constructor|intros b []]. }
  split; [exact Hst|]. intros vis_chars tip cells sc Hsc.
  revert Hsc. apply (fold_exn_invariant (fun sc => wf_registry (state sc))); [|exact Hst].
  intros s [k char] s' Hs. unfold scan_cell.
  destruct (resolve_cell _ _ _ _ _ _) as [e|r] eqn:E; [discriminate|].
  intros Heq; apply inr_eq in Heq; subst. cbn [state].
  apply (resolve_cell_invariant wf_registry) in E;
    auto using wf_registry_new_inferred_branch, wf_registry_repair.
  destruct (v_branch r); [|exact E]. destruct (vis_line r); [apply Hd|]; exact E.
Qed.

(** ** The counter of the synthetic ids *)

(** C5 fails on [counter_reuse_log]: the marker of the first merge of
    "develop" makes the inferred branch "develop~3" (branch 4) while the
    inferred "topic~2" is registered; the tip of "topic" takes "topic~2" out
    of the registry, which makes it shorter; the marker of the second merge of
    "develop" then reads the same counter and registers a second branch
    (branch 5) under the id "develop~3". *)
Theorem registry_counter_is_reused :
  exists st0 st,
    build_registry topic_branches SEP = inr st0
    /\ parse_rows SEP 0.25%float counter_reuse_log st0 = inr st
    /\ branches st = [0; 1; 2; 4; 5]%nat
    /\ map (branch_id (branch_heap st)) (branches st)
       = ["master"; "topic"; "HEAD"; "develop~3"; "develop~3"]
    /\ map Branch.id (branch_heap st)
       = ["master"; "topic"; "HEAD"; "topic~2"; "develop~3"; "develop~3"]
    /\ ~ NoDup (map (branch_id (branch_heap st)) (branches st)).
Proof.
  eexists. eexists. split; [vm_compute; reflexivity|]. split; [vm_compute; reflexivity|].
  state_fields. split; [reflexivity|]. split; [vm_compute; reflexivity|].
  split; [reflexivity|]. vm_compute. intros H.
  repeat match goal with
         | H : NoDup (_ :: _) |- _ => inversion H; clear H; subst
         end.
  match goal with H : ~ In "develop~3" _ |- _ => apply H; left; reflexivity end.
Qed.

(** ** The junction of the lines of adjacent commits *)

Lemma deref_app_old {A} (heap : list A) (x : addr) (v y : A) :
  deref heap x = Some v -> deref (heap ++ [y]) x = Some v.
Proof.
  unfold deref. intros H. rewrite nth_error_app1; [exact H|].
  apply nth_error_Some. congruence.
Qed.

Lemma deref_valid {A} (heap : list A) (x : addr) (v : A) :
  deref heap x = Some v -> (x < List.length heap)%nat.
Proof. unfold deref. intros H. apply nth_error_Some. congruence. Qed.

(** C2.  On two commits in column 0, one above the other, the segments of
    "master" get no junction that is a number.  The claim computes with
    numbers: with x0 = xn = 0.5 on both segments and a radius of 0.25,
    last_xce and xcs are 0.5 and the middle is 0.5.  In the code the
    coordinates are strings by then, "0.50", and [+] concatenates: last_xce
    and xcs are the string "0.500", their sum is the string "0.5000.500",
    which is no number, and the middle is NaN.  The earlier commit's segment
    has xn = NaN, xce = "0.500", yce = 1 - r, yn = 1 and the later one's has
    x0 = NaN, xcs = "0.500", ycs = r and y0 = 0: the two do not meet at a
    coordinate, NaN being equal to nothing, itself included. *)
Theorem junction_of_adjacent_commits_is_no_number :
  exists out first second last this middle,
    parse no_palette two_commit_log scenario_A_branches EmptyString SEP 0.25%float = inr out
    /\ out_commits out = [first; second]
    /\ Commit.branch first = Commit.branch second
    /\ map (deref (out_line_heap out)) (Commit.vis_lines first) = [Some last]
    /\ map (deref (out_line_heap out)) (Commit.vis_lines second) = [Some this]
    /\ VisLine.branch last = VisLine.branch this
    /\ VisLine.xn last = JS.Num middle /\ VisLine.x0 this = JS.Num middle
    /\ PrimFloat.is_nan middle = true /\ (middle =? middle)%float = false
    /\ VisLine.xce last = Some (Some (JS.Str "0.500"))
    /\ VisLine.xcs this = Some (JS.Str "0.500")
    /\ JS.add (JS.Str "0.500") (JS.Str "0.500") = JS.Str "0.5000.500"
    /\ PrimFloat.is_nan (JS.string_to_number "0.5000.500") = true
    /\ VisLine.yce last = Some 0.75%float /\ VisLine.yn last = Some 1%float
    /\ VisLine.ycs this = Some 0.25%float /\ VisLine.y0 this = Some 0%float
    /\ (0.5 + (0.5 - 0.5) * (1 - 0.25))%float = 0.5%float
    /\ ((0.5 + 0.5) / 2)%float = 0.5%float.
Proof.
  do 6 eexists.
  split; [vm_compute; reflexivity|].
  cbn [out_commits out_line_heap].
  split; [reflexivity|].
  repeat split; vm_compute; reflexivity.
Qed.

(** ** One commit for each row with a subject *)

Lemma scan_row_commits (vis_chars : list ascii) (tip : option addr) (st : State) (sc : Scan) :
  scan_row vis_chars tip st = inr sc ->
  List.length (commits (state sc)) = List.length (commits st).
Proof.
  intros H.
  refine (scan_row_invariant (fun s => List.length (commits s) = List.length (commits st))
            _ _ _ _ vis_chars tip st sc eq_refl H).
  - intros name remote s Hs. rewrite new_inferred_branch_eq. exact Hs.
  - intros wrong_branch t s Hs. exact Hs.
  - intros k s Hs. state_fields. rewrite update_length. exact Hs.
  - intros i b l s _ Hs. densen_cases; exact Hs.
Qed.

Lemma parse_row_commits (separator : string) (r : float) (st st' : State)
    (row_no : nat) (row : string) :
  parse_row separator r st (row_no, row) = inr st' ->
  List.length (commits st')
  = (List.length (commits st) + if has_subject separator row then 1 else 0)%nat.
Proof.
  unfold parse_row, has_subject.
  destruct (String.eqb row "... "); cbn [negb andb].
  - intros H. apply inr_eq in H. subst. lia.
  - destruct (has_unknown_char _); [discriminate|].
    destruct (scan_row _ _ _) as [e|sc] eqn:E; [discriminate|].
    intros H. apply inr_eq in H. subst. apply scan_row_commits in E. state_fields.
    destruct (JS.truthy _).
    + unfold close_commit. state_fields. rewrite length_app, E. reflexivity.
    + rewrite E. lia.
Qed.

Lemma parse_rows_commits (separator : string) (r : float) (rows : list (nat * string))
    (st st' : State) :
  fold_exn (parse_row separator r) rows st = inr st' ->
  List.length (commits st')
  = (List.length (commits st)
     + List.length (filter (has_subject separator) (map snd rows)))%nat.
Proof.
  revert st; induction rows as [|[row_no row] rows IH]; intros st; cbn [fold_exn].
  - intros H. apply inr_eq in H. subst. cbn. lia.
  - destruct (parse_row separator r st (row_no, row)) as [e|st1] eqn:E; [discriminate|].
    intros H. apply IH in H. apply parse_row_commits in E. rewrite H, E. cbn [map snd filter].
    destruct (has_subject separator row); cbn [List.length]; lia.
Qed.

Lemma map_snd_entries {A} (l : list A) : map snd (entries l) = l.
Proof.
  unfold entries. generalize 0%nat. induction l as [|x l IH]; intros s; [reflexivity|].
  cbn. rewrite IH. reflexivity.
Qed.

Lemma attach_stashes_length (stash_data : string) (cs : list Commit.t) :
  List.length (attach_stashes stash_data cs) = List.length cs.
Proof.
  unfold attach_stashes. generalize (JS.split stash_data NL). intros lines.
  revert cs; induction lines as [|line lines IH]; intros cs; [reflexivity|].
  cbn [fold_left]. rewrite IH. unfold attach_stash.
  destruct (nth_error _ 0); [|reflexivity].
  destruct (find_commit _ _); [apply update_length|reflexivity].
Qed.

(** When [parse] returns, it returns one commit for each row of [log_data]
    that has a subject and is not the skipped row. *)
Theorem one_commit_per_subject_row (palette : string -> option string)
    (log_data branch_data stash_data separator : string) (curve_radius : float) (out : Output)
    (Hparse : parse palette log_data branch_data stash_data separator curve_radius = inr out) :
  List.length (out_commits out)
  = List.length (filter (has_subject separator) (JS.split log_data NL)).
Proof.
  unfold parse in Hparse.
  destruct (build_registry branch_data separator) as [e|st0] eqn:H0; [discriminate|].
  destruct (parse_rows separator curve_radius log_data st0) as [e|st] eqn:H; [discriminate|].
  apply inr_eq in Hparse. subst out. cbn [finish out_commits].
  rewrite attach_stashes_length. unfold parse_rows in H. apply parse_rows_commits in H.
  rewrite H, map_snd_entries.
  assert (E : commits st0 = []).
  { apply (build_registry_invariant (fun s => commits s = [])) in H0; auto. }
  rewrite E. reflexivity.
Qed.

(** The three rows of [merge_log] give two commits. *)
Lemma one_commit_per_subject_row_witness :
  exists out,
    parse no_palette merge_log scenario_A_branches EmptyString SEP 0.25%float = inr out
    /\ List.length (out_commits out)
       = List.length (filter (has_subject SEP) (JS.split merge_log NL))
    /\ List.length (out_commits out) = 2%nat.
Proof.
  eexists. split; [vm_compute; reflexivity|]. split; [|reflexivity].
  apply (one_commit_per_subject_row no_palette merge_log scenario_A_branches EmptyString
           SEP 0.25%float).
  vm_compute. reflexivity.
Defined.

(** In every state that [parse] reaches between two rows the registry holds
    no branch twice, and only branches of the heap. *)
Theorem registry_never_repeats_a_branch
    (log_data branch_data separator : string) (curve_radius : float) (st0 st : State)
    (Hregistry : build_registry branch_data separator = inr st0)
    (Hrows : parse_rows separator curve_radius log_data st0 = inr st) :
  NoDup (branches st)
  /\ forall b, In b (branches st) -> exists branch, deref (branch_heap st) b = Some branch.
Proof.
  destruct (parse_rows_wf_registry _ _ _ _ _ _ Hregistry Hrows) as [[Hnd Hvalid] _].
  split; [exact Hnd|]. intros b Hb. apply Hvalid in Hb. unfold deref.
  destruct (nth_error (branch_heap st) b) eqn:E; [eauto|].
  apply nth_error_None in E. lia.
Qed.

(** The registry after [counter_reuse_log]. *)
Lemma registry_never_repeats_witness :
  exists st0 st,
    build_registry topic_branches SEP = inr st0
    /\ parse_rows SEP 0.25%float counter_reuse_log st0 = inr st
    /\ NoDup (branches st).
Proof.
  eexists. eexists. split; [vm_compute; reflexivity|]. split; [vm_compute; reflexivity|].
  refine (proj1 (registry_never_repeats_a_branch counter_reuse_log topic_branches SEP 0.25%float
                   _ _ _ _)).
  - vm_compute. reflexivity.
  - vm_compute. reflexivity.
Defined.

(** ** The comparator is consistent *)

(** [git_ref_sort] is a consistent comparator: a ref compares equal to
    itself, exchanging the arguments negates the result, and "not after" is
    transitive.  So the order of [refs.sort(git_ref_sort)] does not depend on
    the sorting algorithm of the engine. *)
Theorem git_ref_sort_consistent {R : Type} (id : R -> string) :
  (forall a, git_ref_sort id a a = 0)
  /\ (forall a b, git_ref_sort id b a = - git_ref_sort id a b)
  /\ (forall a b c,
        git_ref_sort id a b <= 0 -> git_ref_sort id b c <= 0 -> git_ref_sort id a c <= 0)
  /\ (forall a b c,
        git_ref_sort id a b = 0 -> git_ref_sort id b c = 0 -> git_ref_sort id a c = 0).
Proof.
  unfold git_ref_sort, or_num. repeat split.
  - intros a. rewrite !Z.sub_diag. reflexivity.
  - intros a b.
    repeat match goal with |- context [?x =? 0] => destruct (Z.eqb_spec x 0) end; lia.
  - intros a b c.
    generalize (JS.indexOf (id a) "/"), (JS.indexOf (id b) "/"), (JS.indexOf (id c) "/").
    intros ia ib ic.
    destruct (JS.startsWith (id a) "tag: "), (JS.startsWith (id a) "refs/"),
      (JS.startsWith (id b) "tag: "), (JS.startsWith (id b) "refs/"),
      (JS.startsWith (id c) "tag: "), (JS.startsWith (id c) "refs/"); simpl;
      repeat match goal with |- context [?x =? 0] => destruct (Z.eqb_spec x 0) end; lia.
  - intros a b c.
    generalize (JS.indexOf (id a) "/"), (JS.indexOf (id b) "/"), (JS.indexOf (id c) "/").
    intros ia ib ic.
    destruct (JS.startsWith (id a) "tag: "), (JS.startsWith (id a) "refs/"),
      (JS.startsWith (id b) "tag: "), (JS.startsWith (id b) "refs/"),
      (JS.startsWith (id c) "tag: "), (JS.startsWith (id c) "refs/"); simpl;
      repeat match goal with |- context [?x =? 0] => destruct (Z.eqb_spec x 0) end; lia.
Qed.

(** A tag, a remote branch and a local branch. *)
Lemma git_ref_sort_consistent_witness :
  git_ref_sort (fun s : string => s) "main" "tag: v1"
  = - git_ref_sort (fun s : string => s) "tag: v1" "main"
  /\ git_ref_sort (fun s : string => s) "tag: v1" "main" <= 0
  /\ git_ref_sort (fun s : string => s) "tag: v1" "origin/main" <= 0.
Proof.
  destruct (git_ref_sort_consistent (fun s : string => s)) as (_ & Hswap & Htrans & _).
  split; [apply Hswap|]. split; [vm_compute; discriminate|].
  apply (Htrans "tag: v1" "main" "origin/main"); vm_compute; discriminate.
Defined.

(** In a list that the comparator has sorted, a ref that is no tag and whose
    id starts with "refs/" stands before every other ref, and a tag stands
    before every ref that is neither a tag nor has such an id - as the id of a
    branch of the registry, which has lost its "refs/heads/" or
    "refs/remotes/", is not. *)
Theorem sort_refs_tags_first {R : Type} (id : R -> string) (refs : list R)
    (i j : nat) (a b : R) :
  nth_error (sort_refs id refs) i = Some a ->
  nth_error (sort_refs id refs) j = Some b ->
  (JS.startsWith (id a) "tag: " = true
   /\ JS.startsWith (id b) "tag: " = false /\ JS.startsWith (id b) "refs/" = false)
  \/ (JS.startsWith (id a) "tag: " = false /\ JS.startsWith (id a) "refs/" = true
      /\ (JS.startsWith (id b) "tag: " = true \/ JS.startsWith (id b) "refs/" = false)) ->
  (i < j)%nat.
Proof.
  intros Hi Hj Hab.
  destruct (sort_refs_sorted id refs) as [_ Hsorted].
  destruct (Nat.lt_trichotomy i j) as [Hlt|[->|Hgt]]; [exact Hlt| |].
  - rewrite Hi in Hj. injection Hj as ->.
    destruct Hab as [(Ha & Hb & _)|(Ha & Ha' & [Hb|Hb])]; congruence.
  - pose proof (StronglySorted_nth _ _ _ _ _ _ Hsorted Hgt Hj Hi) as H.
    unfold sorts_before, git_ref_sort, or_num in H.
    destruct Hab as [(Ha & Hb & Hb')|(Ha & Ha' & Hb)].
    + rewrite Ha, Hb, Hb' in H. simpl in H. lia.
    + rewrite Ha, Ha' in H.
      destruct Hb as [Hb|Hb]; rewrite Hb in H;
        destruct (JS.startsWith (id b) "refs/"), (JS.startsWith (id b) "tag: ");
        simpl in H; try lia; try discriminate.
Qed.

Lemma sort_refs_tags_first_witness :
  nth_error (sort_refs (fun s : string => s) ("main" :: "tag: v1" :: nil)) 0 = Some "tag: v1"
  /\ nth_error (sort_refs (fun s : string => s) ("main" :: "tag: v1" :: nil)) 1 = Some "main"
  /\ (0 < 1)%nat.
Proof.
  split; [reflexivity|]. split; [reflexivity|].
  apply (sort_refs_tags_first (fun s : string => s) ("main" :: "tag: v1" :: nil)
           0 1 "tag: v1" "main"); [reflexivity|reflexivity|].
  left. split; [reflexivity|]. split; reflexivity.
Defined.

(** ** The registry as it is built *)

Lemma Forall2_nth_length {A B} {R : A -> B -> Prop} {l : list A} {l' : list B} :
  Forall2 R l l' -> List.length l = List.length l'.
Proof. induction 1; cbn [List.length]; congruence. Qed.

Lemma Forall2_nth {A B} {R : A -> B -> Prop} {l : list A} {l' : list B} :
  Forall2 R l l' ->
  forall k x, nth_error l k = Some x -> exists y, nth_error l' k = Some y /\ R x y.
Proof.
  induction 1 as [|a b l l' H _ IH]; intros k x Hk.
  - destruct k; discriminate.
  - destruct k as [|k]; cbn [nth_error] in *.
    + injection Hk as <-. eauto.
    + eauto.
Qed.

Lemma split_slash_cases (s : string) :
  (exists r n, s = (r ++ "/" ++ n)%string /\ mentions "/" r = false
               /\ JS.split s "/" = r :: JS.split n "/")
  \/ (mentions "/" s = false /\ JS.split s "/" = [s]).
Proof.
  unfold JS.split. induction s as [|d s IH].
  - right. split; reflexivity.
  - rewrite split_pieces_char. destruct (Ascii.eqb "/" d) eqn:E.
    + apply Ascii.eqb_eq in E. subst d. left. exists EmptyString, s.
      split; [reflexivity|]. split; reflexivity.
    + destruct IH as [(r & n & Hs & Hr & Hsplit)|(Hs & Hsplit)].
      * left. exists (String d r), n.
        destruct (JS.split_pieces "/" 0 s) as [p ps]. injection Hsplit as -> ->.
        split; [rewrite Hs; reflexivity|]. split; [|reflexivity].
        cbn [mentions]. rewrite E, Hr. reflexivity.
      * right. destruct (JS.split_pieces "/" 0 s) as [p ps]. injection Hsplit as -> ->.
        split; [|reflexivity]. cbn [mentions]. rewrite E, Hs. reflexivity.
Qed.

Lemma add_branch_line_spec (sep : string) (st st' : State) (branch_line : string) :
  add_branch_line sep st branch_line = inr st' ->
  exists branch,
    registered_from sep branch_line branch
    /\ branch_heap st' = branch_heap st ++ [branch]
    /\ branches st' = branches st ++ [List.length (branch_heap st)]
    /\ line_heap st' = line_heap st /\ commits st' = commits st.
Proof.
  unfold add_branch_line, registered_from.
  destruct (nth_error (JS.split branch_line sep) 1) as [ref_name|] eqn:Href; [|discriminate].
  destruct (JS.startsWith ref_name "refs/heads/") eqn:Hheads.
  - intros H. apply inr_eq in H. subst st'. eexists. split; [|repeat split].
    exists ref_name. rewrite Hheads. cbn. repeat split; reflexivity.
  - destruct (split_slash_cases (JS.slice_from 13 ref_name))
      as [(r & n & Hs & Hr & Hsplit)|(Hs & Hsplit)]; rewrite Hsplit.
    + intros H. apply inr_eq in H. subst st'. eexists. split; [|repeat split].
      exists ref_name. rewrite Hheads. cbn [Branch.color Branch.type Branch.inferred
        Branch.name Branch.id Branch.remote_name Branch.tracking_remote_name].
      rewrite split_slash_join. repeat split. exists r. split; [reflexivity|].
      split; [exact Hr|]. left. split; [exact Hs|]. rewrite Hs. reflexivity.
    + intros H. apply inr_eq in H. subst st'. eexists. split; [|repeat split].
      exists ref_name. rewrite Hheads. cbn [Branch.color Branch.type Branch.inferred
        Branch.name Branch.id Branch.remote_name Branch.tracking_remote_name].
      repeat split. exists (JS.slice_from 13 ref_name). split; [reflexivity|].
      split; [exact Hs|]. right. split; [reflexivity|]. split; reflexivity.
Qed.

Lemma add_branch_lines_spec (sep : string) (lines : list string) :
  forall st st',
    fold_exn (add_branch_line sep) lines st = inr st' ->
    exists added,
      Forall2 (registered_from sep) lines added
      /\ branch_heap st' = branch_heap st ++ added
      /\ branches st' = branches st ++ seq (List.length (branch_heap st)) (List.length lines)
      /\ line_heap st' = line_heap st /\ commits st' = commits st.
Proof.
  induction lines as [|l lines IH]; intros st st' H.
  - apply inr_eq in H. subst st'. exists []. rewrite !app_nil_r. repeat split. constructor.
  - cbn [fold_exn] in H. destruct (add_branch_line sep st l) as [e|st1] eqn:H1; [discriminate|].
    apply add_branch_line_spec in H1. destruct H1 as (b & Hb & Hheap & Hreg & Hlines & Hcommits).
    apply IH in H. destruct H as (added & Hall & Hheap' & Hreg' & Hlines' & Hcommits').
    exists (b :: added). split; [constructor; assumption|].
    rewrite Hheap', Hreg', Hheap, Hreg, Hlines', Hcommits', Hlines, Hcommits.
    rewrite <- !app_assoc, length_app. cbn [List.length seq app].
    rewrite Nat.add_1_r. repeat split.
Qed.

(** When [parse] has built its registry, the registry lists one Branch
    for each line of [branch_data], in the order of the lines, and the Branch
    named HEAD after them.  The Branch of a line is the one its ref path
    stands for; none is inferred and none has a colour yet. *)
Theorem build_registry_one_branch_per_line (branch_data separator : string) (st : State) :
  build_registry branch_data separator = inr st ->
  let branch_lines := JS.split branch_data NL in
  branches st = seq 0 (S (List.length branch_lines))
  /\ List.length (branch_heap st) = S (List.length branch_lines)
  /\ deref (branch_heap st) (List.length branch_lines) = Some head_branch
  /\ forall k branch_line,
       nth_error branch_lines k = Some branch_line ->
       exists branch,
         deref (branch_heap st) k = Some branch
         /\ registered_from separator branch_line branch.
Proof.
  intros H branch_lines. unfold build_registry in H. fold branch_lines in H.
  destruct (fold_exn (add_branch_line separator) branch_lines initial_state) as [e|st1] eqn:H1;
    [discriminate|].
  apply inr_eq in H. subst st.
  apply add_branch_lines_spec in H1. destruct H1 as (added & Hall & Hheap & Hreg & _).
  cbn [initial_state branch_heap branches app List.length] in Hheap, Hreg.
  pose proof (Forall2_nth_length Hall) as Hlen.
  unfold new_branch. cbn [fst branches branch_heap with_branches with_branch_heap].
  rewrite Hheap, Hreg. split; [|split; [|split]].
  - rewrite seq_S. rewrite Hlen. reflexivity.
  - rewrite length_app. cbn [List.length]. lia.
  - unfold deref. rewrite Hlen, nth_error_app2, Nat.sub_diag by lia. reflexivity.
  - intros k branch_line Hk.
    destruct (Forall2_nth Hall k _ Hk) as (branch & Hbranch & Hrel).
    exists branch. split; [|exact Hrel].
    unfold deref. rewrite nth_error_app1; [exact Hbranch|].
    apply nth_error_Some. congruence.
Qed.

Lemma build_registry_one_branch_per_line_witness :
  exists st,
    build_registry tracked_branches SEP = inr st
    /\ branches st = [0; 1; 2]%nat.
Proof.
  eexists. split; [vm_compute; reflexivity|].
  exact (proj1 (build_registry_one_branch_per_line tracked_branches SEP _ eq_refl)).
Defined.

(** ** The refs of a row *)

Lemma keep_defined_In {A} (l : list (option A)) (x : A) :
  In x (keep_defined l) <-> In (Some x) l.
Proof.
  induction l as [|[y|] l IH]; cbn [keep_defined In].
  - tauto.
  - rewrite IH. split; intros [H|H]; auto; left; congruence.
  - rewrite IH. split; [auto|]. intros [H|H]; [discriminate|exact H].
Qed.

Lemma eqb_false_neq (s t : string) : negb (String.eqb s t) = true <-> s <> t.
Proof.
  destruct (String.eqb_spec s t) as [->|n]; cbn [negb]; split; congruence.
Qed.

(** The refs of a row are exactly these: for every name that its decoration
    field lists, other than the empty name and "refs/stash", the tag of that
    name if the name starts with "tag: ", and else the first branch of the
    registry whose id is the name; a name that is the id of no registered
    branch gives no ref. *)
Theorem row_refs_are_tags_and_registered_branches (st : State) (refs_csv : string)
    (r : GitRef.t) :
  In r (resolve_refs st refs_csv) <->
  exists name,
    named_in refs_csv name
    /\ name <> "refs/stash" /\ name <> EmptyString
    /\ if JS.startsWith name "tag: "
       then r = GitRef.of_object (GitRef.mk name (JS.slice_from 5 name) None type_tag)
       else exists b,
           r = GitRef.of_branch b
           /\ find (fun b => String.eqb name (branch_id (branch_heap st) b)) (branches st)
              = Some b.
Proof.
  unfold resolve_refs, named_in.
  destruct (sort_refs_sorted (ref_id (branch_heap st))
              (keep_defined (map (resolve_ref st)
                 (filter JS.truthy (filter (fun r => negb (String.eqb r "refs/stash"))
                    (map (fun r => JS.or_else (nth_error (JS.split r " -> ") 1) r)
                       (JS.split refs_csv ", "))))))) as [Hperm _].
  split.
  - intros H. apply (Permutation_in _ (Permutation_sym Hperm)) in H.
    apply keep_defined_In, in_map_iff in H. destruct H as (name & Hres & Hname).
    apply filter_In in Hname. destruct Hname as [Hname Htruthy].
    apply filter_In in Hname. destruct Hname as [Hname Hstash].
    apply in_map_iff in Hname. destruct Hname as (part & Hpart & Hin).
    exists name. split; [exists part; auto|].
    split; [apply eqb_false_neq; exact Hstash|].
    split; [apply eqb_false_neq; exact Htruthy|].
    unfold resolve_ref in Hres. destruct (JS.startsWith name "tag: ").
    + congruence.
    + destruct (find _ (branches st)) as [b|]; [|discriminate].
      exists b. split; congruence.
  - intros (name & (part & Hin & Hpart) & Hstash & Hempty & Hres).
    apply (Permutation_in _ Hperm). apply keep_defined_In, in_map_iff.
    exists name. split.
    + unfold resolve_ref. destruct (JS.startsWith name "tag: ").
      * congruence.
      * destruct Hres as (b & -> & ->). reflexivity.
    + apply filter_In. split; [|apply eqb_false_neq; exact Hempty].
      apply filter_In. split; [|apply eqb_false_neq; exact Hstash].
      apply in_map_iff. exists part. split; congruence.
Qed.

(** The decoration "HEAD -> master, tag: v1, gone" on the registry of
    Scenario A: the branch "master" is a ref of the row. *)
Lemma row_refs_witness :
  In (GitRef.of_branch 0%nat)
    (resolve_refs
       (mkState [Branch.mk "master" None type_branch None (Some EmptyString) "master" false;
                 head_branch] [0; 1]%nat [] [] [] [] [] [] (Prototype.mk None None))
       "HEAD -> master, tag: v1, gone").
Proof.
  apply row_refs_are_tags_and_registered_branches.
  exists "master". split.
  - exists "HEAD -> master". split; [vm_compute; auto|reflexivity].
  - split; [discriminate|]. split; [discriminate|].
    exists 0%nat. split; reflexivity.
Defined.

(** ** The one exception of the grid analyzer *)

Lemma walk_dashes_none (lv : Vis.t) (n : nat) :
  walk_dashes lv n = None <->
  exists m, (m <= n)%nat
            /\ JS.get_index lv (Z.of_nat m - 1) = None
            /\ forall k, (m <= k < n)%nat -> char_is (JS.get_index lv (Z.of_nat k)) "-" = true.
Proof.
  induction n as [|n IH].
  - split; [|reflexivity]. intros _. exists 0%nat. split; [lia|]. split; [reflexivity|]. lia.
  - cbn [walk_dashes]. split.
    + destruct (JS.get_index lv (Z.of_nat n)) as [cell|] eqn:Hn.
      * destruct (Ascii.eqb (Vis.char cell) "-") eqn:Hdash; [|discriminate].
        intros H. apply IH in H. destruct H as (m & Hm & Hnone & Hall).
        exists m. split; [lia|]. split; [exact Hnone|]. intros k Hk.
        destruct (Nat.eq_dec k n) as [->|Hne]; [rewrite Hn; exact Hdash|apply Hall; lia].
      * intros _. exists (S n). split; [lia|]. split; [|lia].
        replace (Z.of_nat (S n) - 1) with (Z.of_nat n) by lia. exact Hn.
    + intros (m & Hm & Hnone & Hall). destruct (Nat.eq_dec m (S n)) as [->|Hne].
      * replace (Z.of_nat (S n) - 1) with (Z.of_nat n) in Hnone by lia.
        rewrite Hnone. reflexivity.
      * assert (Hn : char_is (JS.get_index lv (Z.of_nat n)) "-" = true) by (apply Hall; lia).
        destruct (JS.get_index lv (Z.of_nat n)) as [cell|]; [|discriminate].
        cbn [char_is] in Hn. rewrite Hn. apply IH. exists m. split; [lia|].
        split; [exact Hnone|]. intros k Hk. apply Hall. lia.
Qed.

(** The scan of a cell throws in one case only, and then a TypeError: the
    cell is a backslash with no pipe left of it, the cell that [vis[i + 1]]
    reads is no pipe either - the cell under the key of the column followed
    by the digit 1, which is not the right neighbour -, the cell above and
    left of it is a dot or a dash, and the cells of the row above that are
    further left are dashes up to the left edge of the row, or up to a cell
    that the row above does not have. *)
Theorem cell_throws_iff_dashes_reach_the_edge (vis_chars : list ascii)
    (branch_tip : option addr) (st : State) (vis : Vis.t) (col : nat) (char : ascii)
    (e : exn) :
  resolve_cell vis_chars branch_tip st vis (Z.of_nat col) char = inl e <->
  e = TypeError undefined_w_char_match
  /\ char = "\"%char
  /\ char_is (JS.at_key vis (JS.key (Z.of_nat col) ++ "1")) "|" = false
  /\ JS.at_index vis_chars (Z.of_nat col - 1) <> Some "|"%char
  /\ (char_is (JS.get_index (last_vis st) (Z.of_nat col - 1)) "."
      || char_is (JS.get_index (last_vis st) (Z.of_nat col - 1)) "-") = true
  /\ exists m,
       (m < col)%nat
       /\ JS.get_index (last_vis st) (Z.of_nat m - 1) = None
       /\ forall k, (m <= k < col - 1)%nat ->
                    char_is (JS.get_index (last_vis st) (Z.of_nat k)) "-" = true.
Proof.
  assert (Hcol : col <> 0%nat ->
                 Z.to_nat (Z.of_nat col - 2 + 1) = (col - 1)%nat) by lia.
  unfold resolve_cell, case_backslash. split.
  - destruct (Ascii.eqb char "*"); [discriminate|].
    destruct (Ascii.eqb char "|"); [discriminate|].
    destruct (Ascii.eqb char "_"); [discriminate|].
    destruct (Ascii.eqb char "/"); [discriminate|].
    destruct (Ascii.eqb char "\") eqn:Hchar; [|discriminate].
    apply Ascii.eqb_eq in Hchar.
    destruct (char_is (JS.at_key vis (JS.key (Z.of_nat col) ++ "1")) "|") eqn:He; [discriminate|].
    destruct (JS.at_index vis_chars (Z.of_nat col - 1)) as [w|] eqn:Hw.
    + destruct (Ascii.eqb w "|") eqn:Hpipe.
      { destruct (merge_marker st). discriminate. }
      destruct (char_is _ "|" || char_is _ "\"); [discriminate|].
      destruct (char_is _ "." || char_is _ "-") eqn:Hnw; [|discriminate].
      destruct (walk_dashes _ _) eqn:Hwalk; [discriminate|].
      intros H. injection H as <-.
      split; [reflexivity|]. split; [exact Hchar|]. split; [reflexivity|].
      split; [intros [= ->]; discriminate|]. split; [reflexivity|].
      destruct col as [|col]; [discriminate|].
      rewrite Hcol in Hwalk by lia. apply walk_dashes_none in Hwalk.
      destruct Hwalk as (m & Hm & Hnone & Hall). exists m. split; [lia|]. auto.
    + destruct (char_is _ "|" || char_is _ "\"); [discriminate|].
      destruct (char_is _ "." || char_is _ "-") eqn:Hnw; [|discriminate].
      destruct (walk_dashes _ _) eqn:Hwalk; [discriminate|].
      intros H. injection H as <-.
      split; [reflexivity|]. split; [exact Hchar|]. split; [reflexivity|].
      split; [discriminate|]. split; [reflexivity|].
      destruct col as [|col]; [discriminate|].
      rewrite Hcol in Hwalk by lia. apply walk_dashes_none in Hwalk.
      destruct Hwalk as (m & Hm & Hnone & Hall). exists m. split; [lia|]. auto.
  - intros (-> & -> & He & Hw & Hnw & m & Hm & Hnone & Hall).
    cbn [Ascii.eqb Bool.eqb]. rewrite He.
    assert (Hwalk : walk_dashes (last_vis st) (Z.to_nat (Z.of_nat col - 2 + 1)) = None).
    { rewrite Hcol by lia. apply walk_dashes_none. exists m. split; [lia|]. auto. }
    assert (Hnot : char_is (JS.get_index (last_vis st) (Z.of_nat col - 1)) "|"
                   || char_is (JS.get_index (last_vis st) (Z.of_nat col - 1)) "\" = false).
    { destruct (JS.get_index (last_vis st) (Z.of_nat col - 1)) as [[c b]|]; [|reflexivity].
      cbn [char_is Vis.char] in *.
      destruct (Ascii.eqb c ".") eqn:E1; [apply Ascii.eqb_eq in E1; subst c; reflexivity|].
      destruct (Ascii.eqb c "-") eqn:E2; [apply Ascii.eqb_eq in E2; subst c; reflexivity|].
      discriminate. }
    destruct (JS.at_index vis_chars (Z.of_nat col - 1)) as [w|].
    + destruct (Ascii.eqb w "|") eqn:Hpipe.
      { apply Ascii.eqb_eq in Hpipe. congruence. }
      rewrite Hnot, Hnw, Hwalk. reflexivity.
    + rewrite Hnot, Hnw, Hwalk. reflexivity.
Qed.

(** A backslash below and right of a dot in the first column, with a pipe as
    its right neighbour. *)
Lemma cell_throws_witness :
  resolve_cell [" "; "\"; "|"]%char None
    (with_last_vis [Some (Vis.mk "."%char None)] initial_state) (pipe_at 2) (Z.of_nat 1) "\"
  = inl (TypeError undefined_w_char_match).
Proof.
  apply cell_throws_iff_dashes_reach_the_edge.
  split; [reflexivity|]. split; [reflexivity|]. split; [reflexivity|].
  split; [discriminate|]. split; [reflexivity|].
  exists 0%nat. split; [lia|]. split; [reflexivity|]. intros k Hk. lia.
Defined.

(** ** The commits and their rows *)

Lemma merge_noted_refl (c : Commit.t) : merge_noted c c.
Proof. left. reflexivity. Qed.

Lemma merge_noted_set (c c' : Commit.t) :
  merge_noted c c' -> merge_noted c (Commit.set_merge true c').
Proof. intros [->| ->]; right; reflexivity. Qed.

Lemma merge_noted_trans (c c' c'' : Commit.t) :
  merge_noted c c' -> merge_noted c' c'' -> merge_noted c c''.
Proof. intros H [->| ->]; [exact H|apply merge_noted_set; exact H]. Qed.

Lemma Forall2_same {A} (R : A -> A -> Prop) (l : list A) :
  (forall x, R x x) -> Forall2 R l l.
Proof. intros H. induction l; constructor; auto. Qed.

Lemma Forall2_update {A} (R : A -> A -> Prop) (f : A -> A) (l l' : list A) (k : nat) :
  (forall x y, R x y -> R x (f y)) -> Forall2 R l l' -> Forall2 R l (update l' k f).
Proof.
  intros Hf H. revert k. induction H as [|x y l l' Hxy Hrest IH]; intros k.
  - destruct k; constructor.
  - destruct k; cbn [update]; constructor; auto.
Qed.

Lemma Forall2_chain {A} (R : A -> A -> Prop) (l1 l2 l3 : list A) :
  (forall x y z, R x y -> R y z -> R x z) ->
  Forall2 R l1 l2 -> Forall2 R l2 l3 -> Forall2 R l1 l3.
Proof.
  intros Ht H. revert l3. induction H as [|x y l l' Hxy _ IH]; intros l3 H3.
  - inversion H3. constructor.
  - inversion H3 as [|y' z l2' l3' Hyz Hrest]; subst. constructor; eauto.
Qed.

Lemma map_update_same {A B} (g : A -> B) (f : A -> A) (l : list A) (k : nat) :
  (forall x, g (f x) = g x) -> map g (update l k f) = map g l.
Proof.
  intros H. revert k. induction l as [|x l IH]; intros k; [destruct k; reflexivity|].
  destruct k; cbn [update map]; [rewrite H|rewrite IH]; reflexivity.
Qed.

Lemma scan_row_frame (vis_chars : list ascii) (tip : option addr) (st : State) (sc : Scan) :
  scan_row vis_chars tip st = inr sc ->
  Forall2 merge_noted (commits st) (commits (state sc)).
Proof.
  intros H.
  refine (scan_row_invariant (fun s => Forall2 merge_noted (commits st) (commits s))
            _ _ _ _ vis_chars tip st sc (Forall2_same _ _ merge_noted_refl) H).
  - intros name remote s Hs. rewrite new_inferred_branch_eq. exact Hs.
  - intros wrong_branch t s Hs. exact Hs.
  - intros k s Hs. state_fields. apply Forall2_update; [apply merge_noted_set|exact Hs].
  - intros i b l s _ Hs. densen_cases; exact Hs.
Qed.

Lemma parse_row_frame (separator : string) (r : float) (st st' : State) (entry : nat * string) :
  parse_row separator r st entry = inr st' ->
  exists kept added,
    commits st' = kept ++ added
    /\ Forall2 merge_noted (commits st) kept
    /\ map row_fields added
       = map (fields_of_row separator)
           (filter (fun e => has_subject separator (snd e)) [entry]).
Proof.
  destruct entry as [row_no row]. unfold parse_row, has_subject. cbn [filter snd].
  destruct (String.eqb row "... "); cbn [negb andb].
  - intros H. apply inr_eq in H. subst st'. exists (commits st), [].
    rewrite app_nil_r. split; [reflexivity|]. split; [|reflexivity].
    apply Forall2_same, merge_noted_refl.
  - destruct (has_unknown_char _); [discriminate|].
    destruct (scan_row _ _ _) as [e|sc] eqn:E; [discriminate|].
    intros H. apply inr_eq in H. subst st'. apply scan_row_frame in E. state_fields.
    destruct (JS.truthy _).
    + unfold close_commit. state_fields. eexists. eexists.
      split; [reflexivity|]. split; [exact E|]. reflexivity.
    + exists (commits (state sc)), []. rewrite app_nil_r.
      split; [reflexivity|]. split; [exact E|]. reflexivity.
Qed.

Lemma parse_rows_frame (separator : string) (r : float) (rows : list (nat * string)) :
  forall st st',
    fold_exn (parse_row separator r) rows st = inr st' ->
    exists kept added,
      commits st' = kept ++ added
      /\ Forall2 merge_noted (commits st) kept
      /\ map row_fields added
         = map (fields_of_row separator)
             (filter (fun e => has_subject separator (snd e)) rows).
Proof.
  induction rows as [|entry rows IH]; intros st st'; cbn [fold_exn].
  - intros H. apply inr_eq in H. subst st'. exists (commits st), [].
    rewrite app_nil_r. split; [reflexivity|]. split; [|reflexivity].
    apply Forall2_same, merge_noted_refl.
  - destruct (parse_row separator r st entry) as [e|st1] eqn:E; [discriminate|].
    intros H. apply IH in H. destruct H as (kept' & added' & Hc' & Hkept' & Hadded').
    apply parse_row_frame in E. destruct E as (kept & added & Hc & Hkept & Hadded).
    rewrite Hc in Hkept'. apply Forall2_app_inv_l in Hkept'.
    destruct Hkept' as (k1 & k2 & Hk1 & Hk2 & ->).
    exists k1, (k2 ++ added'). split; [rewrite Hc', app_assoc; reflexivity|].
    split; [exact (Forall2_chain _ _ _ _ merge_noted_trans Hkept Hk1)|].
    assert (Hfields : map row_fields k2 = map row_fields added).
    { clear -Hk2. induction Hk2 as [|x y l l' Hxy _ IH]; [reflexivity|].
      cbn [map]. rewrite IH. destruct Hxy as [->| ->]; reflexivity. }
    rewrite map_app, Hfields, Hadded, Hadded', <- map_app.
    change (entry :: rows) with ([entry] ++ rows). rewrite filter_app. reflexivity.
Qed.

Lemma attach_stashes_fields (stash_data : string) (cs : list Commit.t) :
  map row_fields (attach_stashes stash_data cs) = map row_fields cs.
Proof.
  unfold attach_stashes. generalize (JS.split stash_data NL). intros lines.
  revert cs; induction lines as [|line lines IH]; intros cs; [reflexivity|].
  cbn [fold_left]. rewrite IH. unfold attach_stash.
  destruct (nth_error _ 0); [|reflexivity].
  destruct (find_commit _ _); [|reflexivity].
  apply map_update_same. reflexivity.
Qed.

(** When [parse] returns, the commits it returns are, in the order of the
    rows, those of the rows of [log_data] that have a subject and are not the
    skipped row; each has the number of its row among all rows, and the
    hashes, the author, the subject and the first nineteen characters of the
    date that the fields of the row hold. *)
Theorem commits_carry_the_fields_of_their_rows (palette : string -> option string)
    (log_data branch_data stash_data separator : string) (curve_radius : float) (out : Output)
    (Hparse : parse palette log_data branch_data stash_data separator curve_radius = inr out) :
  map row_fields (out_commits out)
  = map (fields_of_row separator)
      (filter (fun e => has_subject separator (snd e)) (entries (JS.split log_data NL))).
Proof.
  unfold parse in Hparse.
  destruct (build_registry branch_data separator) as [e|st0] eqn:H0; [discriminate|].
  destruct (parse_rows separator curve_radius log_data st0) as [e|st] eqn:H; [discriminate|].
  apply inr_eq in Hparse. subst out. cbn [finish out_commits].
  rewrite attach_stashes_fields. unfold parse_rows in H. apply parse_rows_frame in H.
  destruct H as (kept & added & Hc & Hkept & Hadded).
  assert (E : commits st0 = []).
  { apply (build_registry_invariant (fun s => commits s = [])) in H0; auto. }
  rewrite E in Hkept. inversion Hkept. subst kept. rewrite Hc. exact Hadded.
Qed.

(** The two commits of [merge_log] are those of its first and its third row. *)
Lemma commits_carry_the_fields_witness :
  exists out,
    parse no_palette merge_log scenario_A_branches EmptyString SEP 0.25%float = inr out
    /\ map row_fields (out_commits out)
       = [ (0%nat, ["c4long"; "c4"; "Alice"; "a@x.com"; "2021-03-02 15:59:43";
                    "Merge branch 'feature'"]);
           (2%nat, ["c3long"; "c3"; "Alice"; "a@x.com"; "2021-03-02 15:59:43"; "work"]) ].
Proof.
  eexists. split; [vm_compute; reflexivity|].
  etransitivity.
  - apply (commits_carry_the_fields_of_their_rows no_palette merge_log scenario_A_branches
             EmptyString SEP 0.25%float).
    vm_compute. reflexivity.
  - vm_compute. reflexivity.
Defined.

(** A commit that is closed stays as it is in all the rows that follow, but
    for its merge flag, which a row may set: its lines, its branch, its refs
    and the fields of its row are final. *)
Theorem closed_commit_only_gains_the_merge_flag (separator : string) (curve_radius : float)
    (rows : list (nat * string)) (st st' : State) (k : nat) (c : Commit.t) :
  fold_exn (parse_row separator curve_radius) rows st = inr st' ->
  nth_error (commits st) k = Some c ->
  exists c',
    nth_error (commits st') k = Some c'
    /\ (c' = c \/ c' = Commit.set_merge true c).
Proof.
  intros H Hk. apply parse_rows_frame in H. destruct H as (kept & added & Hc & Hkept & _).
  destruct (Forall2_nth Hkept k _ Hk) as (c' & Hc' & Hrel).
  exists c'. split; [|exact Hrel].
  rewrite Hc, nth_error_app1; [exact Hc'|]. apply nth_error_Some. congruence.
Qed.

(** The row below the merge commit of [merge_log] sets the merge flag of that
    commit and nothing else of it. *)
Lemma closed_commit_witness :
  exists c c',
    nth_error (commits after_merge_commit_row) 0 = Some c
    /\ Commit.merge c = false
    /\ fold_exn (parse_row SEP 0.25%float) [(1%nat, "|\  ")] after_merge_commit_row
       = inr c'
    /\ exists c'', nth_error (commits c') 0 = Some c''
                   /\ (c'' = c \/ c'' = Commit.set_merge true c).
Proof.
  eexists. eexists. split; [vm_compute; reflexivity|]. split; [reflexivity|].
  split; [vm_compute; reflexivity|].
  apply (closed_commit_only_gains_the_merge_flag SEP 0.25%float [(1%nat, "|\  ")]
           after_merge_commit_row).
  - vm_compute. reflexivity.
  - vm_compute. reflexivity.
Defined.

(** ** The branch objects: where they come from, and their colours *)

Lemma nth_error_firstn_lt {A} (n k : nat) (l : list A) :
  (k < n)%nat -> nth_error (firstn n l) k = nth_error l k.
Proof.
  revert k l. induction n as [|n IH]; intros k l Hk; [lia|].
  destruct l as [|x l]; [destruct k; reflexivity|].
  destruct k as [|k]; [reflexivity|]. cbn [firstn nth_error]. apply IH. lia.
Qed.

Lemma rows_keep_new_inferred_branch (heap0 : list Branch.t) (name : string)
    (remote : option string) (st : State) :
  rows_keep heap0 st -> rows_keep heap0 (fst (new_inferred_branch name remote st)).
Proof.
  intros (Hfirst & Hlen & Hinf & Hcol). rewrite new_inferred_branch_eq.
  unfold rows_keep. cbn [fst]. state_fields.
  assert (Hnew : forall b o,
             deref (branch_heap st ++
                    [Branch.mk name None type_branch remote None
                       (match remote with
                        | Some r => if JS.truthy r then r ++ "/" ++ name else name
                        | None => name
                        end)%string true]) b = Some o ->
             deref (branch_heap st) b = Some o
             \/ (Branch.inferred o = true /\ Branch.color o = None)).
  { intros b o. unfold deref. destruct (Nat.lt_ge_cases b (List.length (branch_heap st))) as [Hb|Hb].
    - rewrite nth_error_app1 by exact Hb. auto.
    - rewrite nth_error_app2 by exact Hb.
      destruct (b - List.length (branch_heap st))%nat as [|[|k]]; cbn [nth_error];
        [|discriminate|discriminate].
      intros [= <-]. right. split; reflexivity. }
  split; [|split; [|split]].
  - rewrite firstn_app. replace (_ - _)%nat with 0%nat by lia.
    cbn [firstn]. rewrite app_nil_r. exact Hfirst.
  - rewrite length_app. lia.
  - intros b o Hb Ho. destruct (Hnew b o Ho) as [Hold|[H _]]; [eauto|exact H].
  - intros b o Ho. destruct (Hnew b o Ho) as [Hold|[_ H]]; [eauto|exact H].
Qed.

Lemma rows_keep_rows (heap0 : list Branch.t) (separator : string) (curve_radius : float)
    (rows : list (nat * string)) (st st' : State) :
  rows_keep heap0 st ->
  fold_exn (parse_row separator curve_radius) rows st = inr st' ->
  rows_keep heap0 st'.
Proof.
  intros H Hrows.
  refine (parse_rows_invariant (rows_keep heap0) _ _ _ _ _ _
            separator curve_radius rows st st' H Hrows).
  - intros name remote s Hs. apply rows_keep_new_inferred_branch. exact Hs.
  - intros wrong_branch tip s Hs. exact Hs.
  - intros k s Hs. exact Hs.
  - intros i b l s _ Hs. densen_cases; exact Hs.
  - intros r row_no cb hl h an ae dt refs subject s Hs. exact Hs.
  - intros v s Hs. exact Hs.
Qed.

Lemma build_registry_heap (branch_data separator : string) (st0 : State) :
  build_registry branch_data separator = inr st0 ->
  exists added,
    Forall2 (registered_from separator) (JS.split branch_data NL) added
    /\ branch_heap st0 = added ++ [head_branch].
Proof.
  unfold build_registry.
  destruct (fold_exn (add_branch_line separator) (JS.split branch_data NL) initial_state)
    as [e|st1] eqn:H1; [discriminate|].
  intros H. apply inr_eq in H. subst st0.
  apply add_branch_lines_spec in H1. destruct H1 as (added & Hall & Hheap & _).
  exists added. split; [exact Hall|].
  unfold new_branch. cbn [fst]. state_fields. rewrite Hheap. reflexivity.
Qed.

Lemma rows_keep_start (branch_data separator : string) (st0 : State) :
  build_registry branch_data separator = inr st0 -> rows_keep (branch_heap st0) st0.
Proof.
  intros H. apply build_registry_heap in H. destruct H as (added & Hall & Hheap).
  unfold rows_keep. split; [apply firstn_all|]. split; [lia|]. split.
  - intros b o Hb Ho. apply deref_valid in Ho. lia.
  - intros b o Ho. rewrite Hheap in Ho. unfold deref in Ho.
    destruct (Nat.lt_ge_cases b (List.length added)) as [Hb|Hb].
    + rewrite nth_error_app1 in Ho by exact Hb.
      pose proof (Forall2_nth_length Hall) as Hlen.
      destruct (nth_error (JS.split branch_data NL) b) as [line|] eqn:Hline.
      * destruct (Forall2_nth Hall b _ Hline) as (o' & Ho' & ref_name & _ & Hcol & _).
        congruence.
      * apply nth_error_None in Hline. lia.
    + rewrite nth_error_app2 in Ho by exact Hb.
      destruct (b - List.length added)%nat as [|[|k]]; cbn [nth_error] in Ho;
        [|discriminate|discriminate].
      injection Ho as <-. reflexivity.
Qed.

Lemma assign_colors_deref (palette : string -> option string) (registry : list addr)
    (heap : list Branch.t) (b : addr) :
  deref (assign_colors palette registry heap) b
  = if existsb (Nat.eqb b) registry
    then option_map (fun o => Branch.set_color (color_of palette (Branch.name o)) o)
           (deref heap b)
    else deref heap b.
Proof.
  unfold assign_colors. revert heap.
  induction registry as [|a registry IH]; intros heap; [reflexivity|].
  cbn [fold_left existsb]. rewrite IH. unfold deref. rewrite update_nth_error.
  destruct (Nat.eqb b a) eqn:E; cbn [orb]; [|reflexivity].
  apply Nat.eqb_eq in E. subst a.
  destruct (existsb (Nat.eqb b) registry); [|reflexivity].
  destruct (nth_error heap b); reflexivity.
Qed.

(** Every branch that [parse] lists is a branch that [branch_data] names, or
    HEAD: it is the object at the place of its line in the registry as it was
    built, unchanged by the rows but for the colour of its name, which it has
    been given.  No branch made while the rows were read is listed. *)
Theorem listed_branches_are_those_of_branch_data (palette : string -> option string)
    (log_data branch_data stash_data separator : string) (curve_radius : float) (out : Output)
    (b : addr)
    (Hparse : parse palette log_data branch_data stash_data separator curve_radius = inr out)
    (Hlisted : In b (out_branches out)) :
  exists branch,
    ((exists branch_line,
         nth_error (JS.split branch_data NL) b = Some branch_line
         /\ registered_from separator branch_line branch)
     \/ (b = List.length (JS.split branch_data NL) /\ branch = head_branch))
    /\ deref (out_branch_heap out) b
       = Some (Branch.set_color (color_of palette (Branch.name branch)) branch).
Proof.
  unfold parse in Hparse.
  destruct (build_registry branch_data separator) as [e|st0] eqn:H0; [discriminate|].
  destruct (parse_rows separator curve_radius log_data st0) as [e|st] eqn:Hrows; [discriminate|].
  apply inr_eq in Hparse. subst out. cbn [finish out_branches out_branch_heap] in *.
  pose proof (rows_keep_rows _ _ _ _ _ _ (rows_keep_start _ _ _ H0) Hrows)
    as (Hfirst & Hlen & Hinf & _).
  unfold list_branches in Hlisted. apply firstn_In in Hlisted.
  apply (Permutation_in _ (Permutation_sym (proj1 (sort_refs_sorted _ _)))) in Hlisted.
  apply filter_In in Hlisted. destruct Hlisted as [Hreg Hnot].
  rewrite assign_colors_inferred in Hnot. apply Bool.negb_true_iff in Hnot.
  destruct (parse_rows_wf_registry _ _ _ _ _ _ H0 Hrows) as [[_ Hvalid] _].
  pose proof (Hvalid b Hreg) as Hb.
  destruct (nth_error (branch_heap st) b) as [o|] eqn:Ho; [|apply nth_error_None in Ho; lia].
  assert (Hold : (b < List.length (branch_heap st0))%nat).
  { destruct (Nat.lt_ge_cases b (List.length (branch_heap st0))) as [H|H]; [exact H|].
    unfold is_inferred in Hnot. unfold deref in Hnot, Hinf. rewrite Ho in Hnot.
    rewrite (Hinf b o H Ho) in Hnot. discriminate. }
  assert (Ho0 : nth_error (branch_heap st0) b = Some o).
  { rewrite <- Hfirst, nth_error_firstn_lt by exact Hold. exact Ho. }
  exists o. split.
  - apply build_registry_heap in H0. destruct H0 as (added & Hall & Hheap).
    pose proof (Forall2_nth_length Hall) as Hlines.
    rewrite Hheap in Ho0, Hold. rewrite length_app in Hold. cbn [List.length] in Hold.
    destruct (Nat.lt_ge_cases b (List.length added)) as [Hlt|Hge].
    + left. rewrite nth_error_app1 in Ho0 by exact Hlt.
      destruct (nth_error (JS.split branch_data NL) b) as [line|] eqn:Hline.
      * destruct (Forall2_nth Hall b _ Hline) as (o' & Ho' & Hrel).
        exists line. split; [reflexivity|]. congruence.
      * apply nth_error_None in Hline. lia.
    + right. rewrite nth_error_app2 in Ho0 by exact Hge.
      replace (b - List.length added)%nat with 0%nat in Ho0 by lia.
      cbn [nth_error] in Ho0. injection Ho0 as <-. split; [lia|reflexivity].
  - rewrite assign_colors_deref.
    replace (existsb (Nat.eqb b) (branches st)) with true.
    + unfold deref. rewrite Ho. reflexivity.
    + symmetry. apply existsb_exists. exists b. split; [exact Hreg|apply Nat.eqb_refl].
Qed.

Lemma merge_log_parses :
  parse no_palette merge_log scenario_A_branches EmptyString SEP 0.25%float
  = inr merge_log_output.
Proof. vm_compute. reflexivity. Qed.

(** The branch "master" of [merge_log] is listed, with its fixed colour. *)
Lemma listed_branches_witness :
  In 0%nat (out_branches merge_log_output)
  /\ exists branch,
       ((exists branch_line,
            nth_error (JS.split scenario_A_branches NL) 0%nat = Some branch_line
            /\ registered_from SEP branch_line branch)
        \/ (0%nat = List.length (JS.split scenario_A_branches NL) /\ branch = head_branch))
       /\ deref (out_branch_heap merge_log_output) 0%nat
          = Some (Branch.set_color (color_of no_palette (Branch.name branch)) branch).
Proof.
  assert (Hin : In 0%nat (out_branches merge_log_output)) by (vm_compute; auto).
  split; [exact Hin|].
  apply (listed_branches_are_those_of_branch_data no_palette merge_log scenario_A_branches
           EmptyString SEP 0.25%float merge_log_output 0%nat).
  - vm_compute. reflexivity.
  - exact Hin.
Defined.

(** When [parse] returns, a Branch object has a colour if and only if the
    registry still holds it at the end, and the colour is that of its name:
    an object that the registry has lost again, or never held, has no
    colour. *)
Theorem colors_go_to_the_registered_branches (palette : string -> option string)
    (log_data branch_data stash_data separator : string) (curve_radius : float) (out : Output)
    (Hparse : parse palette log_data branch_data stash_data separator curve_radius = inr out) :
  exists st0 st,
    build_registry branch_data separator = inr st0
    /\ parse_rows separator curve_radius log_data st0 = inr st
    /\ forall b branch,
         deref (out_branch_heap out) b = Some branch ->
         Branch.color branch
         = if existsb (Nat.eqb b) (branches st)
           then color_of palette (Branch.name branch)
           else None.
Proof.
  unfold parse in Hparse.
  destruct (build_registry branch_data separator) as [e|st0] eqn:H0; [discriminate|].
  destruct (parse_rows separator curve_radius log_data st0) as [e|st] eqn:Hrows; [discriminate|].
  apply inr_eq in Hparse. subst out. cbn [finish out_branch_heap].
  exists st0, st. split; [reflexivity|]. split; [exact Hrows|].
  pose proof (rows_keep_rows _ _ _ _ _ _ (rows_keep_start _ _ _ H0) Hrows)
    as (_ & _ & _ & Hcol).
  intros b branch. rewrite assign_colors_deref.
  destruct (existsb (Nat.eqb b) (branches st)).
  - destruct (deref (branch_heap st) b) as [o|]; [|discriminate].
    cbn [option_map]. intros [= <-]. reflexivity.
  - intros Ho. eapply Hcol. exact Ho.
Qed.

(** The colours of [merge_log]. *)
Lemma colors_witness :
  exists st0 st,
    build_registry scenario_A_branches SEP = inr st0
    /\ parse_rows SEP 0.25%float merge_log st0 = inr st
    /\ forall b branch,
         deref (out_branch_heap merge_log_output) b = Some branch ->
         Branch.color branch
         = if existsb (Nat.eqb b) (branches st)
           then color_of no_palette (Branch.name branch)
           else None.
Proof.
  apply (colors_go_to_the_registered_branches no_palette merge_log scenario_A_branches
           EmptyString SEP 0.25%float merge_log_output).
  vm_compute. reflexivity.
Defined.

(** ** The lines of the commits have all that is drawn *)

Ltac line_cases l :=
  destruct l as [? ? [?|] [?|] [?|] [?|] [[?|]|] [?|] [?|]];
  unfold first_appearance, with_defaults, VisLine.read_xce; cbn;
  try reflexivity; try discriminate.

Lemma owned_defaults (r : float) (p : Prototype.t) (l : VisLine.t) :
  owned l = true -> ends_defined p (with_defaults r p l) = true.
Proof. destruct p as [pxn [pxce|]]; line_cases l. Qed.

Lemma ends_join_this (r m : float) (x : JS.value) (p : Prototype.t) (l : VisLine.t) :
  ends_defined p l = true -> fully_defined p (join_this r m x l) = true.
Proof. destruct p as [pxn [pxce|]]; line_cases l. Qed.

Lemma ends_first_appearance (r : float) (p : Prototype.t) (l : VisLine.t) :
  ends_defined p l = true -> fully_defined p (first_appearance r l) = true.
Proof.
  destruct p as [pxn [pxce|]]; line_cases l;
    destruct (JS.greater _ _); cbn; try reflexivity; discriminate.
Qed.

Lemma ends_join_last (r m : float) (x : JS.value) (p : Prototype.t) (l : VisLine.t) :
  ends_defined p l = true -> ends_defined p (join_last r m x l) = true.
Proof. destruct p as [pxn [pxce|]]; line_cases l. Qed.

Lemma owned_set_ends (xn : JS.value) (xce : option JS.value) (l : VisLine.t) :
  owned l = true -> owned (VisLine.set_xce xce (VisLine.set_xn xn l)) = true.
Proof. destruct l. cbn. auto. Qed.

(** What is read as defined stays so when [Object.prototype] keeps its
    [xce], whatever the value. *)
Lemma fully_defined_mono (p p' : Prototype.t) (l : VisLine.t) :
  (defined (Prototype.xce p) = true -> defined (Prototype.xce p') = true) ->
  fully_defined p l = true -> fully_defined p' l = true.
Proof.
  destruct p as [pxn [pxce|]], p' as [pxn' [pxce'|]]; cbn [Prototype.xce defined];
    intros Hp; try (specialize (Hp eq_refl); discriminate); line_cases l.
Qed.

(** Once [Object.prototype] has an [xce], the line of every cell has one. *)
Lemma shift_reads_xce (p : Prototype.t) (i : Z) (l : VisLine.t) :
  cell_line l -> defined (Prototype.xce p) = true ->
  defined (VisLine.read_xce p (shift p i l)) = true.
Proof.
  unfold cell_line, shift, VisLine.read_xce.
  destruct p as [pxn [pxce|]]; [|discriminate].
  destruct l as [? ? ? ? ? ? [[?|]|] ? ?]; cbn; intros H _; [reflexivity| |reflexivity].
  exfalso. apply H. reflexivity.
Qed.

Lemma update_keeps (q : VisLine.t -> bool) (f : VisLine.t -> VisLine.t)
    (heap : list VisLine.t) (k a : addr) :
  (forall l, q l = true -> q (f l) = true) ->
  line_has q heap a -> line_has q (update heap k f) a.
Proof.
  intros Hf (l & Hl & Hq). unfold line_has, deref in *. rewrite update_nth_error.
  destruct (Nat.eqb_spec a k) as [->|_]; [|eauto].
  rewrite Hl. cbn [option_map]. eauto.
Qed.

Lemma update_turns (q q' : VisLine.t -> bool) (f : VisLine.t -> VisLine.t)
    (heap : list VisLine.t) (a : addr) :
  (forall l, q l = true -> q' (f l) = true) ->
  line_has q heap a -> line_has q' (update heap a f) a.
Proof.
  intros Hf (l & Hl & Hq). unfold line_has, deref in *.
  rewrite update_nth_error, Nat.eqb_refl, Hl. cbn [option_map]. eauto.
Qed.

Section LinesKept.
Variable p : Prototype.t.
Variable q : VisLine.t -> bool.
Hypothesis q_defaults : forall r l, q l = true -> q (with_defaults r p l) = true.
Hypothesis q_join_last : forall r m x l, q l = true -> q (join_last r m x l) = true.
Hypothesis q_join_this : forall r m x l, q l = true -> q (join_this r m x l) = true.
Hypothesis q_first : forall r l, q l = true -> q (first_appearance r l) = true.
Hypothesis q_branch : forall v l, q l = true -> q (VisLine.set_branch (Some v) l) = true.

Lemma finalize_line_keeps (r : float) (last_densened : JS.record addr)
    (heap : list VisLine.t) (entry : string * addr) (x : addr) :
  line_has q heap x -> line_has q (finalize_line r p last_densened heap entry) x.
Proof.
  intros H. destruct entry as [key a]. unfold finalize_line.
  assert (H1 : line_has q (update heap a (with_defaults r p)) x)
    by (apply update_keeps; [apply q_defaults|exact H]).
  destruct (deref (update heap a (with_defaults r p)) a); [|exact H1].
  destruct (JS.get _ last_densened key) as [la| |w|].
  - destruct (deref (update heap a (with_defaults r p)) la); [|exact H1].
    apply update_keeps; [apply q_join_this|]. apply update_keeps; [apply q_join_last|exact H1].
  - apply update_keeps; [apply q_join_this|exact H1].
  - apply update_keeps; [apply q_join_this|exact H1].
  - apply update_keeps; [apply q_first|exact H1].
Qed.

Lemma finalize_fold_keeps (r : float) (last_densened : JS.record addr)
    (entries : JS.record addr) (heap : list VisLine.t) (x : addr) :
  line_has q heap x ->
  line_has q (fold_left (finalize_line r p last_densened) entries heap) x.
Proof.
  revert heap. induction entries as [|e entries IH]; intros heap H; [exact H|].
  cbn [fold_left]. apply IH. apply finalize_line_keeps. exact H.
Qed.

Lemma repoint_fold_keeps (v : addr) (matches : list addr) (heap : list VisLine.t) (x : addr) :
  line_has q heap x -> line_has q (fold_left (repoint v) matches heap) x.
Proof.
  revert heap. induction matches as [|m matches IH]; intros heap H; [exact H|].
  cbn [fold_left]. apply IH. unfold repoint. apply update_keeps; [apply q_branch|exact H].
Qed.

Lemma repair_lines_keeps (cs : list Commit.t) (wrong_branch v : addr) (n : nat)
    (heap : list VisLine.t) (x : addr) :
  line_has q heap x -> line_has q (repair_lines cs wrong_branch v heap n) x.
Proof.
  revert heap. induction n as [|n IH]; intros heap H; [exact H|].
  cbn [repair_lines]. destruct (nth_error cs n) as [c|]; [|exact H].
  destruct (filter (belongs_to heap wrong_branch) (Commit.vis_lines c)) as [|m matches];
    [exact H|].
  apply IH. apply repoint_fold_keeps. exact H.
Qed.
End LinesKept.

Lemma fully_defined_kept (p : Prototype.t) :
  (forall r l, fully_defined p l = true -> fully_defined p (with_defaults r p l) = true)
  /\ (forall r m x l, fully_defined p l = true -> fully_defined p (join_last r m x l) = true)
  /\ (forall r m x l, fully_defined p l = true -> fully_defined p (join_this r m x l) = true)
  /\ (forall r l, fully_defined p l = true -> fully_defined p (first_appearance r l) = true)
  /\ (forall v l, fully_defined p l = true
                  -> fully_defined p (VisLine.set_branch (Some v) l) = true).
Proof.
  destruct p as [pxn [pxce|]].
  all: split; [intros r l; line_cases l|]; split; [intros r m x l; line_cases l|].
  all: split; [intros r m x l; line_cases l|]; split; [intros r l; line_cases l|].
  all: intros v l; line_cases l.
Qed.

Lemma owned_kept (p : Prototype.t) :
  (forall r l, owned l = true -> owned (with_defaults r p l) = true)
  /\ (forall r m x l, owned l = true -> owned (join_last r m x l) = true)
  /\ (forall r m x l, owned l = true -> owned (join_this r m x l) = true)
  /\ (forall r l, owned l = true -> owned (first_appearance r l) = true)
  /\ (forall v l, owned l = true -> owned (VisLine.set_branch (Some v) l) = true).
Proof.
  destruct p as [pxn [pxce|]].
  all: split; [intros r l; line_cases l|]; split; [intros r m x l; line_cases l|].
  all: split; [intros r m x l; line_cases l|].
  all: split; [intros r l; line_cases l; destruct (JS.greater _ _); reflexivity|].
  all: intros v l; line_cases l.
Qed.

Lemma finalize_line_ready (r : float) (p : Prototype.t) (last_densened : JS.record addr)
    (heap : list VisLine.t) (key : string) (a : addr) :
  line_has owned heap a ->
  (forall la, JS.own last_densened key = Some la -> (la < List.length heap)%nat) ->
  line_has (fully_defined p) (finalize_line r p last_densened heap (key, a)) a.
Proof.
  intros H Hvalid. unfold finalize_line.
  assert (H1 : line_has (ends_defined p) (update heap a (with_defaults r p)) a)
    by (apply (update_turns owned); [apply owned_defaults|exact H]).
  destruct (deref (update heap a (with_defaults r p)) a) as [this|] eqn:Hthis.
  2:{ destruct H1 as (l & Hl & _). congruence. }
  destruct (JS.get _ last_densened key) as [la| |w|] eqn:Hget.
  - apply get_Own in Hget. apply Hvalid in Hget.
    destruct (deref (update heap a (with_defaults r p)) la) as [last|] eqn:Hlast.
    + apply (update_turns (ends_defined p)); [intros l; apply ends_join_this|].
      apply update_keeps; [intros l; apply ends_join_last|exact H1].
    + unfold deref in Hlast. apply nth_error_None in Hlast.
      rewrite update_length in Hlast. lia.
  - apply (update_turns (ends_defined p)); [intros l; apply ends_join_this|exact H1].
  - apply (update_turns (ends_defined p)); [intros l; apply ends_join_this|exact H1].
  - apply (update_turns (ends_defined p)); [intros l; apply ends_first_appearance|exact H1].
Qed.

Lemma finalize_fold_ready (r : float) (p : Prototype.t) (last_densened : JS.record addr)
    (entries : JS.record addr) :
  forall heap,
    (forall a, In a (map snd entries) -> line_has owned heap a) ->
    (forall la, In la (map snd last_densened) -> (la < List.length heap)%nat) ->
    forall a, In a (map snd entries) ->
              line_has (fully_defined p)
                (fold_left (finalize_line r p last_densened) entries heap) a.
Proof.
  destruct (fully_defined_kept p) as (F1 & F2 & F3 & F4 & F5).
  destruct (owned_kept p) as (O1 & O2 & O3 & O4 & O5).
  induction entries as [|[key a0] entries IH]; intros heap Howned Hvalid a; [intros []|].
  cbn [map snd fold_left]. intros [<-|Ha].
  - apply (finalize_fold_keeps p (fully_defined p) F1 F2 F3 F4).
    apply finalize_line_ready; [apply Howned; left; reflexivity|].
    intros la Hla. apply Hvalid. apply own_In in Hla.
    change la with (snd (key, la)). apply in_map. exact Hla.
  - apply IH; [| |exact Ha].
    + intros x Hx. apply (finalize_line_keeps p owned O1 O2 O3 O4).
      apply Howned. right. exact Hx.
    + intros la Hla. rewrite finalize_line_length. apply Hvalid. exact Hla.
Qed.

Lemma line_has_app_old (q : VisLine.t -> bool) (heap : list VisLine.t) (l : VisLine.t)
    (a : addr) :
  line_has q heap a -> line_has q (heap ++ [l]) a.
Proof. intros (l' & Hl' & Hq). exists l'. split; [apply deref_app_old; exact Hl'|exact Hq]. Qed.

Lemma In_update {A} (f : A -> A) (l : list A) (k : nat) (y : A) :
  In y (update l k f) -> exists x, In x l /\ (y = x \/ y = f x).
Proof.
  revert k. induction l as [|x l IH]; intros k; [destruct k; intros []|].
  destruct k as [|k]; cbn [update In].
  - intros [<-|H]; eauto.
  - intros [<-|H]; [eauto|]. apply IH in H. destruct H as (x' & Hx' & H). eauto.
Qed.

Lemma lines_ready_same (st st' : State) :
  line_heap st' = line_heap st ->
  densened_vis_line_by_branch_id st' = densened_vis_line_by_branch_id st ->
  last_densened_vis_line_by_branch_id st' = last_densened_vis_line_by_branch_id st ->
  commits st' = commits st ->
  object_prototype st' = object_prototype st ->
  lines_ready st -> lines_ready st'.
Proof.
  intros H1 H2 H3 H4 H5 (Hwf & Hc & Hd). split; [eapply wf_lines_same; eassumption|].
  rewrite H1, H2, H4, H5. split; assumption.
Qed.

Lemma lines_ready_merge (k : nat) (st : State) :
  lines_ready st ->
  lines_ready (with_commits (update (commits st) k (Commit.set_merge true)) st).
Proof.
  intros (Hwf & Hc & Hd). split; [apply wf_lines_merge; exact Hwf|].
  state_fields.
  assert (Hsame : forall c', In c' (update (commits st) k (Commit.set_merge true)) ->
                    exists c, In c (commits st) /\ Commit.vis_lines c' = Commit.vis_lines c).
  { intros c' Hc'. apply In_update in Hc'. destruct Hc' as (c & Hin & [->| ->]); eauto. }
  split.
  - intros c' a Hc' Ha. destruct (Hsame c' Hc') as (c & Hin & E). rewrite E in Ha. eauto.
  - intros a Ha. split; [apply Hd; exact Ha|].
    intros c' Hc'. destruct (Hsame c' Hc') as (c & Hin & E). rewrite E.
    apply (proj2 (Hd a Ha)). exact Hin.
Qed.

Lemma lines_ready_repair (wrong_branch tip : addr) (st : State) :
  lines_ready st -> lines_ready (repair wrong_branch tip st).
Proof.
  destruct (fully_defined_kept (object_prototype st)) as (F1 & F2 & F3 & F4 & F5).
  destruct (owned_kept (object_prototype st)) as (O1 & O2 & O3 & O4 & O5).
  intros (Hwf & Hc & Hd). split; [apply wf_lines_repair; exact Hwf|].
  unfold repair. state_fields. split.
  - intros c a Hin Ha. apply (repair_lines_keeps (fully_defined (object_prototype st)) F5). eauto.
  - intros a Ha. split; [|apply (proj2 (Hd a Ha))].
    apply (repair_lines_keeps owned O5). apply Hd. exact Ha.
Qed.

Lemma lines_ready_densen (i : Z) (b : addr) (l : VisLine.t) (st : State) :
  cell_line l -> lines_ready st -> lines_ready (densen i b l st).
Proof.
  intros Hcell (Hwf & Hc & Hd). split; [apply wf_lines_densen; exact Hwf|].
  unfold densen.
  destruct (JS.get _ (densened_vis_line_by_branch_id st) (branch_id (branch_heap st) b))
    as [a0| |w|] eqn:Hget; state_fields.
  - apply get_Own, own_In in Hget.
    assert (Ha0 : In a0 (map snd (densened_vis_line_by_branch_id st))).
    { change a0 with (snd (branch_id (branch_heap st) b, a0)). apply in_map. exact Hget. }
    split.
    + intros c a Hin Ha. destruct (Hc c a Hin Ha) as (l' & Hl' & Hq).
      exists l'. split; [|exact Hq]. unfold deref. rewrite update_nth_error.
      destruct (Nat.eqb_spec a a0) as [->|_]; [|exact Hl'].
      exfalso. apply (proj2 (Hd a0 Ha0) c Hin). exact Ha.
    + intros a Ha. split; [|apply (proj2 (Hd a Ha))].
      apply update_keeps; [intros l'; apply owned_set_ends|]. apply Hd. exact Ha.
  - destruct (String.eqb _ "__proto__"); state_fields; [|split; assumption].
    split; [|assumption].
    intros c a Hin Ha. destruct (Hc c a Hin Ha) as (l' & Hl' & Hq).
    exists l'. split; [exact Hl'|]. revert Hq. apply fully_defined_mono.
    cbn [Prototype.xce]. apply shift_reads_xce. exact Hcell.
  - split; assumption.
  - destruct (set_absent_perm _ _ _ (List.length (line_heap st)) Hget) as [Hperm _].
    pose proof (Permutation_map snd Hperm) as Hpv. cbn [map snd] in Hpv.
    split.
    + intros c a Hin Ha. apply line_has_app_old. eauto.
    + intros a Ha. apply (Permutation_in _ (Permutation_sym Hpv)) in Ha.
      destruct Ha as [<-|Ha].
      * split.
        -- eexists. split; [unfold deref; rewrite nth_error_app2, Nat.sub_diag by lia;
                            reflexivity|reflexivity].
        -- intros c Hin Ha. destruct (Hc c _ Hin Ha) as (l' & Hl' & _).
           apply deref_valid in Hl'. lia.
      * split; [apply line_has_app_old; apply Hd; exact Ha|apply (proj2 (Hd a Ha))].
Qed.

Lemma lines_ready_close (r : float) (row_no : nat) (cb : option addr)
    (hl h an ae dt : string) (refs : list GitRef.t) (subject : string) (st : State) :
  lines_ready st -> lines_ready (close_commit r row_no cb hl h an ae dt refs subject st).
Proof.
  destruct (fully_defined_kept (object_prototype st)) as (F1 & F2 & F3 & F4 & F5).
  intros (Hwf & Hc & Hd). split; [apply wf_lines_close; exact Hwf|].
  destruct Hwf as (_ & _ & _ & _ & Hlvalid & _).
  unfold close_commit, finalize_lines. state_fields. cbn [map]. split; [|intros a []].
  intros c a Hin Ha. apply in_app_or in Hin. destruct Hin as [Hin|[<-|[]]].
  - apply (finalize_fold_keeps _ (fully_defined (object_prototype st)) F1 F2 F3 F4). eauto.
  - cbn [Commit.vis_lines] in Ha.
    apply (Permutation_in _ (Permutation_sym (sort_perm _ _))) in Ha.
    apply finalize_fold_ready; [|exact Hlvalid|exact Ha].
    intros x Hx. apply Hd. exact Hx.
Qed.

Lemma lines_ready_initial : lines_ready initial_state.
Proof.
  split; [apply wf_lines_initial|]. unfold initial_state. state_fields.
  split; [intros c a []|intros a []].
Qed.

Lemma parse_rows_lines_ready (branch_data separator : string) (curve_radius : float)
    (rows : list (nat * string)) (st0 st : State) :
  build_registry branch_data separator = inr st0 ->
  fold_exn (parse_row separator curve_radius) rows st0 = inr st ->
  lines_ready st.
Proof.
  intros H0 H.
  refine (parse_rows_invariant lines_ready _ _ _ _ _ _
            separator curve_radius rows st0 st _ H).
  - intros name remote s Hs. rewrite new_inferred_branch_eq.
    eapply lines_ready_same; [..|exact Hs]; reflexivity.
  - intros wrong_branch tip s Hs. apply lines_ready_repair. exact Hs.
  - intros k s Hs. apply lines_ready_merge. exact Hs.
  - intros i b l s Hl Hs. apply lines_ready_densen; assumption.
  - intros r row_no cb hl h an ae dt refs subject s Hs. apply lines_ready_close. exact Hs.
  - intros v s Hs. eapply lines_ready_same; [..|exact Hs]; reflexivity.
  - refine (build_registry_invariant lines_ready _ branch_data separator st0
              lines_ready_initial H0).
    intros name remote tracking s Hs. eapply lines_ready_same; [..|exact Hs]; reflexivity.
Qed.

Lemma attach_stashes_lines (stash_data : string) (cs : list Commit.t) :
  map Commit.vis_lines (attach_stashes stash_data cs) = map Commit.vis_lines cs.
Proof.
  unfold attach_stashes. generalize (JS.split stash_data NL). intros lines.
  revert cs; induction lines as [|line lines IH]; intros cs; [reflexivity|].
  cbn [fold_left]. rewrite IH. unfold attach_stash.
  destruct (nth_error _ 0); [|reflexivity].
  destruct (find_commit _ _); [|reflexivity].
  apply map_update_same. reflexivity.
Qed.

(** When [parse] returns, every line of every commit it returns is an object
    whose two ends, two control points and owner are all defined: [y0], [yn],
    [xcs], [ycs], [xce], [yce] and [branch] are read from it as defined, as
    [x0] and [xn] are from the start.  Each is a property of the line itself,
    but for [xce], which a line may lack when [Object.prototype] has got one
    in the run: the line then reads that one. *)
Theorem returned_lines_are_fully_defined (palette : string -> option string)
    (log_data branch_data stash_data separator : string) (curve_radius : float) (out : Output)
    (c : Commit.t) (a : addr)
    (Hparse : parse palette log_data branch_data stash_data separator curve_radius = inr out)
    (Hcommit : In c (out_commits out))
    (Hline : In a (Commit.vis_lines c)) :
  exists l,
    deref (out_line_heap out) a = Some l
    /\ fully_defined (out_object_prototype out) l = true.
Proof.
  unfold parse in Hparse.
  destruct (build_registry branch_data separator) as [e|st0] eqn:H0; [discriminate|].
  destruct (parse_rows separator curve_radius log_data st0) as [e|st] eqn:Hrows; [discriminate|].
  apply inr_eq in Hparse. subst out.
  cbn [finish out_commits out_line_heap out_object_prototype] in *.
  destruct (parse_rows_lines_ready _ _ _ _ _ _ H0 Hrows) as (_ & Hc & _).
  apply (in_map Commit.vis_lines) in Hcommit. rewrite attach_stashes_lines in Hcommit.
  apply in_map_iff in Hcommit. destruct Hcommit as (c0 & E & Hin).
  rewrite <- E in Hline. exact (Hc c0 a Hin Hline).
Qed.

(** The line of the merged branch of [merge_log], on the commit below the
    merge commit. *)
Lemma returned_lines_witness :
  exists c,
    In c (out_commits merge_log_output)
    /\ In 1%nat (Commit.vis_lines c)
    /\ exists l, deref (out_line_heap merge_log_output) 1%nat = Some l
                 /\ fully_defined (out_object_prototype merge_log_output) l = true.
Proof.
  eexists. split; [vm_compute; right; left; reflexivity|].
  split; [vm_compute; auto|].
  eapply (returned_lines_are_fully_defined no_palette merge_log scenario_A_branches
            EmptyString SEP 0.25%float merge_log_output).
  - vm_compute. reflexivity.
  - vm_compute. right. left. reflexivity.
  - vm_compute. auto.
Defined.

(** ** The repair of a branch that the registry no longer holds *)

Lemma index_of_absent (x : addr) (l : list addr) :
  ~ In x l -> JS.index_of Nat.eqb x l = -1.
Proof.
  induction l as [|y l IH]; intros H; [reflexivity|].
  cbn [JS.index_of]. destruct (Nat.eqb_spec y x) as [->|_].
  - exfalso. apply H. left. reflexivity.
  - rewrite IH by (intros Hin; apply H; right; exact Hin). reflexivity.
Qed.

Lemma splice1_last {A} (l : list A) : JS.splice1 l (-1) = removelast l.
Proof.
  unfold JS.splice1. cbn [Z.ltb Z.compare].
  destruct l as [|x l]; [reflexivity|].
  replace (Z.to_nat (Z.max (Z.of_nat (List.length (x :: l)) + -1) 0))
    with (List.length l) by (cbn [List.length]; lia).
  rewrite (skipn_all2 (x :: l)) by (cbn [List.length]; lia).
  rewrite app_nil_r, removelast_firstn_len. reflexivity.
Qed.

(** When a star takes the branch tip of its row and the cell above and left
    of it is a backslash whose branch the registry does not hold - a repair
    has taken it out before - the registry loses its last entry instead,
    whatever branch that is: [branches.indexOf] gives -1, and
    [branches.splice(-1, 1)] removes the last element. *)
Theorem repair_of_unregistered_branch_drops_the_last_entry
    (vis_chars : list ascii) (st : State) (vis : Vis.t) (i : Z)
    (tip wrong_branch : addr) (v_nw : Vis.cell)
    (Hnw : JS.get_index (last_vis st) (i - 1) = Some v_nw)
    (Hchar : Vis.char v_nw = "\"%char)
    (Howner : Vis.branch v_nw = Some wrong_branch)
    (Hgone : ~ In wrong_branch (branches st)) :
  exists st' vis_line,
    resolve_cell vis_chars (Some tip) st vis i "*" = inr (mkResolved st' (Some tip) vis_line)
    /\ branches st' = removelast (branches st)
    /\ branch_heap st' = branch_heap st.
Proof.
  exists (repair wrong_branch tip st). eexists. split.
  { unfold resolve_cell. cbn [Ascii.eqb Bool.eqb]. unfold case_star.
    unfold char_is, branch_of. rewrite Hnw, Hchar, Howner. cbn [Ascii.eqb Bool.eqb].
    reflexivity. }
  unfold repair. state_fields. split; [|reflexivity].
  rewrite (index_of_absent _ _ Hgone). apply splice1_last.
Qed.

(** After [second_repair_log] the registry holds "master", "topic", "other"
    and HEAD; the branch inferred for the merge is no longer in it, but owns
    the backslash of the last row.  The tip of "other" below and right of that
    backslash takes HEAD out of the registry. *)
Lemma repair_of_unregistered_branch_witness :
  branches before_second_repair = [0; 1; 2; 3]%nat
  /\ branch_id (branch_heap before_second_repair) 3%nat = "HEAD"
  /\ exists st' vis_line,
       resolve_cell ["|"; " "; " "; " "; "*"]%char (Some 2%nat) before_second_repair [] 4 "*"
       = inr (mkResolved st' (Some 2%nat) vis_line)
       /\ branches st' = removelast (branches before_second_repair)
       /\ branch_heap st' = branch_heap before_second_repair.
Proof.
  split; [reflexivity|]. split; [reflexivity|].
  apply (repair_of_unregistered_branch_drops_the_last_entry
           ["|"; " "; " "; " "; "*"]%char before_second_repair [] 4 2%nat 4%nat
           (Vis.mk "\"%char (Some 4%nat))).
  - reflexivity.
  - reflexivity.
  - reflexivity.
  - vm_compute. intros [H|[H|[H|[H|[]]]]]; discriminate.
Defined.

(** ** The subjects that git writes for a merge *)

Lemma non_space_run_word (word rest : string) :
  mentions " " word = false ->
  rest = EmptyString \/ (exists r, rest = String " " r) ->
  non_space_run (word ++ rest) = word.
Proof.
  intros Hword Hrest. induction word as [|c word IH].
  - cbn [String.append]. destruct Hrest as [->|[r ->]]; reflexivity.
  - cbn [mentions] in Hword. apply Bool.orb_false_iff in Hword. destruct Hword as [Hc Hw].
    cbn [String.append non_space_run]. rewrite Ascii.eqb_sym, Hc, (IH Hw). reflexivity.
Qed.

Lemma upto_last_quote_closing (name : string) :
  upto_last_quote (name ++ "'") = Some name.
Proof.
  induction name as [|c name IH]; [reflexivity|].
  cbn [String.append upto_last_quote]. rewrite IH. reflexivity.
Qed.

Lemma mentions_app (c : ascii) (s t : string) :
  mentions c (s ++ t) = mentions c s || mentions c t.
Proof.
  induction s as [|d s IH]; [reflexivity|].
  cbn [String.append mentions]. rewrite IH, Bool.orb_assoc. reflexivity.
Qed.

Lemma strip_prefix_app (p t : string) : strip_prefix p (p ++ t) = Some t.
Proof.
  unfold strip_prefix.
  assert (H1 : String.prefix p (p ++ t) = true).
  { induction p as [|a p IH]; [destruct t; reflexivity|].
    cbn [String.append String.prefix]. destruct (ascii_dec a a); [exact IH|contradiction]. }
  assert (H2 : JS.slice_from (String.length p) (p ++ t) = t).
  { clear H1. induction p as [|a p IH]; [reflexivity|]. exact IH. }
  rewrite H1, H2. reflexivity.
Qed.

Lemma quoted_name_is_captured (name rest : string) :
  name <> EmptyString ->
  mentions " " name = false ->
  rest = EmptyString \/ (exists r, rest = String " " r) ->
  match_merge_branch ("Merge branch '" ++ name ++ "'" ++ rest) = Some name
  /\ match_merge_branch ("Merge remote-tracking branch '" ++ name ++ "'" ++ rest) = Some name
  /\ match_merge_branch ("Merge remote tracking branch '" ++ name ++ "'" ++ rest) = Some name.
Proof.
  intros Hne Hname Hrest.
  assert (Hq : match upto_last_quote (non_space_run (name ++ "'" ++ rest)) with
               | Some g => if JS.truthy g then Some g else None
               | None => None
               end = Some name).
  { replace (name ++ "'" ++ rest)%string with ((name ++ "'") ++ rest)%string
      by (rewrite <- append_assoc; reflexivity).
    rewrite non_space_run_word, upto_last_quote_closing.
    - unfold JS.truthy. destruct (String.eqb_spec name EmptyString); [contradiction|reflexivity].
    - rewrite mentions_app, Hname. reflexivity.
    - exact Hrest. }
  generalize dependent (name ++ "'" ++ rest)%string. intros tail Hq.
  assert (H1 : forall t, strip_prefix "Merge " ("Merge " ++ t) = Some t)
    by (intros t; apply strip_prefix_app).
  assert (H2 : forall t, strip_prefix "remote tracking " ("branch '" ++ t) = None)
    by (intros t; vm_compute; reflexivity).
  assert (H3 : forall t, strip_prefix "remote-tracking " ("branch '" ++ t) = None)
    by (intros t; vm_compute; reflexivity).
  assert (H4 : forall t, strip_prefix "branch '" ("branch '" ++ t) = Some t)
    by (intros t; apply strip_prefix_app).
  assert (H5 : forall t, strip_prefix "remote-tracking " ("remote-tracking " ++ t) = Some t)
    by (intros t; apply strip_prefix_app).
  assert (H6 : forall t, strip_prefix "remote tracking " ("remote tracking " ++ t) = Some t)
    by (intros t; apply strip_prefix_app).
  assert (H7 : forall t, strip_prefix "remote tracking " ("remote-tracking " ++ t) = None)
    by (intros t; vm_compute; reflexivity).
  split; [|split].
  - change ("Merge branch '" ++ tail)%string with ("Merge " ++ ("branch '" ++ tail))%string.
    unfold match_merge_branch. rewrite H1, H2, H3, H4. exact Hq.
  - change ("Merge remote-tracking branch '" ++ tail)%string
      with ("Merge " ++ ("remote-tracking " ++ ("branch '" ++ tail)))%string.
    unfold match_merge_branch. rewrite H1, H7, H5, H4. exact Hq.
  - change ("Merge remote tracking branch '" ++ tail)%string
      with ("Merge " ++ ("remote tracking " ++ ("branch '" ++ tail)))%string.
    unfold match_merge_branch. rewrite H1, H6, H4. exact Hq.
Qed.

Lemma skip_digits_app (digits rest : string) :
  skip_digits digits = EmptyString ->
  skip_digits (digits ++ String " " rest) = String " " rest.
Proof.
  induction digits as [|d digits IH]; intros H; [reflexivity|].
  cbn [skip_digits String.append] in *.
  destruct (JS.is_digit d); [apply IH; exact H|discriminate].
Qed.

Lemma pull_request_path_is_captured (digits path : string) :
  digits <> EmptyString ->
  skip_digits digits = EmptyString ->
  path <> EmptyString ->
  no_line_terminator path = true ->
  match_merge_branch ("Merge pull request #" ++ digits ++ " from " ++ path) = None
  /\ match_pull_request ("Merge pull request #" ++ digits ++ " from " ++ path) = Some path.
Proof.
  intros Hd Hdigits Hp Hpath.
  remember (digits ++ " from " ++ path)%string as tail eqn:Htail. split.
  - vm_compute. reflexivity.
  - assert (Hhere : match_pull_request_here ("pull request #" ++ tail) = Some path).
    { unfold match_pull_request_here.
      assert (H1 : strip_prefix "pull request #" ("pull request #" ++ tail) = Some tail)
        by apply strip_prefix_app.
      rewrite H1. subst tail. destruct digits as [|d digits]; [contradiction|].
      cbn [String.append]. cbn [skip_digits] in Hdigits |- *.
      destruct (JS.is_digit d); [|discriminate].
      change (digits ++ String " " (String "f" (String "r" (String "o" (String "m"
                (String " " path))))))%string
        with (digits ++ String " " ("from " ++ path))%string.
      rewrite (skip_digits_app _ _ Hdigits).
      assert (H2 : strip_prefix " from " (String " " ("from " ++ path)) = Some path)
        by apply (strip_prefix_app " from " path).
      rewrite H2. unfold JS.truthy.
      destruct (String.eqb_spec path EmptyString); [contradiction|].
      rewrite Hpath. reflexivity. }
    assert (Hnot : forall t, match_pull_request_here (String "M" t) = None
                             /\ match_pull_request_here (String "e" t) = None
                             /\ match_pull_request_here (String "r" t) = None
                             /\ match_pull_request_here (String "g" t) = None
                             /\ match_pull_request_here (String " " t) = None)
      by (intros t; repeat split; vm_compute; reflexivity).
    change ("Merge pull request #" ++ tail)%string
      with (String "M" (String "e" (String "r" (String "g" (String "e" (String " "
              ("pull request #" ++ tail))))))).
    cbn [match_pull_request].
    rewrite (proj1 (Hnot _)), (proj1 (proj2 (Hnot _))), (proj1 (proj2 (proj2 (Hnot _)))),
      (proj1 (proj2 (proj2 (proj2 (Hnot _))))), (proj1 (proj2 (Hnot _))),
      (proj2 (proj2 (proj2 (proj2 (Hnot _))))).
    assert (Hfound : forall t g, match_pull_request_here t = Some g ->
                                 match_pull_request t = Some g)
      by (intros t g H; destruct t; cbn [match_pull_request]; rewrite H; reflexivity).
    apply Hfound. exact Hhere.
Qed.

(** The subjects that git writes for a merge are recognised, whatever the
    name: after "Merge branch '", "Merge remote-tracking branch '" or "Merge
    remote tracking branch '", a name without a space that is closed by a
    quote at the end of the subject or before a space (as in "... into
    develop") is captured whole, quotes inside it included; and of "Merge pull
    request #N from PATH" the path is captured. *)
Theorem merge_subjects_are_recognised (name rest digits path : string) :
  name <> EmptyString ->
  mentions " " name = false ->
  rest = EmptyString \/ (exists r, rest = String " " r) ->
  digits <> EmptyString ->
  skip_digits digits = EmptyString ->
  path <> EmptyString ->
  no_line_terminator path = true ->
  subject_merge_match ("Merge branch '" ++ name ++ "'" ++ rest) = Some (Some name, None)
  /\ subject_merge_match ("Merge remote-tracking branch '" ++ name ++ "'" ++ rest)
     = Some (Some name, None)
  /\ subject_merge_match ("Merge remote tracking branch '" ++ name ++ "'" ++ rest)
     = Some (Some name, None)
  /\ subject_merge_match ("Merge pull request #" ++ digits ++ " from " ++ path)
     = Some (None, Some path).
Proof.
  intros Hne Hname Hrest Hd Hdigits Hp Hpath.
  destruct (quoted_name_is_captured name rest Hne Hname Hrest) as (H1 & H2 & H3).
  destruct (pull_request_path_is_captured digits path Hd Hdigits Hp Hpath) as (H4 & H5).
  unfold subject_merge_match. rewrite H1, H2, H3, H4, H5. repeat split.
Qed.

(** The subject of a merge into a branch that is not the default one, and of
    a pull request. *)
Lemma merge_subjects_witness :
  subject_merge_match "Merge branch 'it's' into develop" = Some (Some "it's", None)
  /\ subject_merge_match "Merge pull request #12 from owner/topic"
     = Some (None, Some "owner/topic").
Proof.
  destruct (merge_subjects_are_recognised "it's" " into develop" "12" "owner/topic")
    as (H1 & _ & _ & H4).
  - discriminate.
  - reflexivity.
  - right. eexists. reflexivity.
  - discriminate.
  - reflexivity.
  - discriminate.
  - reflexivity.
  - split; [exact H1|exact H4].
Defined.

(** ** No line is shared *)

Lemma NoDup_append {A} (l l' : list A) :
  NoDup l -> NoDup l' -> (forall x, In x l -> ~ In x l') -> NoDup (l ++ l').
Proof.
  intros Hl Hl' Hdisj. induction Hl as [|x l Hx Hl IH]; [exact Hl'|].
  cbn [app]. constructor.
  - intros Hin. apply in_app_or in Hin. destruct Hin as [Hin|Hin]; [contradiction|].
    apply (Hdisj x); [left; reflexivity|exact Hin].
  - apply IH. intros y Hy. apply Hdisj. right. exact Hy.
Qed.

Lemma lines_apart_same (st st' : State) :
  line_heap st' = line_heap st ->
  densened_vis_line_by_branch_id st' = densened_vis_line_by_branch_id st ->
  last_densened_vis_line_by_branch_id st' = last_densened_vis_line_by_branch_id st ->
  commits st' = commits st ->
  object_prototype st' = object_prototype st ->
  lines_apart st -> lines_apart st'.
Proof.
  intros H1 H2 H3 H4 H5 [Hready Hnd].
  split; [eapply lines_ready_same; eassumption|]. rewrite H4. exact Hnd.
Qed.

Lemma lines_apart_close (r : float) (row_no : nat) (cb : option addr)
    (hl h an ae dt : string) (refs : list GitRef.t) (subject : string) (st : State) :
  lines_apart st -> lines_apart (close_commit r row_no cb hl h an ae dt refs subject st).
Proof.
  intros [Hready Hnd]. split; [apply lines_ready_close; exact Hready|].
  destruct Hready as ((_ & Hvals & _) & _ & Hd).
  unfold close_commit. state_fields.
  rewrite map_app, concat_app. cbn [map List.concat Commit.vis_lines]. rewrite app_nil_r.
  apply NoDup_append; [exact Hnd| |].
  - eapply Permutation_NoDup; [apply sort_perm|exact Hvals].
  - intros x Hx Hsorted.
    apply (Permutation_in _ (Permutation_sym (sort_perm _ _))) in Hsorted.
    apply in_concat in Hx. destruct Hx as (lines & Hlines & Hin).
    apply in_map_iff in Hlines. destruct Hlines as (c & <- & Hc).
    exact (proj2 (Hd x Hsorted) c Hc Hin).
Qed.

Lemma parse_rows_lines_apart (branch_data separator : string) (curve_radius : float)
    (rows : list (nat * string)) (st0 st : State) :
  build_registry branch_data separator = inr st0 ->
  fold_exn (parse_row separator curve_radius) rows st0 = inr st ->
  lines_apart st.
Proof.
  intros H0 H.
  refine (parse_rows_invariant lines_apart _ _ _ _ _ _
            separator curve_radius rows st0 st _ H).
  - intros name remote s Hs. rewrite new_inferred_branch_eq.
    eapply lines_apart_same; [..|exact Hs]; reflexivity.
  - intros wrong_branch tip s [Hs Hnd]. split; [apply lines_ready_repair; exact Hs|exact Hnd].
  - intros k s [Hs Hnd]. split; [apply lines_ready_merge; exact Hs|].
    state_fields. rewrite map_update_same by reflexivity. exact Hnd.
  - intros i b l s Hl [Hs Hnd]. split; [apply lines_ready_densen; assumption|].
    densen_cases; exact Hnd.
  - intros r row_no cb hl h an ae dt refs subject s Hs. apply lines_apart_close. exact Hs.
  - intros v s Hs. eapply lines_apart_same; [..|exact Hs]; reflexivity.
  - refine (build_registry_invariant lines_apart _ branch_data separator st0 _ H0).
    + intros name remote tracking s Hs. eapply lines_apart_same; [..|exact Hs]; reflexivity.
    + split; [apply lines_ready_initial|constructor].
Qed.

(** When [parse] returns, no line object is listed twice in what it returns:
    a commit lists each of its lines once, and no two commits list the same
    line, so that what is changed on a line of one commit changes no other
    commit. *)
Theorem returned_commits_share_no_line (palette : string -> option string)
    (log_data branch_data stash_data separator : string) (curve_radius : float) (out : Output)
    (Hparse : parse palette log_data branch_data stash_data separator curve_radius = inr out) :
  NoDup (List.concat (map Commit.vis_lines (out_commits out))).
Proof.
  unfold parse in Hparse.
  destruct (build_registry branch_data separator) as [e|st0] eqn:H0; [discriminate|].
  destruct (parse_rows separator curve_radius log_data st0) as [e|st] eqn:Hrows; [discriminate|].
  apply inr_eq in Hparse. subst out. cbn [finish out_commits].
  rewrite attach_stashes_lines. exact (proj2 (parse_rows_lines_apart _ _ _ _ _ _ H0 Hrows)).
Qed.

(** The three lines of the two commits of [merge_log]. *)
Lemma returned_commits_share_no_line_witness :
  map Commit.vis_lines (out_commits merge_log_output) = [[0]; [1; 2]]%nat
  /\ NoDup (List.concat (map Commit.vis_lines (out_commits merge_log_output))).
Proof.
  split; [reflexivity|].
  apply (returned_commits_share_no_line no_palette merge_log scenario_A_branches
           EmptyString SEP 0.25%float).
  vm_compute. reflexivity.
Defined.

(** ** The branch of a commit *)

Lemma star_takes_the_tip (vis_chars : list ascii) (tip : addr) (st : State) (vis : Vis.t)
    (i : Z) :
  exists r, resolve_cell vis_chars (Some tip) st vis i "*" = inr r /\ v_branch r = Some tip.
Proof.
  unfold resolve_cell. cbn [Ascii.eqb Bool.eqb]. unfold case_star.
  eexists. split; [reflexivity|]. reflexivity.
Qed.

Lemma scan_cell_commit_branch (vis_chars : list ascii) (tip : option addr)
    (sc sc' : Scan) (cell : nat * ascii) :
  scan_cell vis_chars tip sc cell = inr sc' ->
  (snd cell <> "*"%char -> commit_branch sc' = commit_branch sc)
  /\ (forall t, tip = Some t -> snd cell = "*"%char -> commit_branch sc' = Some t).
Proof.
  destruct cell as [k char]. unfold scan_cell. cbn [snd].
  destruct (resolve_cell vis_chars tip (state sc) (vis sc) (Z.of_nat k) char) as [e|r] eqn:E;
    [discriminate|].
  intros H. apply inr_eq in H. subst sc'. cbn [commit_branch]. split.
  - intros Hchar. destruct (Ascii.eqb_spec char "*"); [contradiction|reflexivity].
  - intros t -> ->. cbn [Ascii.eqb Bool.eqb].
    destruct (star_takes_the_tip vis_chars t (state sc) (vis sc) (Z.of_nat k)) as (r' & Hr' & Hv).
    congruence.
Qed.

Lemma scan_cells_commit_branch (vis_chars : list ascii) (tip : option addr)
    (cells : list (nat * ascii)) :
  forall sc sc',
    fold_exn (scan_cell vis_chars tip) cells sc = inr sc' ->
    ((forall cell, In cell cells -> snd cell <> "*"%char) ->
     commit_branch sc' = commit_branch sc)
    /\ (forall t, tip = Some t ->
                  commit_branch sc = Some t \/ (exists cell, In cell cells /\ snd cell = "*"%char) ->
                  commit_branch sc' = Some t).
Proof.
  induction cells as [|cell cells IH]; intros sc sc'; cbn [fold_exn].
  - intros H. apply inr_eq in H. subst sc'. split; [reflexivity|].
    intros t _ [H|(cell & [] & _)]. exact H.
  - destruct (scan_cell vis_chars tip sc cell) as [e|sc1] eqn:E; [discriminate|].
    intros H. apply IH in H. destruct H as [Hnone Hsome].
    apply scan_cell_commit_branch in E. destruct E as [Hkeep Hstar]. split.
    + intros Hno. rewrite Hnone by (intros c Hc; apply Hno; right; exact Hc).
      apply Hkeep. apply Hno. left. reflexivity.
    + intros t Ht Hor. apply (Hsome t Ht).
      destruct (Ascii.eqb_spec (snd cell) "*") as [Hc|Hc].
      * left. apply Hstar; assumption.
      * destruct Hor as [Hsc|(c & [<-|Hin] & Hcs)].
        -- left. rewrite (Hkeep Hc). exact Hsc.
        -- contradiction.
        -- right. exists c. split; assumption.
Qed.

(** The commit of a row belongs to the branch tip of the row: when the row
    has a subject, a star among its graph characters, and a branch among the
    refs of its decoration field, the branch of the commit it adds is the
    first branch of its sorted refs, which are the refs of the commit.  A row
    with a subject and no star gives a commit without a branch. *)
Theorem commit_belongs_to_the_branch_tip (separator : string) (curve_radius : float)
    (st st' : State) (row_no : nat) (row : string) :
  parse_row separator curve_radius st (row_no, row) = inr st' ->
  has_subject separator row = true ->
  let refs := resolve_refs st (field (JS.split row separator) 6) in
  exists c,
    JS.at_last (commits st') = Some c
    /\ Commit.refs c = refs
    /\ (forall tip,
           branch_tip_of st refs = Some tip ->
           In "*"%char (vis_chars_of separator row) ->
           Commit.branch c = Some tip /\ In (GitRef.of_branch tip) refs)
    /\ (~ In "*"%char (vis_chars_of separator row) -> Commit.branch c = None).
Proof.
  unfold parse_row, has_subject, vis_chars_of.
  destruct (String.eqb row "... "); cbn [negb andb]; [discriminate|].
  destruct (has_unknown_char _); [discriminate|].
  destruct (scan_row _ _ _) as [e|sc] eqn:E; [discriminate|].
  intros H Hsubject. apply inr_eq in H. subst st'. rewrite Hsubject.
  set (refs := resolve_refs st (field (JS.split row separator) 6)) in *.
  unfold close_commit. state_fields. rewrite at_last_snoc. eexists. split; [reflexivity|].
  cbn [Commit.refs Commit.branch]. split; [reflexivity|].
  unfold scan_row in E. apply scan_cells_commit_branch in E. destruct E as [Hnone Hsome].
  cbn [commit_branch] in Hnone, Hsome.
  set (vis_chars := list_ascii_of_string (JS.trimEnd (field (JS.split row separator) 0))) in *.
  split.
  - intros tip Htip Hstar. split.
    + apply (Hsome tip Htip). right.
      apply In_nth_error in Hstar. destruct Hstar as [k Hk].
      exists (k, "*"%char). split; [|reflexivity]. apply -> in_rev.
      apply nth_error_In with (n := k). rewrite nth_error_entries, Hk. reflexivity.
    + unfold branch_tip_of in Htip. fold refs in Htip.
      destruct (filter (is_branch (branch_heap st)) refs) as [|[a|o] rest] eqn:Hf;
        [discriminate| |discriminate].
      injection Htip as ->.
      assert (Hin : In (GitRef.of_branch tip) (filter (is_branch (branch_heap st)) refs))
        by (rewrite Hf; left; reflexivity).
      apply filter_In in Hin. exact (proj1 Hin).
  - intros Hno. apply Hnone. intros [k c] Hc Hstar. cbn [snd] in Hstar. subst c.
    apply <- in_rev in Hc. apply in_entries in Hc. apply Hno.
    eapply nth_error_In. exact Hc.
Qed.

(** The commit of Scenario A belongs to "master". *)
Lemma commit_belongs_to_the_branch_tip_witness :
  parse_row SEP 0.25%float scenario_A_registry (0%nat, scenario_A_log) = inr scenario_A_parsed
  /\ exists c, JS.at_last (commits scenario_A_parsed) = Some c
               /\ Commit.branch c = Some 0%nat.
Proof.
  assert (H : parse_row SEP 0.25%float scenario_A_registry (0%nat, scenario_A_log)
              = inr scenario_A_parsed) by (vm_compute; reflexivity).
  split; [exact H|].
  destruct (commit_belongs_to_the_branch_tip SEP 0.25%float scenario_A_registry
              scenario_A_parsed 0%nat scenario_A_log H) as (c & Hc & _ & Htip & _).
  - vm_compute. reflexivity.
  - exists c. split; [exact Hc|].
    refine (proj1 (Htip 0%nat _ _)); [vm_compute; reflexivity|vm_compute; auto].
Defined.

(** ** All the stash lines *)

Lemma find_commit_hashes (hash : string) (cs cs' : list Commit.t) :
  map Commit.hash cs' = map Commit.hash cs -> find_commit hash cs' = find_commit hash cs.
Proof.
  revert cs'. induction cs as [|c cs IH]; intros [|c' cs'] H; try discriminate; [reflexivity|].
  cbn [map] in H. injection H as Hc Hcs. cbn [find_commit]. rewrite Hc, (IH _ Hcs). reflexivity.
Qed.

Lemma find_commit_valid (hash : string) (cs : list Commit.t) (k : nat) :
  find_commit hash cs = Some k -> (k < List.length cs)%nat.
Proof.
  revert k. induction cs as [|c cs IH]; intros k; [discriminate|].
  cbn [find_commit List.length]. destruct (String.eqb (Commit.hash c) hash).
  - intros [= <-]. lia.
  - destruct (find_commit hash cs) as [j|]; [|discriminate].
    cbn [option_map]. intros [= <-]. specialize (IH j eq_refl). lia.
Qed.

Lemma attach_stashes_each (stash_lines : list string) (cs : list Commit.t) (k : nat) :
  forall cs' c',
    map Commit.hash cs' = map Commit.hash cs ->
    nth_error cs' k = Some c' ->
    nth_error (fold_left attach_stash stash_lines cs') k
    = Some (fold_left (fun c r => Commit.push_ref r c)
              (map stash_ref (stash_labels_for cs k stash_lines)) c').
Proof.
  induction stash_lines as [|stash stash_lines IH]; intros cs' c' Hhashes Hk; [exact Hk|].
  cbn [fold_left stash_labels_for flat_map]. rewrite map_app, fold_left_app.
  unfold attach_stash at 2.
  destruct (nth_error (JS.split stash " ") 0) as [hash|]; [|apply IH; assumption].
  rewrite (find_commit_hashes hash cs cs' Hhashes).
  destruct (find_commit hash cs) as [j|]; [|apply IH; assumption].
  apply IH.
  - rewrite map_update_same by reflexivity. exact Hhashes.
  - rewrite update_nth_error. destruct (Nat.eqb_spec j k) as [->|Hne].
    + rewrite Nat.eqb_refl, Hk. reflexivity.
    + destruct (Nat.eqb_spec k j) as [->|_]; [contradiction|exact Hk].
Qed.

(** The stash lines do not get in each other's way.  After all of them a
    commit has, after the refs it had, one stash ref for each line whose first
    word is the hash of no commit before it and is its hash, in the order of
    the lines; nothing else of the commit has changed, and a line whose first
    word is no commit's hash adds nothing. *)
Theorem stash_lines_attach_in_order (stash_data : string) (cs : list Commit.t)
    (k : nat) (c : Commit.t) :
  nth_error cs k = Some c ->
  exists c',
    nth_error (attach_stashes stash_data cs) k = Some c'
    /\ c' = fold_left (fun c r => Commit.push_ref r c)
              (map stash_ref (stash_labels_for cs k (JS.split stash_data NL))) c
    /\ Commit.refs c'
       = Commit.refs c ++ map stash_ref (stash_labels_for cs k (JS.split stash_data NL))
    /\ row_fields c' = row_fields c
    /\ Commit.vis_lines c' = Commit.vis_lines c
    /\ Commit.branch c' = Commit.branch c
    /\ Commit.merge c' = Commit.merge c.
Proof.
  intros Hk. eexists. split; [apply (attach_stashes_each _ cs k cs c eq_refl Hk)|].
  split; [reflexivity|].
  generalize (map stash_ref (stash_labels_for cs k (JS.split stash_data NL))). intros added.
  clear Hk. revert c. induction added as [|r added IH]; intros c; cbn [fold_left].
  - rewrite app_nil_r. repeat split.
  - destruct (IH (Commit.push_ref r c)) as (H1 & H2 & H3 & H4 & H5).
    rewrite H1, H2, H3, H4, H5. cbn [Commit.push_ref Commit.refs].
    rewrite <- app_assoc. repeat split.
Qed.

(** Two stashes on the commit "c3", and one on a commit that is not there. *)
Lemma stash_lines_attach_in_order_witness :
  exists c',
    nth_error (attach_stashes ("c3 stash@{0}" ++ NL ++ "c9 stash@{1}" ++ NL ++ "c3 stash@{2}")
                 two_commits) 1 = Some c'
    /\ Commit.refs c' = [stash_ref "stash@{0}"; stash_ref "stash@{2}"].
Proof.
  destruct (stash_lines_attach_in_order
              ("c3 stash@{0}" ++ NL ++ "c9 stash@{1}" ++ NL ++ "c3 stash@{2}")
              two_commits 1
              (Commit.mk 1 [] None "c3long" "c3" "Alice" "a@x.com" "2021-03-01 10:00:00" []
                 "first" false) eq_refl) as (c' & Hc' & _ & Hrefs & _).
  exists c'. split; [exact Hc'|]. rewrite Hrefs. vm_compute. reflexivity.
Defined.

(** ** [parse] returns on well formed input *)

Lemma fold_exn_total {A S : Type} (Q : S -> Prop) (f : S -> A -> exn + S) (l : list A) :
  (forall x s, In x l -> Q s -> exists s', f s x = inr s' /\ Q s') ->
  forall s, Q s -> exists s', fold_exn f l s = inr s' /\ Q s'.
Proof.
  induction l as [|x l IH]; intros Hf s Hs; cbn [fold_exn]; [eauto|].
  destruct (Hf x s (or_introl eq_refl) Hs) as (s1 & -> & Hs1).
  apply IH; [|exact Hs1]. intros y s' Hy. apply Hf. right. exact Hy.
Qed.

Lemma set_index_chars (v : Vis.t) (k : nat) (cell : Vis.cell) :
  map (option_map Vis.char) (JS.set_index v k cell)
  = JS.set_index (map (option_map Vis.char) v) k (Vis.char cell).
Proof.
  revert v. induction k as [|k IH]; intros [|y v]; cbn [JS.set_index map option_map];
    try reflexivity.
  - specialize (IH []). cbn [map] in IH. rewrite IH. reflexivity.
  - rewrite IH. reflexivity.
Qed.

Lemma scan_cells_chars (vis_chars : list ascii) (tip : option addr)
    (cells : list (nat * ascii)) :
  forall sc sc',
    fold_exn (scan_cell vis_chars tip) cells sc = inr sc' ->
    map (option_map Vis.char) (vis sc')
    = fold_left (fun v cell => JS.set_index v (fst cell) (snd cell)) cells
        (map (option_map Vis.char) (vis sc)).
Proof.
  induction cells as [|[k char] cells IH]; intros sc sc'; cbn [fold_exn fold_left].
  - intros H. apply inr_eq in H. subst sc'. reflexivity.
  - destruct (scan_cell vis_chars tip sc (k, char)) as [e|sc1] eqn:E; [discriminate|].
    intros H. rewrite (IH _ _ H). f_equal. unfold scan_cell in E.
    destruct (resolve_cell _ _ _ _ _ _) as [e|r]; [discriminate|].
    apply inr_eq in E. subst sc1. cbn [vis fst snd]. apply set_index_chars.
Qed.

Lemma entries_snoc {A} (l : list A) (x : A) :
  entries (l ++ [x]) = entries l ++ [(List.length l, x)].
Proof.
  unfold entries.
  assert (H : forall s, combine (seq s (List.length (l ++ [x]))) (l ++ [x])
                        = combine (seq s (List.length l)) l ++ [((s + List.length l)%nat, x)]);
    [|exact (H 0%nat)].
  induction l as [|y l IH]; intros s.
  - cbn. rewrite Nat.add_0_r. reflexivity.
  - cbn [app List.length seq combine]. rewrite IH.
    replace (S s + List.length l)%nat with (s + S (List.length l))%nat by lia. reflexivity.
Qed.

Lemma set_index_holes {A} (n : nat) (y : option A) (tail : list (option A)) (x : A) :
  JS.set_index (repeat None n ++ y :: tail) n x = repeat None n ++ Some x :: tail.
Proof.
  induction n as [|n IH]; cbn [repeat app JS.set_index]; [reflexivity|].
  rewrite IH. reflexivity.
Qed.

Lemma set_index_empty {A} (n : nat) (x : A) :
  JS.set_index [] n x = repeat None n ++ [Some x].
Proof.
  induction n as [|n IH]; cbn [repeat app JS.set_index]; [reflexivity|].
  rewrite IH. reflexivity.
Qed.

Lemma set_all_from_holes {A} (l : list A) :
  forall tail,
    fold_left (fun v cell => JS.set_index v (fst cell) (snd cell)) (rev (entries l))
      (repeat None (List.length l) ++ tail)
    = map Some l ++ tail.
Proof.
  induction l as [|x l IH] using rev_ind; intros tail; [reflexivity|].
  rewrite entries_snoc, rev_app_distr, length_app. cbn [rev app fold_left fst snd List.length].
  rewrite Nat.add_1_r. replace (repeat None (S (List.length l)) ++ tail)
    with (repeat (@None A) (List.length l) ++ None :: tail).
  - rewrite set_index_holes, IH, map_app, <- app_assoc. reflexivity.
  - rewrite <- Nat.add_1_r, repeat_app, <- app_assoc. reflexivity.
Qed.

Lemma set_all_from_nothing {A} (l : list A) :
  fold_left (fun v cell => JS.set_index v (fst cell) (snd cell)) (rev (entries l)) []
  = map Some l.
Proof.
  destruct l as [|x l] using rev_ind; [reflexivity|].
  rewrite entries_snoc, rev_app_distr. cbn [rev app fold_left fst snd].
  rewrite set_index_empty, set_all_from_holes, map_app. reflexivity.
Qed.

(** The cells that the scan of a row leaves are those of its characters. *)
Lemma scan_row_chars (vis_chars : list ascii) (tip : option addr) (st : State) (sc : Scan) :
  scan_row vis_chars tip st = inr sc ->
  map (option_map Vis.char) (vis sc) = map Some vis_chars.
Proof.
  unfold scan_row. intros H. apply scan_cells_chars in H. rewrite H.
  cbn [vis map]. apply set_all_from_nothing.
Qed.

Lemma chars_solid (lv : Vis.t) (vis_chars : list ascii) :
  map (option_map Vis.char) lv = map Some vis_chars ->
  match vis_chars with
  | c :: _ => negb (Ascii.eqb c "." || Ascii.eqb c "-")
  | [] => true
  end = true ->
  solid lv.
Proof.
  intros Hchars Hfirst. split; [|split].
  - intros j Hj. destruct (nth_error lv j) as [[cell|]|] eqn:E; [eauto| |].
    + apply (map_nth_error (option_map Vis.char)) in E. rewrite Hchars in E.
      cbn [option_map] in E. destruct (nth_error vis_chars j) as [c|] eqn:Ec.
      * rewrite (map_nth_error Some _ _ Ec) in E. discriminate.
      * apply nth_error_None in Ec.
        assert (Hnone : nth_error (map Some vis_chars) j = None)
          by (apply nth_error_None; rewrite length_map; exact Ec).
        congruence.
    + apply nth_error_None in E. lia.
  - destruct lv as [|[cell|] lv], vis_chars as [|c vis_chars]; try discriminate;
      try reflexivity.
    cbn [map option_map] in Hchars. injection Hchars as Hc _. 
    unfold JS.get_index, JS.at_index. cbn. rewrite Hc.
    apply Bool.negb_true_iff, Bool.orb_false_iff in Hfirst. apply (proj1 Hfirst).
  - destruct lv as [|[cell|] lv], vis_chars as [|c vis_chars]; try discriminate;
      try reflexivity.
    cbn [map option_map] in Hchars. injection Hchars as Hc _. 
    unfold JS.get_index, JS.at_index. cbn. rewrite Hc.
    apply Bool.negb_true_iff, Bool.orb_false_iff in Hfirst. apply (proj2 Hfirst).
Qed.

Lemma get_index_solid (lv : Vis.t) (j : nat) (cell : Vis.cell) :
  solid lv -> JS.get_index lv (Z.of_nat j) = Some cell ->
  forall m, (m <= j)%nat -> JS.get_index lv (Z.of_nat m) <> None.
Proof.
  intros (Hcells & _) Hj m Hm. unfold JS.get_index, JS.at_index in *.
  destruct (Z.ltb_spec (Z.of_nat j) 0); [lia|].
  destruct (Z.ltb_spec (Z.of_nat m) 0); [lia|].
  rewrite Nat2Z.id in *.
  destruct (nth_error lv j) as [[c|]|] eqn:E; try discriminate.
  assert (Hlen : (j < List.length lv)%nat) by (apply nth_error_Some; congruence).
  destruct (Hcells m) as (c' & ->); [lia|discriminate].
Qed.

Lemma resolve_cell_total (vis_chars : list ascii) (tip : option addr) (st : State)
    (vis : Vis.t) (k : nat) (char : ascii) :
  solid (last_vis st) ->
  exists r, resolve_cell vis_chars tip st vis (Z.of_nat k) char = inr r.
Proof.
  intros Hsolid. unfold resolve_cell.
  destruct (Ascii.eqb char "*"); [eauto|].
  destruct (Ascii.eqb char "|"); [eauto|].
  destruct (Ascii.eqb char "_"); [eauto|].
  destruct (Ascii.eqb char "/"); [eauto|].
  destruct (Ascii.eqb char "\"); [|eauto].
  unfold case_backslash.
  destruct (char_is _ "|"); [eauto|].
  destruct (match JS.at_index vis_chars (Z.of_nat k - 1) with
            | Some c => Ascii.eqb c "|"
            | None => false
            end).
  { destruct (merge_marker st). eauto. }
  destruct (_ || _); [eauto|].
  destruct (char_is (JS.get_index (last_vis st) (Z.of_nat k - 1)) "."
            || char_is (JS.get_index (last_vis st) (Z.of_nat k - 1)) "-") eqn:Hnw; [|eauto].
  destruct (walk_dashes _ _) as [w|] eqn:Hwalk; [eauto|]. exfalso.
  destruct (JS.get_index (last_vis st) (Z.of_nat k - 1)) as [nw|] eqn:Enw; [|discriminate].
  destruct k as [|k]; [discriminate|].
  replace (Z.of_nat (S k) - 1) with (Z.of_nat k) in * by lia.
  replace (Z.to_nat (Z.of_nat (S k) - 2 + 1)) with k in Hwalk by lia.
  apply walk_dashes_none in Hwalk. destruct Hwalk as (m & Hm & Hnone & Hall).
  destruct m as [|m].
  - destruct Hsolid as (_ & Hdot & Hdash). destruct k as [|k].
    + cbn [Z.of_nat] in Enw. rewrite Enw in Hdot, Hdash. rewrite Hdot, Hdash in Hnw.
      discriminate.
    + specialize (Hall 0%nat). cbn [Z.of_nat] in Hall. rewrite Hall in Hdash by lia.
      discriminate.
  - replace (Z.of_nat (S m) - 1) with (Z.of_nat m) in Hnone by lia.
    apply (get_index_solid _ _ _ Hsolid Enw m); [lia|exact Hnone].
Qed.

Lemma scan_row_total (vis_chars : list ascii) (tip : option addr) (st : State) :
  solid (last_vis st) ->
  exists sc, scan_row vis_chars tip st = inr sc /\ last_vis (state sc) = last_vis st.
Proof.
  intros Hsolid. unfold scan_row.
  apply (fold_exn_total (fun sc => last_vis (state sc) = last_vis st)); [|reflexivity].
  intros [k char] sc _ Hsc. unfold scan_cell.
  destruct (resolve_cell_total vis_chars tip (state sc) (vis sc) k char) as [r Hr];
    [rewrite Hsc; exact Hsolid|].
  rewrite Hr. eexists. split; [reflexivity|]. cbn [state].
  assert (Hres : last_vis (res_state r) = last_vis st).
  { refine (resolve_cell_invariant (fun s => last_vis s = last_vis st) _ _ _
              vis_chars tip (state sc) (vis sc) (Z.of_nat k) char r Hsc Hr).
    - intros name remote s Hs. rewrite new_inferred_branch_eq. exact Hs.
    - intros wrong_branch t s Hs. exact Hs.
    - intros j s Hs. exact Hs. }
  destruct (v_branch r); [|exact Hres]. destruct (vis_line r); [|exact Hres].
  densen_cases; exact Hres.
Qed.

Lemma parse_row_total (separator : string) (curve_radius : float) (st : State)
    (row_no : nat) (row : string) :
  well_formed_row separator row = true ->
  solid (last_vis st) ->
  exists st', parse_row separator curve_radius st (row_no, row) = inr st'
              /\ solid (last_vis st').
Proof.
  unfold well_formed_row, parse_row, vis_chars_of. intros Hrow Hsolid.
  destruct (String.eqb row "... "); [eauto|]. cbn [orb] in Hrow.
  apply andb_prop in Hrow. destruct Hrow as [Hknown Hfirst].
  apply Bool.negb_true_iff in Hknown. rewrite Hknown.
  destruct (scan_row_total
              (list_ascii_of_string (JS.trimEnd (field (JS.split row separator) 0)))
              (branch_tip_of st (resolve_refs st (field (JS.split row separator) 6)))
              st Hsolid) as (sc & Hsc & _).
  rewrite Hsc. eexists. split; [reflexivity|]. state_fields.
  apply scan_row_chars in Hsc. exact (chars_solid _ _ Hsc Hfirst).
Qed.

Lemma build_registry_total (branch_data separator : string) :
  well_formed_branch_data separator branch_data = true ->
  exists st0, build_registry branch_data separator = inr st0 /\ last_vis st0 = [].
Proof.
  unfold well_formed_branch_data, build_registry. intros H.
  destruct (fold_exn_total (fun s => last_vis s = []) (add_branch_line separator)
              (JS.split branch_data NL)) with (s := initial_state) as (st1 & -> & Hst1).
  - intros line s Hline Hs. unfold add_branch_line.
    rewrite forallb_forall in H. specialize (H line Hline).
    destruct (nth_error (JS.split line separator) 1) as [ref_name|]; [|discriminate].
    destruct (JS.startsWith ref_name "refs/heads/"); [eauto|].
    destruct (JS.split (JS.slice_from 13 ref_name) "/"); eauto.
  - reflexivity.
  - eauto.
Qed.

Lemma parse_rows_total (separator : string) (curve_radius : float) (log_data : string)
    (st0 : State) :
  well_formed_log separator log_data = true ->
  solid (last_vis st0) ->
  exists st, parse_rows separator curve_radius log_data st0 = inr st.
Proof.
  intros Hlog Hsolid. unfold parse_rows.
  destruct (fold_exn_total (fun s => solid (last_vis s)) (parse_row separator curve_radius)
              (entries (JS.split log_data NL))) with (s := st0) as (st & Hst & _).
  - intros [row_no row] s Hin Hs. apply parse_row_total; [|exact Hs].
    unfold well_formed_log in Hlog. rewrite forallb_forall in Hlog. apply Hlog.
    apply in_entries in Hin. eapply nth_error_In. exact Hin.
  - exact Hsolid.
  - eauto.
Qed.

Lemma solid_nothing : solid [].
Proof.
  split; [intros j Hj; cbn [List.length] in Hj; lia|]. split; reflexivity.
Qed.

(** [parse] returns, whatever the stashes and the palette are, when every
    line of [branch_data] has a ref path, the graph characters of every row
    are graph characters, and no row begins with a dot or a dash. *)
Theorem parse_returns_on_well_formed_input (palette : string -> option string)
    (log_data branch_data stash_data separator : string) (curve_radius : float) :
  well_formed_branch_data separator branch_data = true ->
  well_formed_log separator log_data = true ->
  exists out,
    parse palette log_data branch_data stash_data separator curve_radius = inr out.
Proof.
  intros Hbranches Hlog. unfold parse.
  destruct (build_registry_total _ _ Hbranches) as (st0 & -> & Hvis).
  destruct (parse_rows_total separator curve_radius log_data st0 Hlog) as (st & ->).
  - rewrite Hvis. apply solid_nothing.
  - eauto.
Qed.

(** [merge_log] and the branches of Scenario A are well formed. *)
Lemma parse_returns_witness :
  well_formed_branch_data SEP scenario_A_branches = true
  /\ well_formed_log SEP merge_log = true
  /\ exists out,
       parse no_palette merge_log scenario_A_branches EmptyString SEP 0.25%float = inr out.
Proof.
  split; [vm_compute; reflexivity|]. split; [vm_compute; reflexivity|].
  apply (parse_returns_on_well_formed_input no_palette merge_log scenario_A_branches
           EmptyString SEP 0.25%float); vm_compute; reflexivity.
Defined.

(** When [parse] throws, the input is not well formed, and what is thrown is
    one of three exceptions: the TypeError of a line of [branch_data] without
    a ref path, and then the rows are not looked at; or, the registry built,
    the Error that names a row with a character that is no graph character, or
    the TypeError of the dashes that reach the left edge.  The stashes throw
    nothing. *)
Theorem parse_throws_on_ill_formed_input_only (palette : string -> option string)
    (log_data branch_data stash_data separator : string) (curve_radius : float) (e : exn) :
  parse palette log_data branch_data stash_data separator curve_radius = inl e ->
  (e = TypeError undefined_ref_name
   /\ well_formed_branch_data separator branch_data = false)
  \/ (well_formed_log separator log_data = false
      /\ exists st0,
           build_registry branch_data separator = inr st0
           /\ (e = TypeError undefined_w_char_match
               \/ exists row_no row,
                    nth_error (JS.split log_data NL) row_no = Some row
                    /\ e = Error (git_log_error row_no)
                    /\ has_unknown_char (vis_chars_of separator row) = true)).
Proof.
  unfold parse. intros H.
  destruct (build_registry branch_data separator) as [e0|st0] eqn:H0.
  - left. injection H as <-. split; [eapply build_registry_error; exact H0|].
    destruct (well_formed_branch_data separator branch_data) eqn:Hwf; [|reflexivity].
    destruct (build_registry_total _ _ Hwf) as (st0 & Hst0 & _). congruence.
  - right. destruct (parse_rows separator curve_radius log_data st0) as [e1|st] eqn:H1;
      [|discriminate].
    injection H as <-. split.
    + destruct (well_formed_log separator log_data) eqn:Hwf; [|reflexivity].
      destruct (parse_rows_total separator curve_radius log_data st0 Hwf) as (st & Hst).
      * apply (build_registry_invariant (fun s => solid (last_vis s))) in H0;
          [exact H0|intros name remote tracking s Hs; exact Hs|apply solid_nothing].
      * congruence.
    + exists st0. split; [reflexivity|].
      unfold parse_rows in H1. apply fold_exn_error in H1.
      destruct H1 as (l1 & [row_no row] & l2 & s' & Hl & _ & Hx).
      destruct e1 as [message|message].
      * right. apply parse_row_error in Hx. destruct Hx as [-> Hchar].
        exists row_no, row. split; [|split; [reflexivity|exact Hchar]].
        apply in_entries. rewrite Hl. apply in_or_app. right. left. reflexivity.
      * left. unfold parse_row in Hx. destruct (String.eqb row "... "); [discriminate|].
        destruct (has_unknown_char _); [discriminate|].
        destruct (scan_row _ _ _) as [e2|sc] eqn:Hscan; [|discriminate].
        injection Hx as <-. eapply scan_row_error. exact Hscan.
Qed.

(** A dot, and a backslash below and right of it. *)
Lemma parse_throws_witness :
  parse no_palette dot_backslash_log scenario_A_branches EmptyString SEP 0.25%float
  = inl (TypeError undefined_w_char_match)
  /\ well_formed_log SEP dot_backslash_log = false.
Proof.
  assert (H : parse no_palette dot_backslash_log scenario_A_branches EmptyString SEP 0.25%float
              = inl (TypeError undefined_w_char_match)) by (vm_compute; reflexivity).
  split; [exact H|].
  destruct (parse_throws_on_ill_formed_input_only no_palette dot_backslash_log
              scenario_A_branches EmptyString SEP 0.25%float _ H) as [[Hne _]|[Hlog _]].
  - discriminate.
  - exact Hlog.
Defined.

(** ** A branch with the name of an inherited property *)

Lemma own_keys_only_same (st st' : State) :
  densened_vis_line_by_branch_id st' = densened_vis_line_by_branch_id st ->
  own_keys_only st -> own_keys_only st'.
Proof. unfold own_keys_only. intros ->. auto. Qed.

Lemma own_keys_only_densen (i : Z) (b : addr) (l : VisLine.t) (st : State) :
  own_keys_only st -> own_keys_only (densen i b l st).
Proof.
  intros H. unfold densen, own_keys_only.
  destruct (JS.get _ (densened_vis_line_by_branch_id st) (branch_id (branch_heap st) b))
    as [a| |w|] eqn:Hget; state_fields;
    [exact H|destruct (String.eqb _ "__proto__"); exact H|exact H|].
  destruct (set_absent_perm _ _ _ (List.length (line_heap st)) Hget) as [Hperm _].
  pose proof (Permutation_map fst Hperm) as Hpk. cbn [map fst] in Hpk.
  intros key Hkey. apply (Permutation_in _ (Permutation_sym Hpk)) in Hkey.
  destruct Hkey as [<-|Hkey]; [|apply H; exact Hkey].
  unfold JS.get in Hget. destruct (JS.own _ _); [discriminate|].
  destruct (JS.is_inherited _); [discriminate|reflexivity].
Qed.

Lemma own_keys_only_cells (branch_data separator : string) (curve_radius : float)
    (rows : list (nat * string)) (st0 st : State) (vis_chars : list ascii)
    (tip : option addr) (cells : list (nat * ascii)) (sc : Scan) :
  build_registry branch_data separator = inr st0 ->
  fold_exn (parse_row separator curve_radius) rows st0 = inr st ->
  fold_exn (scan_cell vis_chars tip) cells (mkScan st [] None) = inr sc ->
  own_keys_only (state sc).
Proof.
  intros H0 Hrows Hcells.
  assert (Hni : forall name remote s, own_keys_only s ->
                  own_keys_only (fst (new_inferred_branch name remote s)))
    by (intros name remote s Hs; rewrite new_inferred_branch_eq; exact Hs).
  assert (Hst : own_keys_only st).
  { refine (parse_rows_invariant own_keys_only Hni _ _
              (fun i b l s _ => own_keys_only_densen i b l s) _ _
              separator curve_radius rows st0 st _ Hrows).
    - intros wrong_branch t s Hs. exact Hs.
    - intros k s Hs. exact Hs.
    - intros r row_no cb hl h an ae dt refs subject s Hs key []. 
    - intros v s Hs. exact Hs.
    - refine (build_registry_invariant own_keys_only _ branch_data separator st0 _ H0).
      + intros name remote tracking s Hs. exact Hs.
      + intros key []. }
  revert Hcells.
  apply (fold_exn_invariant (fun sc => own_keys_only (state sc))); [|exact Hst].
  intros s [k char] s' Hs. unfold scan_cell.
  destruct (resolve_cell _ _ _ _ _ _) as [e|r] eqn:E; [discriminate|].
  intros Heq. apply inr_eq in Heq. subst s'. cbn [state].
  assert (Hr : own_keys_only (res_state r)).
  { refine (resolve_cell_invariant own_keys_only Hni _ _
              vis_chars tip (state s) (vis s) (Z.of_nat k) char r Hs E).
    - intros wrong_branch t s1 Hs1. exact Hs1.
    - intros j s1 Hs1. exact Hs1. }
  destruct (v_branch r); [|exact Hr]. destruct (vis_line r); [|exact Hr].
  apply own_keys_only_densen. exact Hr.
Qed.

(** In every state that [parse] reaches, the lookup of the name of a property
    that every object inherits finds that property. *)
Lemma inherited_name_is_found_inherited
    (branch_data separator : string) (curve_radius : float)
    (rows : list (nat * string)) (st0 st : State) (vis_chars : list ascii)
    (tip : option addr) (cells : list (nat * ascii)) (sc : Scan) (b : addr) :
  build_registry branch_data separator = inr st0 ->
  fold_exn (parse_row separator curve_radius) rows st0 = inr st ->
  fold_exn (scan_cell vis_chars tip) cells (mkScan st [] None) = inr sc ->
  JS.is_inherited (branch_id (branch_heap (state sc)) b) = true ->
  JS.get (Prototype.added (object_prototype (state sc)))
    (densened_vis_line_by_branch_id (state sc)) (branch_id (branch_heap (state sc)) b)
  = JS.Inherited
  /\ own_keys_only (state sc).
Proof.
  intros Hregistry Hrows Hcells Hname.
  pose proof (own_keys_only_cells _ _ _ _ _ _ _ _ _ _ Hregistry Hrows Hcells) as Hkeys.
  split; [|exact Hkeys]. unfold JS.get.
  destruct (JS.own (densened_vis_line_by_branch_id (state sc))
              (branch_id (branch_heap (state sc)) b)) as [a|] eqn:Hown.
  - apply own_In in Hown. apply (in_map fst) in Hown. apply Hkeys in Hown.
    cbn [fst] in Hown. congruence.
  - rewrite Hname. reflexivity.
Qed.

(** A branch whose id is the name of a property that every object inherits -
    "constructor", "toString", "valueOf", "hasOwnProperty" and the like - gets
    no line.  In every state that [parse] reaches, the record of the lines
    collected for a commit has no such key of its own; the lookup of the id
    finds the inherited property, which is truthy, so the cell is taken as a
    continuation, and the record and the lines stay as they are.  The two
    writes of the continuation land on the object found: [Object.prototype]
    keeps what it has unless the id is "__proto__". *)
Theorem branch_named_like_an_inherited_property_gets_no_line
    (branch_data separator : string) (curve_radius : float)
    (rows : list (nat * string)) (st0 st : State) (vis_chars : list ascii)
    (tip : option addr) (cells : list (nat * ascii)) (sc : Scan)
    (i : Z) (b : addr) (l : VisLine.t)
    (Hregistry : build_registry branch_data separator = inr st0)
    (Hrows : fold_exn (parse_row separator curve_radius) rows st0 = inr st)
    (Hcells : fold_exn (scan_cell vis_chars tip) cells (mkScan st [] None) = inr sc)
    (Hname : JS.is_inherited (branch_id (branch_heap (state sc)) b) = true) :
  JS.get (Prototype.added (object_prototype (state sc)))
    (densened_vis_line_by_branch_id (state sc)) (branch_id (branch_heap (state sc)) b)
  = JS.Inherited
  /\ line_heap (densen i b l (state sc)) = line_heap (state sc)
  /\ densened_vis_line_by_branch_id (densen i b l (state sc))
     = densened_vis_line_by_branch_id (state sc)
  /\ (branch_id (branch_heap (state sc)) b <> "__proto__" ->
      object_prototype (densen i b l (state sc)) = object_prototype (state sc)).
Proof.
  destruct (inherited_name_is_found_inherited
              _ _ _ _ _ _ _ _ _ _ b Hregistry Hrows Hcells Hname) as [Hget _].
  split; [exact Hget|]. unfold densen. rewrite Hget.
  destruct (String.eqb_spec (branch_id (branch_heap (state sc)) b) "__proto__") as [E|E];
    state_fields; repeat split; congruence.
Qed.

(** The branch "constructor": the star of the commit at its tip collects no
    line, and [parse] returns the commit without a line. *)
Lemma branch_named_constructor_witness :
  (exists out,
      parse no_palette constructor_log constructor_branches EmptyString SEP 0.25%float
      = inr out
      /\ map Commit.vis_lines (out_commits out) = [[]]
      /\ map Commit.branch (out_commits out) = [Some 0%nat])
  /\ line_heap (densen 0 0%nat (line 0.5 0.5) constructor_registry) = [].
Proof.
  split.
  - eexists. split; [vm_compute; reflexivity|]. split; reflexivity.
  - refine (proj1 (proj2 (branch_named_like_an_inherited_property_gets_no_line
                            constructor_branches SEP 0.25%float [] constructor_registry
                            constructor_registry [] None []
                            (mkScan constructor_registry [] None) 0 0%nat (line 0.5 0.5)
                            _ _ _ _))).
    + vm_compute. reflexivity.
    + reflexivity.
    + reflexivity.
    + vm_compute. reflexivity.
Defined.

(** ** A branch with the name "__proto__" *)

Lemma key_truthy (i : Z) : JS.truthy (JS.key i) = true.
Proof.
  unfold JS.key, JS.string_of_Z, NilZero.string_of_int, NilZero.string_of_uint.
  destruct (Z.to_int i) as [d|d]; [|reflexivity].
  destruct d; reflexivity.
Qed.

Lemma truthy_app (s t : string) : JS.truthy t = true -> JS.truthy (s ++ t) = true.
Proof. destruct s; [auto|reflexivity]. Qed.

(** The [xn] of the line of a cell is a string that is not empty. *)
Lemma shifted_xn_truthy (p : Prototype.t) (i : Z) (l : VisLine.t) :
  JS.truthy_value (VisLine.xn (shift p i l)) = true.
Proof.
  assert (H : forall x, JS.truthy_value (JS.add x (JS.Str (JS.key i))) = true).
  { intros [x|x]; cbn [JS.add JS.truthy_value JS.to_string]; apply truthy_app, key_truthy. }
  unfold shift. destruct (VisLine.read_xce p _); cbn [VisLine.xn VisLine.set_xce VisLine.set_xcs
    VisLine.set_xn VisLine.set_x0]; apply H.
Qed.

(** A cell of a branch whose id is "__proto__" collects no line and writes
    on [Object.prototype].  In every state that [parse] reaches the lookup of
    this id finds [Object.prototype] itself, so the two writes of the
    continuation leave there the [xn] of the cell and the [xce] that is read
    from it, while the lines and their record stay as they are.  From then on
    every record without a key "xn" of its own finds that string under "xn":
    a branch with the id "xn" that has no line yet gets none. *)
Theorem branch_named_proto_writes_on_object_prototype
    (branch_data separator : string) (curve_radius : float)
    (rows : list (nat * string)) (st0 st : State) (vis_chars : list ascii)
    (tip : option addr) (cells : list (nat * ascii)) (sc : Scan)
    (i : Z) (b : addr) (l : VisLine.t)
    (Hregistry : build_registry branch_data separator = inr st0)
    (Hrows : fold_exn (parse_row separator curve_radius) rows st0 = inr st)
    (Hcells : fold_exn (scan_cell vis_chars tip) cells (mkScan st [] None) = inr sc)
    (Hname : branch_id (branch_heap (state sc)) b = "__proto__") :
  let p := object_prototype (state sc) in
  let st' := densen i b l (state sc) in
  object_prototype st'
  = Prototype.mk (Some (VisLine.xn (shift p i l))) (VisLine.read_xce p (shift p i l))
  /\ line_heap st' = line_heap (state sc)
  /\ densened_vis_line_by_branch_id st' = densened_vis_line_by_branch_id (state sc)
  /\ (forall r : JS.record addr,
        JS.own r "xn" = None ->
        JS.get (Prototype.added (object_prototype st')) r "xn"
        = JS.Added (VisLine.xn (shift p i l)))
  /\ (forall j b' l',
        branch_id (branch_heap st') b' = "xn" ->
        JS.own (densened_vis_line_by_branch_id st') "xn" = None ->
        line_heap (densen j b' l' st') = line_heap st'
        /\ densened_vis_line_by_branch_id (densen j b' l' st')
           = densened_vis_line_by_branch_id st').
Proof.
  intros p st'.
  destruct (inherited_name_is_found_inherited
              _ _ _ _ _ _ _ _ _ _ b Hregistry Hrows Hcells) as [Hget _];
    [rewrite Hname; reflexivity|].
  assert (Hp : object_prototype st'
               = Prototype.mk (Some (VisLine.xn (shift p i l)))
                   (VisLine.read_xce p (shift p i l))).
  { subst st' p. unfold densen. rewrite Hget, Hname. reflexivity. }
  assert (Hadded : forall r : JS.record addr,
             JS.own r "xn" = None ->
             JS.get (Prototype.added (object_prototype st')) r "xn"
             = JS.Added (VisLine.xn (shift p i l))).
  { intros r Hr. rewrite Hp. unfold JS.get. rewrite Hr. cbn.
    rewrite shifted_xn_truthy. reflexivity. }
  split; [exact Hp|].
  split; [subst st'; unfold densen; rewrite Hget, Hname; reflexivity|].
  split; [subst st'; unfold densen; rewrite Hget, Hname; reflexivity|].
  split; [exact Hadded|].
  intros j b' l' Hb' Hown. unfold densen. rewrite Hb', (Hadded _ Hown).
  split; reflexivity.
Qed.

(** The branches "__proto__" and "xn" with a commit at the tip of each: the
    star of the first writes "0.50" on [Object.prototype], and neither commit
    has a line. *)
Lemma branch_named_proto_witness :
  (exists out,
      parse no_palette proto_log proto_branches EmptyString SEP 0.25%float = inr out
      /\ map Commit.vis_lines (out_commits out) = [[]; []]
      /\ map Commit.branch (out_commits out) = [Some 0%nat; Some 1%nat]
      /\ out_object_prototype out = Prototype.mk (Some (JS.Str "0.50")) None)
  /\ object_prototype (densen 0 0%nat (line 0.5 0.5) proto_registry)
     = Prototype.mk (Some (JS.Str "0.50")) None.
Proof.
  split.
  - eexists. split; [vm_compute; reflexivity|]. repeat split.
  - etransitivity.
    + refine (proj1 (branch_named_proto_writes_on_object_prototype
                       proto_branches SEP 0.25%float [] proto_registry
                       proto_registry [] None []
                       (mkScan proto_registry [] None) 0 0%nat (line 0.5 0.5)
                       _ _ _ _)).
      * vm_compute. reflexivity.
      * reflexivity.
      * reflexivity.
      * vm_compute. reflexivity.
    + vm_compute. reflexivity.
Defined.

(** ** The line of the branch of a commit *)

Lemma branch_id_app_old (heap added : list Branch.t) (b : addr) :
  (b < List.length heap)%nat -> branch_id (heap ++ added) b = branch_id heap b.
Proof. intros H. unfold branch_id, deref. rewrite nth_error_app1 by exact H. reflexivity. Qed.

Lemma cells_valid_le (n m : nat) (v : Vis.t) :
  (n <= m)%nat -> cells_valid n v -> cells_valid m v.
Proof. intros Hle H cell b Hin Hb. specialize (H cell b Hin Hb). lia. Qed.

Lemma get_index_In {A} (v : list (option A)) (k : Z) (x : A) :
  JS.get_index v k = Some x -> In (Some x) v.
Proof.
  unfold JS.get_index, JS.at_index. destruct (k <? 0); [discriminate|].
  destruct (nth_error v (Z.to_nat k)) as [[y|]|] eqn:E; try discriminate.
  intros [= <-]. eapply nth_error_In. exact E.
Qed.

Lemma branch_of_valid (n : nat) (v : Vis.t) (k : Z) (b : addr) :
  cells_valid n v -> branch_of (JS.get_index v k) = Some b -> (b < n)%nat.
Proof.
  intros Hv. unfold branch_of. destruct (JS.get_index v k) as [cell|] eqn:E; [|discriminate].
  intros Hb. apply get_index_In in E. exact (Hv cell b E Hb).
Qed.

Lemma branch_of_key_valid (n : nat) (v : Vis.t) (key : string) (b : addr) :
  cells_valid n v -> branch_of (JS.at_key v key) = Some b -> (b < n)%nat.
Proof.
  intros Hv. unfold JS.at_key. destruct (JS.array_index key); [|discriminate].
  apply branch_of_valid. exact Hv.
Qed.

Lemma walk_dashes_In (lv : Vis.t) (n : nat) (cell : Vis.cell) :
  walk_dashes lv n = Some cell -> In (Some cell) lv.
Proof.
  induction n as [|n IH]; [discriminate|]. cbn [walk_dashes].
  destruct (JS.get_index lv (Z.of_nat n)) as [c|] eqn:E; [|discriminate].
  destruct (Ascii.eqb (Vis.char c) "-"); [exact IH|].
  intros [= <-]. apply get_index_In in E. exact E.
Qed.

Lemma set_index_In {A} (v : list (option A)) (k : nat) (x y : A) :
  In (Some y) (JS.set_index v k x) -> y = x \/ In (Some y) v.
Proof.
  revert v. induction k as [|k IH]; intros [|z v]; cbn [JS.set_index In].
  - intros [[= <-]|[]]. left. reflexivity.
  - intros [[= <-]|H]; auto.
  - intros [H|H]; [discriminate|]. apply IH in H. destruct H as [H|[]]. left. exact H.
  - intros [H|H]; [auto|]. apply IH in H. destruct H; auto.
Qed.

Lemma grown_refl (st : State) : grown st st.
Proof. split; [exists []; rewrite app_nil_r; reflexivity|]. split; reflexivity. Qed.

Lemma grown_length (st st' : State) :
  grown st st' -> (List.length (branch_heap st) <= List.length (branch_heap st'))%nat.
Proof. intros ((added & ->) & _). rewrite length_app. lia. Qed.

Lemma grown_branch_id (st st' : State) (b : addr) :
  grown st st' -> (b < List.length (branch_heap st))%nat ->
  branch_id (branch_heap st') b = branch_id (branch_heap st) b.
Proof. intros ((added & ->) & _) Hb. apply branch_id_app_old. exact Hb. Qed.

Lemma keyed_grown_heap (st : State) (x : Branch.t) (st' : State) :
  branch_heap st' = branch_heap st ++ [x] ->
  line_heap st' = line_heap st ->
  densened_vis_line_by_branch_id st' = densened_vis_line_by_branch_id st ->
  keyed st -> keyed st'.
Proof.
  intros Hheap Hlines Hd H key a Hin. rewrite Hd in Hin.
  destruct (H key a Hin) as (l & b & Hl & Hb & Hvalid & Hid).
  exists l, b. rewrite Hlines, Hheap, length_app, branch_id_app_old by exact Hvalid.
  repeat split; auto. lia.
Qed.

Lemma row_ready_new_inferred_branch (name : string) (remote : option string) (st : State) :
  row_ready st -> row_ready (fst (new_inferred_branch name remote st)).
Proof.
  intros (Hlines & Hreg & Hcells & Hkeyed).
  split; [|split; [apply wf_registry_new_inferred_branch; exact Hreg|]].
  - rewrite new_inferred_branch_eq. eapply lines_ready_same; [..|exact Hlines]; reflexivity.
  - rewrite new_inferred_branch_eq. cbn [fst]. state_fields. split.
    + eapply cells_valid_le; [|exact Hcells]. rewrite length_app. lia.
    + eapply keyed_grown_heap; [..|exact Hkeyed]; reflexivity.
Qed.

Lemma repair_lines_frame (cs : list Commit.t) (wrong_branch v : addr)
    (heap : list VisLine.t) (a : addr) :
  (forall c, In c cs -> ~ In a (Commit.vis_lines c)) ->
  deref (repair_lines cs wrong_branch v heap (List.length cs)) a = deref heap a.
Proof.
  intros Hout.
  destruct (repair_lines_spec wrong_branch v cs (List.length cs) heap (Nat.le_refl _))
    as (j & _ & _ & Hpt & _).
  rewrite Hpt.
  replace (scanned_by a (firstn j (rev (firstn (List.length cs) cs)))) with false;
    [reflexivity|].
  symmetry. apply Bool.not_true_is_false. intros H. unfold scanned_by in H.
  apply existsb_exists in H. destruct H as (c & Hc & Ha).
  apply firstn_In in Hc. apply <- in_rev in Hc. apply firstn_In in Hc.
  apply existsb_exists in Ha. destruct Ha as (x & Hx & E). apply Nat.eqb_eq in E. subst x.
  exact (Hout c Hc Hx).
Qed.

Lemma row_ready_repair (wrong_branch tip : addr) (st : State) :
  row_ready st -> row_ready (repair wrong_branch tip st).
Proof.
  intros (Hlines & Hreg & Hcells & Hkeyed).
  split; [apply lines_ready_repair; exact Hlines|].
  split; [apply wf_registry_repair; exact Hreg|].
  split; [exact Hcells|].
  intros key a Hin. unfold repair in *. revert Hin. state_fields. intros Hin.
  destruct (Hkeyed key a Hin) as (l & b & Hl & Hb & Hvalid & Hid).
  exists l, b. split; [|auto].
  rewrite repair_lines_frame; [exact Hl|].
  destruct Hlines as (_ & _ & Hd). apply Hd.
  change a with (snd (key, a)). apply in_map. exact Hin.
Qed.

Lemma row_ready_merge (k : nat) (st : State) :
  row_ready st -> row_ready (with_commits (update (commits st) k (Commit.set_merge true)) st).
Proof.
  intros (Hlines & Hreg & Hcells & Hkeyed).
  split; [apply lines_ready_merge; exact Hlines|].
  split; [eapply wf_registry_same; [..|exact Hreg]; reflexivity|].
  split; assumption.
Qed.

Ltac neighbour_valid :=
  match goal with
  | H : forall k b, branch_of (JS.get_index ?v k) = Some b -> _,
    E : branch_of (JS.get_index ?v _) = Some _ |- _ => exact (H _ _ E)
  | H : forall k b, branch_of (JS.at_key ?v k) = Some b -> _,
    E : branch_of (JS.at_key ?v _) = Some _ |- _ => exact (H _ _ E)
  end.

Lemma resolve_cell_branch_valid (vis_chars : list ascii) (tip : option addr) (st : State)
    (vis : Vis.t) (i : Z) (char : ascii) (r : Resolved) (b : addr) :
  cells_valid (List.length (branch_heap st)) (last_vis st) ->
  cells_valid (List.length (branch_heap st)) vis ->
  (forall t, tip = Some t -> (t < List.length (branch_heap st))%nat) ->
  resolve_cell vis_chars tip st vis i char = inr r ->
  v_branch r = Some b ->
  (b < List.length (branch_heap (res_state r)))%nat.
Proof.
  intros Hlv Hv Htip. unfold resolve_cell.
  pose proof (fun k b => branch_of_valid _ _ k b Hlv) as Habove.
  pose proof (fun k b => branch_of_key_valid _ _ k b Hlv) as Habove_key.
  pose proof (fun k b => branch_of_key_valid _ _ k b Hv) as Hright_key.
  destruct (Ascii.eqb char "*").
  { intros H. apply inr_eq in H. subst r. unfold case_star. destruct tip as [t|].
    - cbn [v_branch res_state]. intros [= <-]. specialize (Htip t eq_refl).
      destruct (char_is _ _); [|exact Htip].
      destruct (branch_of _); [unfold repair; state_fields|]; exact Htip.
    - destruct (branch_of (JS.get_index (last_vis st) i)) as [b0|] eqn:E1.
      { cbn [v_branch res_state]. intros [= <-]. neighbour_valid. }
      destruct (char_is (JS.get_index (last_vis st) (i - 1)) "\").
      { cbn [v_branch res_state]. intros Hb. neighbour_valid. }
      destruct (char_is (JS.at_key (last_vis st) (JS.key i ++ "1")) "/").
      { cbn [v_branch res_state]. intros Hb. neighbour_valid. }
      rewrite new_inferred_branch_eq. cbn [v_branch res_state]. state_fields.
      intros [= <-]. rewrite length_app. cbn [List.length]. lia. }
  destruct (Ascii.eqb char "|").
  { intros H. apply inr_eq in H. subst r. unfold case_pipe. cbn [v_branch res_state].
    destruct (branch_of (JS.get_index (last_vis st) i)) as [b0|] eqn:E1.
    { intros [= <-]. neighbour_valid. }
    destruct (char_is _ "\"); [intros Hb; neighbour_valid|].
    destruct (char_is _ "/"); [intros Hb; neighbour_valid|discriminate]. }
  destruct (Ascii.eqb char "_").
  { intros H. apply inr_eq in H. subst r. unfold case_underscore. cbn [v_branch res_state].
    intros Hb. neighbour_valid. }
  destruct (Ascii.eqb char "/").
  { intros H. apply inr_eq in H. subst r. unfold case_slash. cbn [v_branch res_state].
    destruct (char_is _ "*"); [intros Hb; neighbour_valid|].
    destruct (char_is _ "|").
    { destruct (_ || _); intros Hb; neighbour_valid. }
    destruct (char_is _ "/"); [intros Hb; neighbour_valid|].
    destruct (_ || _); [intros Hb; neighbour_valid|discriminate]. }
  destruct (Ascii.eqb char "\"); [|intros H; apply inr_eq in H; subst r; discriminate].
  unfold case_backslash.
  destruct (char_is _ "|").
  { intros H. apply inr_eq in H. subst r. cbn [v_branch res_state].
    intros Hb. neighbour_valid. }
  destruct (match JS.at_index vis_chars (i - 1) with
            | Some c => Ascii.eqb c "|"
            | None => false
            end).
  { destruct (merge_marker_spec st) as (st' & branch & Hmm & _ & _ & Hheap & _).
    rewrite Hmm. intros H. apply inr_eq in H. subst r. cbn [v_branch res_state].
    intros [= <-]. rewrite Hheap, length_app. cbn [List.length]. lia. }
  destruct (_ || _).
  { intros H. apply inr_eq in H. subst r. cbn [v_branch res_state].
    intros Hb. neighbour_valid. }
  destruct (_ || _); [|intros H; apply inr_eq in H; subst r; discriminate].
  destruct (walk_dashes _ _) as [w|] eqn:Hwalk; [|discriminate].
  intros H. apply inr_eq in H. subst r. cbn [v_branch res_state].
  intros Hb. apply walk_dashes_In in Hwalk. exact (Hlv w b Hwalk Hb).
Qed.

Lemma resolve_cell_ready (vis_chars : list ascii) (tip : option addr) (st : State)
    (vis : Vis.t) (i : Z) (char : ascii) (r : Resolved) :
  row_ready st ->
  resolve_cell vis_chars tip st vis i char = inr r ->
  row_ready (res_state r) /\ grown st (res_state r).
Proof.
  intros Hst Hr.
  refine (resolve_cell_invariant (fun s => row_ready s /\ grown st s) _ _ _
            vis_chars tip st vis i char r (conj Hst (grown_refl st)) Hr).
  - intros name remote s [Hs ((added & Hadded) & Hd & Hlv)].
    split; [apply row_ready_new_inferred_branch; exact Hs|].
    rewrite new_inferred_branch_eq. cbn [fst]. unfold grown. state_fields.
    split; [|split; assumption].
    eexists. rewrite Hadded, <- app_assoc. reflexivity.
  - intros wrong_branch t s [Hs Hg]. split; [apply row_ready_repair; exact Hs|exact Hg].
  - intros k s [Hs Hg]. split; [apply row_ready_merge; exact Hs|exact Hg].
Qed.

Lemma densen_frame (i : Z) (b : addr) (l : VisLine.t) (st : State) :
  branch_heap (densen i b l st) = branch_heap st
  /\ branches (densen i b l st) = branches st
  /\ last_vis (densen i b l st) = last_vis st.
Proof. densen_cases; repeat split. Qed.

(** What no object inherits is found in a record only as a value of the
    record itself. *)
Lemma get_never_inherited {V} (p : Prototype.t) (r : JS.record V) (key : string) :
  never_inherited key = true ->
  JS.get (Prototype.added p) r key <> JS.Inherited
  /\ forall w, JS.get (Prototype.added p) r key <> JS.Added w.
Proof.
  unfold never_inherited, JS.get, Prototype.added. intros H.
  apply andb_prop in H. destruct H as [H Hxce]. apply andb_prop in H. destruct H as [Hinh Hxn].
  destruct (JS.own r key); [split; [|intros w]; discriminate|].
  destruct (JS.is_inherited key); [discriminate|].
  destruct (String.eqb key "xn"); [discriminate|].
  destruct (String.eqb key "xce"); [discriminate|].
  split; [|intros w]; discriminate.
Qed.

Lemma densen_ready (i : Z) (b : addr) (l : VisLine.t) (st : State) :
  cell_line l ->
  row_ready st ->
  (b < List.length (branch_heap st))%nat ->
  row_ready (densen i b l st)
  /\ (forall key a, In (key, a) (densened_vis_line_by_branch_id st) ->
                    In (key, a) (densened_vis_line_by_branch_id (densen i b l st)))
  /\ (never_inherited (branch_id (branch_heap st) b) = true ->
      exists a, In (branch_id (branch_heap st) b, a)
                  (densened_vis_line_by_branch_id (densen i b l st))).
Proof.
  intros Hcell (Hlines & Hreg & Hcells & Hkeyed) Hb.
  destruct (densen_frame i b l st) as (Hheap & Hbranches & Hlv).
  assert (Hready : lines_ready (densen i b l st) /\ wf_registry (densen i b l st)
                   /\ cells_valid (List.length (branch_heap (densen i b l st)))
                        (last_vis (densen i b l st))).
  { split; [apply lines_ready_densen; assumption|].
    split; [eapply wf_registry_same; [exact Hbranches|rewrite Hheap; reflexivity|exact Hreg]|].
    rewrite Hheap, Hlv. exact Hcells. }
  destruct Hready as (H1 & H2 & H3).
  unfold row_ready, keyed. rewrite Hheap. revert H1 H2 H3. unfold densen.
  destruct (JS.get _ (densened_vis_line_by_branch_id st) (branch_id (branch_heap st) b))
    as [a0| |w|] eqn:Hget; state_fields; intros H1 H2 H3.
  - split; [|split].
    + split; [exact H1|]. split; [exact H2|]. split; [exact H3|].
      intros key a Hin. destruct (Hkeyed key a Hin) as (l0 & b0 & Hl0 & Hb0 & Hvalid & Hid).
      unfold deref in *. rewrite update_nth_error.
      destruct (Nat.eqb a a0) eqn:E.
      * apply Nat.eqb_eq in E. subst a0. rewrite Hl0. cbn [option_map].
        eexists. exists b0. split; [reflexivity|]. destruct l0. cbn. auto.
      * exists l0, b0. auto.
    + auto.
    + intros _. exists a0. apply own_In. apply get_Own in Hget. exact Hget.
  - assert (Hno : never_inherited (branch_id (branch_heap st) b) = true -> False).
    { intros Hname. exact (proj1 (get_never_inherited _ _ _ Hname) Hget). }
    destruct (String.eqb _ "__proto__"); revert H1 H2 H3; state_fields; intros H1 H2 H3.
    all: split; [|split]; [|auto|intros Hname; destruct (Hno Hname)].
    all: split; [exact H1|]; split; [exact H2|]; split; [exact H3|exact Hkeyed].
  - split; [|split].
    + split; [exact H1|]. split; [exact H2|]. split; [exact H3|exact Hkeyed].
    + auto.
    + intros Hname. destruct (proj2 (get_never_inherited _ _ _ Hname) w Hget).
  - destruct (set_absent_perm _ _ _ (List.length (line_heap st)) Hget) as [Hperm _].
    split; [|split].
    + split; [exact H1|]. split; [exact H2|]. split; [exact H3|].
      intros key a Hin. apply (Permutation_in _ (Permutation_sym Hperm)) in Hin.
      destruct Hin as [[= <- <-]|Hin].
      * eexists. exists b. split; [unfold deref; rewrite nth_error_app2, Nat.sub_diag by lia;
                                  reflexivity|].
        cbn. auto.
      * destruct (Hkeyed key a Hin) as (l0 & b0 & Hl0 & Hrest).
        exists l0, b0. split; [apply deref_app_old; exact Hl0|exact Hrest].
    + intros key a Hin. apply (Permutation_in _ Hperm). right. exact Hin.
    + intros _. eexists. apply (Permutation_in _ Hperm). left. reflexivity.
Qed.

Lemma star_has_a_line (vis_chars : list ascii) (tip : option addr) (st : State) (vis : Vis.t)
    (i : Z) (r : Resolved) :
  resolve_cell vis_chars tip st vis i "*" = inr r -> exists l, vis_line r = Some l.
Proof.
  unfold resolve_cell. cbn [Ascii.eqb Bool.eqb]. intros H. apply inr_eq in H. subst r.
  unfold case_star. destruct tip as [t|].
  - eexists. reflexivity.
  - destruct (branch_of _); [eexists; reflexivity|].
    destruct (char_is _ _); [eexists; reflexivity|].
    destruct (char_is _ _); [eexists; reflexivity|].
    destruct (new_inferred_branch _ _ _). eexists. reflexivity.
Qed.

Lemma scan_cell_ready (vis_chars : list ascii) (tip : option addr) (sc sc' : Scan)
    (cell : nat * ascii) :
  scan_ready tip sc -> scan_cell vis_chars tip sc cell = inr sc' -> scan_ready tip sc'.
Proof.
  intros (Hrow & Hvis & Htip & Hcb). destruct cell as [k char]. unfold scan_cell.
  destruct (resolve_cell vis_chars tip (state sc) (vis sc) (Z.of_nat k) char) as [e|r] eqn:E;
    [discriminate|].
  intros H. apply inr_eq in H. subst sc'.
  destruct (resolve_cell_ready _ _ _ _ _ _ _ Hrow E) as [Hrow1 Hgrown].
  pose proof (grown_length _ _ Hgrown) as Hlen.
  pose proof (fun b => resolve_cell_branch_valid _ _ _ _ _ _ _ b
                         (proj1 (proj2 (proj2 Hrow))) Hvis Htip E) as Hvalid.
  set (st1 := match v_branch r, vis_line r with
              | Some b, Some l => densen (Z.of_nat k) b l (res_state r)
              | _, _ => res_state r
              end).
  assert (Hst1 : row_ready st1
                 /\ branch_heap st1 = branch_heap (res_state r)
                 /\ (forall key a, In (key, a) (densened_vis_line_by_branch_id (res_state r)) ->
                                   In (key, a) (densened_vis_line_by_branch_id st1))
                 /\ (forall b l, v_branch r = Some b -> vis_line r = Some l ->
                                 never_inherited (branch_id (branch_heap st1) b) = true ->
                                 exists a, In (branch_id (branch_heap st1) b, a)
                                             (densened_vis_line_by_branch_id st1))).
  { subst st1. destruct (v_branch r) as [b|] eqn:Hb.
    - destruct (vis_line r) as [l|] eqn:Hl.
      + destruct (densen_ready (Z.of_nat k) b l (res_state r)
                    (resolve_cell_line _ _ _ _ _ _ _ _ E Hl) Hrow1 (Hvalid b eq_refl))
          as (H1 & H2 & H3).
        destruct (densen_frame (Z.of_nat k) b l (res_state r)) as (Hheap & _).
        split; [exact H1|]. split; [exact Hheap|]. split; [exact H2|].
        intros b' l' [= <-] _. rewrite Hheap. exact H3.
      + split; [exact Hrow1|]. split; [reflexivity|]. split; [auto|]. discriminate.
    - split; [exact Hrow1|]. split; [reflexivity|]. split; [auto|]. discriminate. }
  destruct Hst1 as (Hready & Hheap & Hkeys & Hnew).
  fold st1. unfold scan_ready. cbn [state vis commit_branch]. rewrite Hheap.
  split; [exact Hready|]. split; [|split].
  - intros c b Hin Hb. apply set_index_In in Hin. destruct Hin as [->|Hin].
    + cbn [Vis.branch] in Hb. apply Hvalid. exact Hb.
    + specialize (Hvis c b Hin Hb). lia.
  - intros t Ht. specialize (Htip t Ht). lia.
  - intros b Hb. unfold has_line. rewrite Hheap.
    destruct (Ascii.eqb_spec char "*") as [->|Hchar].
    + split; [apply Hvalid; exact Hb|].
      destruct (star_has_a_line _ _ _ _ _ _ E) as [l Hl].
      intros Hname. rewrite <- Hheap in Hname |- *. exact (Hnew b l Hb Hl Hname).
    + destruct (Hcb b Hb) as [Hbv Hline]. split; [lia|].
      rewrite (grown_branch_id _ _ _ Hgrown Hbv). intros Hname.
      destruct (Hline Hname) as [a Ha]. exists a. apply Hkeys.
      destruct Hgrown as (_ & -> & _). exact Ha.
Qed.

Lemma branch_tip_valid (st : State) (refs_csv : string) (t : addr) :
  wf_registry st ->
  branch_tip_of st (resolve_refs st refs_csv) = Some t ->
  (t < List.length (branch_heap st))%nat.
Proof.
  intros [_ Hvalid] Htip. apply Hvalid. unfold branch_tip_of in Htip.
  destruct (filter (is_branch (branch_heap st)) (resolve_refs st refs_csv))
    as [|[a|o] rest] eqn:Hf; [discriminate| |discriminate].
  injection Htip as ->.
  assert (Hin : In (GitRef.of_branch t)
                  (filter (is_branch (branch_heap st)) (resolve_refs st refs_csv)))
    by (rewrite Hf; left; reflexivity).
  apply filter_In in Hin. destruct Hin as [Hin _]. unfold resolve_refs in Hin.
  apply (Permutation_in _ (Permutation_sym (proj1 (sort_refs_sorted _ _)))) in Hin.
  apply keep_defined_In, in_map_iff in Hin. destruct Hin as (name & Hres & _).
  unfold resolve_ref in Hres. destruct (JS.startsWith name "tag: "); [discriminate|].
  destruct (find _ (branches st)) as [m|] eqn:Hfind; [|discriminate].
  injection Hres as ->. apply find_some in Hfind. exact (proj1 Hfind).
Qed.

Lemma scan_row_ready (vis_chars : list ascii) (st : State) (refs_csv : string) (sc : Scan) :
  row_ready st ->
  scan_row vis_chars (branch_tip_of st (resolve_refs st refs_csv)) st = inr sc ->
  scan_ready (branch_tip_of st (resolve_refs st refs_csv)) sc.
Proof.
  intros Hrow. unfold scan_row.
  apply (fold_exn_invariant (scan_ready (branch_tip_of st (resolve_refs st refs_csv)))).
  - intros s x s' Hs Hx. eapply scan_cell_ready; eassumption.
  - split; [exact Hrow|]. cbn [state vis commit_branch]. split; [intros c b []|].
    split; [|discriminate].
    intros t Ht. eapply branch_tip_valid; [exact (proj1 (proj2 Hrow))|exact Ht].
Qed.

Lemma parse_row_ready (separator : string) (curve_radius : float) (st st' : State)
    (entry : nat * string) :
  row_ready st -> parse_row separator curve_radius st entry = inr st' -> row_ready st'.
Proof.
  intros Hrow. destruct entry as [row_no row]. unfold parse_row.
  destruct (String.eqb row "... "); [intros H; apply inr_eq in H; subst st'; exact Hrow|].
  destruct (has_unknown_char _); [discriminate|].
  destruct (scan_row _ _ _) as [e|sc] eqn:E; [discriminate|].
  intros H. apply inr_eq in H. subst st'.
  apply scan_row_ready in E; [|exact Hrow].
  destruct E as ((Hlines & Hreg & _ & Hkeyed) & Hvis & _).
  destruct (JS.truthy _).
  - split; [|split; [|split]].
    + eapply lines_ready_same; [..|apply lines_ready_close; exact Hlines]; reflexivity.
    + eapply wf_registry_same; [..|exact Hreg]; reflexivity.
    + exact Hvis.
    + intros key a [].
  - split; [|split; [|split]].
    + eapply lines_ready_same; [..|exact Hlines]; reflexivity.
    + eapply wf_registry_same; [..|exact Hreg]; reflexivity.
    + exact Hvis.
    + exact Hkeyed.
Qed.

Lemma parse_rows_ready (branch_data separator : string) (curve_radius : float)
    (rows : list (nat * string)) (st0 st : State) :
  build_registry branch_data separator = inr st0 ->
  fold_exn (parse_row separator curve_radius) rows st0 = inr st ->
  row_ready st.
Proof.
  intros H0. apply fold_exn_invariant.
  - intros s x s' Hs Hx. eapply parse_row_ready; eassumption.
  - refine (build_registry_invariant row_ready _ branch_data separator st0 _ H0).
    + intros name remote tracking s (Hlines & Hreg & Hcells & Hkeyed).
      split; [eapply lines_ready_same; [..|exact Hlines]; reflexivity|].
      split; [apply wf_registry_new_branch; exact Hreg|].
      unfold new_branch. cbn [fst]. state_fields. split.
      * eapply cells_valid_le; [|exact Hcells]. rewrite length_app. lia.
      * eapply keyed_grown_heap; [..|exact Hkeyed]; reflexivity.
    + split; [apply lines_ready_initial|]. split; [|split].
      * split; [constructor|intros b []].
      * intros c b [].
      * intros key a [].
Qed.

Lemma owned_by_kept (p : Prototype.t) (b : addr) :
  (forall r l, owned_by b l = true -> owned_by b (with_defaults r p l) = true)
  /\ (forall r m x l, owned_by b l = true -> owned_by b (join_last r m x l) = true)
  /\ (forall r m x l, owned_by b l = true -> owned_by b (join_this r m x l) = true)
  /\ (forall r l, owned_by b l = true -> owned_by b (first_appearance r l) = true).
Proof.
  unfold owned_by. destruct p as [pxn [pxce|]].
  all: split; [intros r l; line_cases l; auto|]; split; [intros r m x l; line_cases l; auto|].
  all: split; [intros r m x l; line_cases l; auto|].
  all: intros r l; line_cases l; try destruct (JS.greater _ _); auto.
Qed.

(** The commit that a row adds has a line of its branch: when [parse] has
    read some rows and the next row has a subject, the commit it adds lists,
    if it has a branch whose id no object inherits as a property, a line
    whose owner has the id of that branch.  The ids that are left out are the
    names of the built-in properties of [Object.prototype], and "xn" and
    "xce": a cell of a branch "__proto__" writes these two on
    [Object.prototype], after which the star of a branch "xn" finds a string
    under its id and collects no line. *)
Theorem commit_has_a_line_of_its_branch (branch_data separator : string)
    (curve_radius : float) (rows : list (nat * string)) (st0 st st' : State)
    (row_no : nat) (row : string)
    (Hregistry : build_registry branch_data separator = inr st0)
    (Hrows : fold_exn (parse_row separator curve_radius) rows st0 = inr st)
    (Hrow : parse_row separator curve_radius st (row_no, row) = inr st')
    (Hsubject : has_subject separator row = true) :
  exists c,
    JS.at_last (commits st') = Some c
    /\ forall b,
         Commit.branch c = Some b ->
         never_inherited (branch_id (branch_heap st') b) = true ->
         exists a l b',
           In a (Commit.vis_lines c)
           /\ deref (line_heap st') a = Some l
           /\ VisLine.branch l = Some b'
           /\ branch_id (branch_heap st') b' = branch_id (branch_heap st') b.
Proof.
  pose proof (parse_rows_ready _ _ _ _ _ _ Hregistry Hrows) as Hready.
  unfold parse_row, has_subject in *.
  destruct (String.eqb row "... "); cbn [negb andb] in Hsubject; [discriminate|].
  destruct (has_unknown_char _); [discriminate|].
  destruct (scan_row _ _ _) as [e|sc] eqn:E; [discriminate|].
  apply inr_eq in Hrow. subst st'. rewrite Hsubject.
  apply scan_row_ready in E; [|exact Hready].
  destruct E as ((Hlines & _ & _ & Hkeyed) & _ & _ & Hcb).
  unfold close_commit, finalize_lines. state_fields. rewrite at_last_snoc.
  eexists. split; [reflexivity|]. cbn [Commit.branch Commit.vis_lines].
  intros b Hb Hname. destruct (Hcb b Hb) as [_ Hline].
  destruct (Hline Hname) as [a Ha].
  destruct (Hkeyed _ a Ha) as (l & b' & Hl & Hb' & _ & Hid).
  destruct (owned_by_kept (object_prototype (state sc)) b') as (O1 & O2 & O3 & O4).
  destruct (finalize_fold_keeps _ (owned_by b') O1 O2 O3 O4 curve_radius
              (last_densened_vis_line_by_branch_id (state sc))
              (densened_vis_line_by_branch_id (state sc)) (line_heap (state sc)) a)
    as (l' & Hl' & Hq).
  { exists l. split; [exact Hl|]. unfold owned_by. rewrite Hb'. apply Nat.eqb_refl. }
  exists a, l', b'. split; [|split; [exact Hl'|split; [|exact Hid]]].
  - eapply Permutation_in; [apply sort_perm|].
    change a with (snd (branch_id (branch_heap (state sc)) b, a)). apply in_map. exact Ha.
  - unfold owned_by in Hq. destruct (VisLine.branch l') as [x|]; [|discriminate].
    apply Nat.eqb_eq in Hq. congruence.
Qed.

(** The commit of Scenario A has the line of "master". *)
Lemma commit_has_a_line_witness :
  exists c,
    JS.at_last (commits scenario_A_parsed) = Some c
    /\ Commit.branch c = Some 0%nat
    /\ forall b,
         Commit.branch c = Some b ->
         never_inherited (branch_id (branch_heap scenario_A_parsed) b) = true ->
         exists a l b',
           In a (Commit.vis_lines c)
           /\ deref (line_heap scenario_A_parsed) a = Some l
           /\ VisLine.branch l = Some b'
           /\ branch_id (branch_heap scenario_A_parsed) b'
              = branch_id (branch_heap scenario_A_parsed) b.
Proof.
  destruct (commit_has_a_line_of_its_branch scenario_A_branches SEP 0.25%float []
              scenario_A_registry scenario_A_registry scenario_A_parsed 0%nat scenario_A_log)
    as (c & Hc & Hline).
  - vm_compute. reflexivity.
  - reflexivity.
  - vm_compute. reflexivity.
  - vm_compute. reflexivity.
  - exists c. split; [exact Hc|]. split; [|exact Hline].
    vm_compute in Hc. injection Hc as <-. reflexivity.
Defined.

(** ** The line that the cells of a branch are densened to *)

Lemma densen_wf_own (i : Z) (b : addr) (l : VisLine.t) (st : State) (key : string) (a : addr) :
  wf_lines st ->
  In (key, a) (densened_vis_line_by_branch_id (densen i b l st)) ->
  JS.own (densened_vis_line_by_branch_id (densen i b l st)) key = Some a.
Proof.
  intros Hwf Hin. apply own_unique_key; [|exact Hin].
  exact (proj1 (wf_lines_densen i b l st Hwf)).
Qed.

Lemma densen_prototype (i : Z) (b : addr) (l : VisLine.t) (st : State) :
  branch_id (branch_heap st) b <> "__proto__" ->
  object_prototype (densen i b l st) = object_prototype st.
Proof.
  intros Hne. unfold densen.
  destruct (JS.get _ _ _) as [a| |w|]; state_fields; try reflexivity.
  destruct (String.eqb_spec (branch_id (branch_heap st) b) "__proto__"); [contradiction|].
  reflexivity.
Qed.

Lemma densen_first (i : Z) (b : addr) (l : VisLine.t) (st : State) :
  wf_lines st ->
  JS.get (Prototype.added (object_prototype st)) (densened_vis_line_by_branch_id st)
    (branch_id (branch_heap st) b) = JS.Absent ->
  object_prototype (densen i b l st) = object_prototype st
  /\ exists a,
       JS.own (densened_vis_line_by_branch_id (densen i b l st)) (branch_id (branch_heap st) b)
       = Some a
       /\ deref (line_heap (densen i b l st)) a
          = Some (spanning b (shift (object_prototype st) i l) (shift (object_prototype st) i l)).
Proof.
  intros Hwf Hget. split; [unfold densen; rewrite Hget; reflexivity|].
  exists (List.length (line_heap st)). split.
  - apply densen_wf_own; [exact Hwf|]. unfold densen. rewrite Hget. state_fields.
    destruct (set_absent_perm _ _ _ (List.length (line_heap st)) Hget) as [Hperm _].
    apply (Permutation_in _ Hperm). left. reflexivity.
  - unfold densen. rewrite Hget. state_fields. unfold deref.
    rewrite nth_error_app2, Nat.sub_diag by lia. cbn [nth_error].
    destruct (shift (object_prototype st) i l). reflexivity.
Qed.

Lemma densen_same (i : Z) (b : addr) (l : VisLine.t) (st : State) (a owner : addr)
    (first last : VisLine.t) :
  JS.own (densened_vis_line_by_branch_id st) (branch_id (branch_heap st) b) = Some a ->
  deref (line_heap st) a = Some (spanning owner first last) ->
  JS.own (densened_vis_line_by_branch_id (densen i b l st)) (branch_id (branch_heap st) b)
  = Some a
  /\ deref (line_heap (densen i b l st)) a
     = Some (spanning owner first (line_end (object_prototype st) i l)).
Proof.
  intros Hown Hline. unfold densen.
  rewrite (proj2 (get_Own (Prototype.added (object_prototype st)) _ _ _) Hown). state_fields.
  split; [exact Hown|]. unfold deref in *. rewrite update_nth_error, Nat.eqb_refl, Hline.
  reflexivity.
Qed.

Lemma densen_other (i : Z) (b : addr) (l : VisLine.t) (st : State) (key : string) (a : addr)
    (other : VisLine.t) :
  wf_lines st ->
  JS.own (densened_vis_line_by_branch_id st) key = Some a ->
  deref (line_heap st) a = Some other ->
  branch_id (branch_heap st) b <> key ->
  JS.own (densened_vis_line_by_branch_id (densen i b l st)) key = Some a
  /\ deref (line_heap (densen i b l st)) a = Some other.
Proof.
  intros Hwf Hown Hline Hne. pose proof (own_In _ _ _ Hown) as Hin. split.
  - apply densen_wf_own; [exact Hwf|]. unfold densen.
    destruct (JS.get _ (densened_vis_line_by_branch_id st) (branch_id (branch_heap st) b))
      as [a0| |w|] eqn:Hget; state_fields;
      [exact Hin|destruct (String.eqb _ "__proto__"); exact Hin|exact Hin|].
    destruct (set_absent_perm _ _ _ (List.length (line_heap st)) Hget) as [Hperm _].
    apply (Permutation_in _ Hperm). right. exact Hin.
  - unfold densen.
    destruct (JS.get _ (densened_vis_line_by_branch_id st) (branch_id (branch_heap st) b))
      as [a0| |w|] eqn:Hget; state_fields;
      [|destruct (String.eqb _ "__proto__"); exact Hline|exact Hline
       |apply deref_app_old; exact Hline].
    unfold deref in *. rewrite update_nth_error.
    destruct (Nat.eqb_spec a a0) as [->|_]; [|exact Hline].
    exfalso. apply Hne. apply get_Own, own_In in Hget.
    destruct Hwf as (_ & Hvals & _).
    exact (same_value_same_key _ _ _ _ Hvals Hget Hin).
Qed.

Lemma densen_all_spans (key : string) (owner : addr) (first : VisLine.t)
    (cells : list (Z * addr * VisLine.t)) :
  forall st a last,
    wf_lines st ->
    no_prototype_cell (branch_heap st) cells ->
    JS.own (densened_vis_line_by_branch_id st) key = Some a ->
    deref (line_heap st) a = Some (spanning owner first last) ->
    JS.own (densened_vis_line_by_branch_id (densen_all cells st)) key = Some a
    /\ deref (line_heap (densen_all cells st)) a
       = Some (spanning owner first
                 (last_for (object_prototype st) key (branch_heap st) cells last)).
Proof.
  induction cells as [|[[i b] l] cells IH]; intros st a last Hwf Hcells Hown Hline; [auto|].
  destruct (densen_frame i b l st) as (Hheap & _).
  pose proof (wf_lines_densen i b l st Hwf) as Hwf1.
  inversion Hcells as [|? ? Hb Hrest]; subst. cbn [fst snd] in Hb.
  pose proof (densen_prototype i b l st Hb) as Hp.
  unfold densen_all, last_for in *. cbn [fold_left fst snd].
  destruct (String.eqb_spec (branch_id (branch_heap st) b) key) as [E|E].
  - subst key. destruct (densen_same i b l st a owner first last Hown Hline) as [H1 H2].
    pose proof (IH (densen i b l st) a (line_end (object_prototype st) i l) Hwf1) as R.
    rewrite Hheap, Hp in R. exact (R Hrest H1 H2).
  - destruct (densen_other i b l st key a _ Hwf Hown Hline E) as [H1 H2].
    pose proof (IH (densen i b l st) a last Hwf1) as R.
    rewrite Hheap, Hp in R. exact (R Hrest H1 H2).
Qed.

(** The cells that are given branches of one id before a commit is closed are
    densened to one line.  When nothing is found under the id of the branch
    of a cell, neither a line collected nor a property of [Object.prototype],
    the cell starts a line, and whatever cells follow, of this and of other
    branches but of no branch "__proto__", the line keeps the start of that
    first cell - its [x0], [y0], [yn], [xcs], [ycs] and [yce] - and its branch
    as the owner, and ends as the last cell whose branch has the id does: it
    has the [xn] of that cell and, as a property of its own, the [xce] that
    is read from that cell, undefined where the cell has none.  The
    coordinates of a cell are strings: those of its character, followed by
    the key of its column. *)
Theorem densened_line_spans_first_to_last (st : State) (i : Z) (b : addr) (l : VisLine.t)
    (cells : list (Z * addr * VisLine.t)) :
  wf_lines st ->
  JS.get (Prototype.added (object_prototype st)) (densened_vis_line_by_branch_id st)
    (branch_id (branch_heap st) b) = JS.Absent ->
  no_prototype_cell (branch_heap st) cells ->
  let p := object_prototype st in
  let key := branch_id (branch_heap st) b in
  let st' := densen_all cells (densen i b l st) in
  exists a,
    JS.own (densened_vis_line_by_branch_id st') key = Some a
    /\ deref (line_heap st') a
       = Some (spanning b (shift p i l) (last_for p key (branch_heap st) cells (shift p i l))).
Proof.
  intros Hwf Hget Hcells p key st'. subst p key st'.
  destruct (densen_first i b l st Hwf Hget) as (Hp & a & Hown & Hline).
  destruct (densen_frame i b l st) as (Hheap & _).
  exists a.
  pose proof (densen_all_spans (branch_id (branch_heap st) b) b
                (shift (object_prototype st) i l) cells
                (densen i b l st) a (shift (object_prototype st) i l)
                (wf_lines_densen i b l st Hwf)) as R.
  rewrite Hheap, Hp in R. exact (R Hcells Hown Hline).
Qed.

(** On the registry of Scenario A: a backslash of "master" in column 1, a pipe
    of HEAD in column 0 and a slash of "master" in column 3 give "master" the
    line from the start of the backslash to the end of the slash. *)
Lemma densened_line_witness :
  exists a l,
    JS.own (densened_vis_line_by_branch_id
              (densen_all [(0, 1%nat, VisLine.set_yn (Some 0.5%float) (line 0.5 0.5));
                           (3, 0%nat, VisLine.set_xce (Some (JS.Num 0.5)) (line 1 (-0.5)))]
                 (densen 1 0%nat (line (-0.5) 1) scenario_A_registry))) "master" = Some a
    /\ deref (line_heap
                (densen_all [(0, 1%nat, VisLine.set_yn (Some 0.5%float) (line 0.5 0.5));
                             (3, 0%nat, VisLine.set_xce (Some (JS.Num 0.5)) (line 1 (-0.5)))]
                   (densen 1 0%nat (line (-0.5) 1) scenario_A_registry))) a = Some l
    /\ VisLine.x0 l = JS.Str "-0.51" /\ VisLine.xn l = JS.Str "-0.53"
    /\ VisLine.xce l = Some (Some (JS.Str "0.53")) /\ VisLine.branch l = Some 0%nat.
Proof.
  destruct (densened_line_spans_first_to_last scenario_A_registry 1 0%nat (line (-0.5) 1)
              [(0, 1%nat, VisLine.set_yn (Some 0.5%float) (line 0.5 0.5));
               (3, 0%nat, VisLine.set_xce (Some (JS.Num 0.5)) (line 1 (-0.5)))])
    as (a & Hown & Hline).
  - apply wf_lines_same with (st := initial_state); try reflexivity. apply wf_lines_initial.
  - reflexivity.
  - repeat constructor; vm_compute; discriminate.
  - exists a. eexists. split; [exact Hown|]. split; [exact Hline|].
    vm_compute. repeat split.
Defined.
